(** * vibe-score: the diff-to-snippet pipeline and the scoring engine

    A shallow embedding of [index.tsx].  The development follows the source
    file from top to bottom: constants, string utilities, the line
    classifier, [extractSnippetsFromDiff], [deduplicateSnippets],
    [analyzeDailyVelocity], [calculateVibeMetrics], the composite score of
    [ResultScreen], [getVibeRating] and the sampling tail of [scanCode].
    The functions around these follow: the sorting of the lines of a diff,
    [isCodeFile], the sections of a diff and their headers,
    [getCommitInfo], [getAuthors], the remarks of the result screen and
    the dispatch of the answers of a quiz.

    Modelling conventions.
    - A JavaScript [number] that may hold a fraction is a binary64 float
      ([PrimFloat.float], the kernel's IEEE 754 doubles), so that
      [Math.floor (n * 0.7)], [a / b > 0.8] and [Math.round (...)] evaluate
      here to what they evaluate to in the program.  Numbers that are
      integers by construction (array lengths, counters, results of
      [Math.floor]/[Math.round]/[Math.ceil]) are kept in [Z]; [ofZ] injects
      them back, exactly below 2^53.
    - A JavaScript string is a [string] whose characters are code units
      below 256.
    - [Math.random] and the random comparator of [shuffle] are oracles:
      section variables with the range (resp. permutation) property the
      runtime guarantees. *)

From Stdlib Require Import ZArith Lia Bool List Ascii String Floats.
From Stdlib Require Import Permutation Sorted.
Import ListNotations.

Open Scope Z_scope.

(* ====================================================================== *)
(** * JavaScript numbers                                                   *)
(* ====================================================================== *)

Module JSNumber.

(** An integer-valued number, as a double. *)
Definition ofZ (z : Z) : float :=
  if z <? 0 then PrimFloat.opp (PrimFloat.of_uint63 (Uint63.of_Z (- z)))
  else PrimFloat.of_uint63 (Uint63.of_Z z).

(** The value of a double: a fraction [n / d] with [d > 0], an infinity
    or NaN. *)
Inductive value : Type :=
| Finite (n d : Z)
| Infinite (negative : bool)
| NaN.

Definition valueOf (x : float) : value :=
  match Prim2SF x with
  | S754_zero _ => Finite 0 1
  | S754_finite s m e =>
      let n := if s then Z.neg m else Z.pos m in
      if 0 <=? e then Finite (n * 2 ^ e) 1 else Finite n (2 ^ (- e))
  | S754_infinity s => Infinite s
  | S754_nan => NaN
  end.

(** An integer beyond every finite double stands for an infinity, so that
    comparisons with finite numbers come out as in JavaScript. *)
Definition infinity (negative : bool) : Z :=
  if negative then - 2 ^ 1024 else 2 ^ 1024.

(** [Math.floor], [Math.ceil], [Math.round] as integers.  On NaN, where
    JavaScript returns NaN, the model returns 0; no call site of the
    program can pass one. *)
Definition Math_floor (x : float) : Z :=
  match valueOf x with
  | Finite n d => n / d
  | Infinite s => infinity s
  | NaN => 0
  end.

Definition Math_ceil (x : float) : Z :=
  match valueOf x with
  | Finite n d => - ((- n) / d)
  | Infinite s => infinity s
  | NaN => 0
  end.

(** Nearest integer, a tie going up. *)
Definition Math_round (x : float) : Z :=
  match valueOf x with
  | Finite n d => (2 * n + d) / (2 * d)
  | Infinite s => infinity s
  | NaN => 0
  end.

(** The decimal literals of the source, as the doubles they denote. *)
Definition lit_0_5  : float := 0x1p-1%float.
Definition lit_0_35 : float := 0x1.6666666666666p-2%float.
Definition lit_0_6  : float := 0x1.3333333333333p-1%float.
Definition lit_0_7  : float := 0x1.6666666666666p-1%float.
Definition lit_0_8  : float := 0x1.999999999999ap-1%float.

End JSNumber.
Import JSNumber.

(* ====================================================================== *)
(** * JavaScript strings and arrays                                        *)
(* ====================================================================== *)

Module JSString.

Open Scope char_scope.

(** The white space of [String.prototype.trim] and of the regex class
    [\s], among code units below 256: TAB, LF, VT, FF, CR, SP, NBSP. *)
Definition isSpace (c : ascii) : bool :=
  let n := N_of_ascii c in
  ((9 <=? n) && (n <=? 13) || (n =? 32) || (n =? 160))%N.

Definition isDigit (c : ascii) : bool :=
  let n := N_of_ascii c in ((48 <=? n) && (n <=? 57))%N.

Definition isUpper (c : ascii) : bool :=
  let n := N_of_ascii c in ((65 <=? n) && (n <=? 90))%N.

Definition isLower (c : ascii) : bool :=
  let n := N_of_ascii c in ((97 <=? n) && (n <=? 122))%N.

(** The regex class [\w]. *)
Definition isWord (c : ascii) : bool :=
  isUpper c || isLower c || isDigit c || (c =? "_").

Close Scope char_scope.
Open Scope string_scope.

Fixpoint trimStart (s : string) : string :=
  match s with
  | String c r => if isSpace c then trimStart r else s
  | EmptyString => EmptyString
  end.

(** Removes the trailing white space: a character is dropped when it is
    white space and nothing but white space follows it. *)
Fixpoint trimEnd (s : string) : string :=
  match s with
  | String c r =>
      match trimEnd r with
      | EmptyString => if isSpace c then EmptyString else String c EmptyString
      | r' => String c r'
      end
  | EmptyString => EmptyString
  end.

Definition trim (s : string) : string := trimEnd (trimStart s).

(** [s.startsWith(p)]. *)
Fixpoint startsWith (s p : string) {struct p} : bool :=
  match p, s with
  | EmptyString, _ => true
  | String c p', String d s' => Ascii.eqb c d && startsWith s' p'
  | String _ _, EmptyString => false
  end.

(** [s.substring(1)] and [s.substring(0, n)]. *)
Definition substringFrom1 (s : string) : string :=
  match s with String _ r => r | EmptyString => EmptyString end.

Fixpoint substringTo (n : nat) (s : string) : string :=
  match n, s with
  | S k, String c r => String c (substringTo k r)
  | _, _ => EmptyString
  end.

Definition LF : string := String (ascii_of_nat 10) EmptyString.

(** [lines.join("\n")]. *)
Definition joinLines (ls : list string) : string := String.concat LF ls.

(** [s.replace(/\s+/g, " ")]: every maximal run of white space becomes
    one space.  [inRun] tells that the previous character was white space
    (the run's space has been written already). *)
Fixpoint collapseFrom (inRun : bool) (s : string) : string :=
  match s with
  | EmptyString => EmptyString
  | String c r =>
      if isSpace c
      then (if inRun then collapseFrom true r
            else String " "%char (collapseFrom true r))
      else String c (collapseFrom false r)
  end.

Definition collapseSpaces (s : string) : string := collapseFrom false s.

(** [s.split("\n")]: never empty; a line holds no LF. *)
Fixpoint splitLines (s : string) : list string :=
  match s with
  | EmptyString => [EmptyString]
  | String c r =>
      if (c =? ascii_of_nat 10)%char then EmptyString :: splitLines r
      else match splitLines r with
           | l :: ls => String c l :: ls
           | [] => [String c EmptyString]
           end
  end.

Definition len (s : string) : Z := Z.of_nat (String.length s).

Close Scope string_scope.

End JSString.
Import JSString.

Module JSArray.

Definition alen {A} (l : list A) : Z := Z.of_nat (List.length l).

(** A relative index of [Array.prototype.slice]: negative counts from the
    end, and the result is confined to [0, length]. *)
Definition relIndex (n i : Z) : Z :=
  if i <? 0 then Z.max (n + i) 0 else Z.min i n.

(** [l.slice(s, e)]. *)
Definition slice {A} (l : list A) (s e : Z) : list A :=
  let n := alen l in
  let k := relIndex n s in
  let final := relIndex n e in
  firstn (Z.to_nat (Z.max (final - k) 0)) (skipn (Z.to_nat k) l).

(** [l.slice(s)]. *)
Definition sliceFrom {A} (l : list A) (s : Z) : list A :=
  slice l s (alen l).

(** [l.push(x)] and [l.shift()] on the array held by a variable. *)
Definition push {A} (l : list A) (x : A) : list A := l ++ [x].
Definition shift {A} (l : list A) : list A := tl l.

End JSArray.
Import JSArray.

(* ====================================================================== *)
(** * Regular expressions                                                  *)
(* ====================================================================== *)

(** The patterns of the source use no back-reference, so [pattern.test(s)]
    asks whether [s] belongs to a regular language, and a matcher by
    derivatives answers it.  Every pattern is anchored at the start; a
    pattern is written here as the language of the WHOLE strings it
    accepts: [/^r/] is [r] followed by anything, [/^r$/] is [r]. *)
Module Regex.

Inductive regex : Type :=
| Void : regex
| Eps : regex
| Sym : (ascii -> bool) -> regex
| Cat : regex -> regex -> regex
| Alt : regex -> regex -> regex
| Star : regex -> regex.

Fixpoint nullable (r : regex) : bool :=
  match r with
  | Void => false
  | Eps => true
  | Sym _ => false
  | Cat a b => nullable a && nullable b
  | Alt a b => nullable a || nullable b
  | Star _ => true
  end.

Definition cat (a b : regex) : regex :=
  match a, b with
  | Void, _ => Void
  | _, Void => Void
  | Eps, _ => b
  | _, _ => Cat a b
  end.

Definition alt (a b : regex) : regex :=
  match a, b with
  | Void, _ => b
  | _, Void => a
  | _, _ => Alt a b
  end.

Fixpoint deriv (c : ascii) (r : regex) : regex :=
  match r with
  | Void => Void
  | Eps => Void
  | Sym p => if p c then Eps else Void
  | Cat a b =>
      if nullable a then alt (cat (deriv c a) b) (deriv c b)
      else cat (deriv c a) b
  | Alt a b => alt (deriv c a) (deriv c b)
  | Star a => cat (deriv c a) (Star a)
  end.

Fixpoint matches (r : regex) (s : string) : bool :=
  match s with
  | EmptyString => nullable r
  | String c t => matches (deriv c r) t
  end.

(** The language of a pattern, which [matches] decides ([matches_Lang]). *)
Inductive Lang : regex -> string -> Prop :=
| lang_eps : Lang Eps EmptyString
| lang_sym : forall (p : ascii -> bool) c,
    p c = true -> Lang (Sym p) (String c EmptyString)
| lang_cat : forall a b s t,
    Lang a s -> Lang b t -> Lang (Cat a b) (s ++ t)
| lang_alt_l : forall a b s, Lang a s -> Lang (Alt a b) s
| lang_alt_r : forall a b s, Lang b s -> Lang (Alt a b) s
| lang_star_nil : forall a, Lang (Star a) EmptyString
| lang_star_app : forall a s t,
    Lang a s -> Lang (Star a) t -> Lang (Star a) (s ++ t).

(** Building blocks. *)
Definition chr (c : ascii) : regex := Sym (Ascii.eqb c).
Definition notChr (c : ascii) : regex := Sym (fun x => negb (Ascii.eqb c x)).
Definition oneOf (cs : string) : regex :=
  Sym (fun x => existsb (Ascii.eqb x) (list_ascii_of_string cs)).

Fixpoint lit (s : string) : regex :=
  match s with
  | EmptyString => Eps
  | String c EmptyString => chr c
  | String c t => Cat (chr c) (lit t)
  end.

Definition plus (r : regex) : regex := Cat r (Star r).
Definition opt (r : regex) : regex := Alt Eps r.
Definition anything : regex := Star (Sym (fun _ => true)).

Fixpoint cats (rs : list regex) : regex :=
  match rs with
  | [] => Eps
  | [r] => r
  | r :: t => Cat r (cats t)
  end.

Fixpoint anyOf (rs : list regex) : regex :=
  match rs with
  | [] => Void
  | [r] => r
  | r :: t => Alt r (anyOf t)
  end.

Definition words (ws : list string) : regex := anyOf (map lit ws).

(** [\s], [\S], [\w], [[A-Z]]. *)
Definition s_ : regex := Sym isSpace.
Definition S_ : regex := Sym (fun c => negb (isSpace c)).
Definition w_ : regex := Sym isWord.
Definition AZ : regex := Sym isUpper.

(** [/^r/] as a language of whole strings. *)
Definition starting (rs : list regex) : regex := Cat (cats rs) anything.

End Regex.
Import Regex.

(* ====================================================================== *)
(** * Types and constants                                                  *)
(* ====================================================================== *)

Record CodeSnippet : Type := mkCodeSnippet {
  cs_filename : string;
  cs_code : list string;
  cs_author : string;
  cs_email : string;
  cs_commitHash : string;
  cs_isMyCode : bool;
  cs_hash : string
}.

Record CommentSnippet : Type := mkCommentSnippet {
  cm_filename : string;
  cm_comment : list string;
  cm_context : list string;
  cm_author : string;
  cm_email : string;
  cm_isMyCode : bool;
  cm_hash : string
}.

Record DailyCodeStats : Type := mkDailyCodeStats {
  date : string;
  linesAdded : Z;
  commits : Z;
  avgLinesPerCommit : Z
}.

Inductive AnswerType : Type := remember | familiar | uncertain | foreign.

Record Answer : Type := mkAnswer { type : AnswerType; isMyCode : bool }.

Inductive GamePhase : Type :=
| phase_loading | phase_select_author | phase_scanning | phase_ready
| phase_memory | phase_comment | phase_result.

Definition SAMPLE_COMMITS : Z := 300.
Definition MEMORY_QUESTIONS : Z := 10.
Definition COMMENT_QUESTIONS : Z := 10.
Definition MIN_SNIPPET_LINES : Z := 4.
Definition MAX_SNIPPET_LINES : Z := 12.

(** The double quote, kept out of string literals. *)
Definition dquote : ascii := ascii_of_nat 34.

Definition FIXED_PATTERNS : list regex :=
  [ (* JavaScript/TypeScript *)
    starting [lit "import"; plus s_];
    starting [lit "export"; plus s_; opt (Cat (lit "default") (plus s_));
              words ["{"; "class"; "function"; "const"; "let"; "var";
                     "interface"; "type"; "enum"]%string];
    starting [lit "const"; plus s_; plus w_; Star s_; chr "="; Star s_;
              lit "use"; AZ; Star w_; chr "("];
    starting [lit "const"; Star s_; chr "["; Star s_; plus w_; Star s_;
              chr ","; Star s_; lit "set"; AZ];
    starting [lit "const"; plus s_; chr "{"; Star s_; plus w_; Star s_;
              chr "}"; Star s_; chr "="; Star s_; lit "use"; plus w_];
    starting [lit "module.exports"];
    starting [lit "require("];
    (* Python *)
    starting [lit "from"; plus s_; plus S_; plus s_; lit "import"];
    starting [lit "import"; plus s_; plus S_];
    starting [lit "def"; plus s_; lit "__"; plus w_; lit "__"];
    starting [lit "class"; plus s_; plus w_; Star s_; oneOf "(:"];
    (* Go *)
    starting [lit "package"; plus s_];
    starting [lit "import"; Star s_; chr "("];
    starting [lit "func"; plus s_; chr "("; plus w_; plus s_; opt (chr "*");
              plus w_; chr ")"; plus s_; plus w_];
    (* Rust *)
    starting [lit "use"; plus s_];
    starting [lit "mod"; plus s_];
    starting [lit "pub"; plus s_;
              words ["fn"; "struct"; "enum"; "trait"; "impl"; "mod"; "use";
                     "const"; "static"]%string];
    (* Java/Kotlin *)
    starting [lit "package"; plus s_];
    starting [lit "import"; plus s_];
    starting [lit "public"; plus s_; words ["class"; "interface"; "enum"]%string];
    starting [lit "private"; plus s_; words ["class"; "interface"; "enum"]%string];
    (* Ruby *)
    starting [lit "require"; plus s_];
    starting [lit "require_relative"; plus s_];
    starting [lit "module"; plus s_];
    (* C/C++ *)
    starting [lit "#include"; plus s_];
    starting [lit "#define"; plus s_];
    starting [lit "#pragma"; plus s_];
    starting [lit "using"; plus s_; lit "namespace"];
    (* any language: brackets only, blank line *)
    plus (oneOf "{}[]();,");
    Star s_ ].

Definition COMMENT_PATTERNS : list regex :=
  [ starting [lit "//"];
    starting [lit "/*"];
    starting [chr "*"];
    (* [/^#(?!\!)/]: a [#] that no [!] follows *)
    Cat (chr "#") (Alt Eps (Cat (notChr "!") anything));
    starting [lit "--"];
    starting [chr dquote; chr dquote; chr dquote];
    starting [lit "'''"];
    starting [chr ";"];
    starting [lit "{-"] ].

(* ====================================================================== *)
(** * Utility functions                                                    *)
(* ====================================================================== *)

Definition hashContent (content : list string) : string :=
  substringTo 200 (collapseSpaces (trim (joinLines content))).

(** The loop of [isSimilarSnippet]: the positions below the shorter length
    at which the two strings hold the same character. *)
Fixpoint samePositions (a b : string) : Z :=
  match a, b with
  | String x a', String y b' =>
      (if Ascii.eqb x y then 1 else 0) + samePositions a' b'
  | _, _ => 0
  end.

Definition isSimilarSnippet (a b : list string) : bool :=
  let hashA := hashContent a in
  let hashB := hashContent b in
  if String.eqb hashA hashB then true
  else
    let minLen := Z.min (len hashA) (len hashB) in
    let same := samePositions hashA hashB in
    PrimFloat.ltb lit_0_8 (PrimFloat.div (ofZ same) (ofZ minLen)).

(* ====================================================================== *)
(** * Code extraction                                                      *)
(* ====================================================================== *)

Definition isFixedPattern (line : string) : bool :=
  let trimmed := trim line in
  existsb (fun pattern => matches pattern trimmed) FIXED_PATTERNS.

Definition isCommentLine (line : string) : bool :=
  let trimmed := trim line in
  existsb (fun pattern => matches pattern trimmed) COMMENT_PATTERNS.

Definition isNoiseLine (line : string) : bool :=
  let trimmed := trim line in
  if String.eqb trimmed EmptyString then true
  else if len trimmed <? 8 then true
  else if matches (plus (Sym (fun c => existsb (Ascii.eqb c)
                                  (list_ascii_of_string "{}[]();,")
                                || isSpace c))) trimmed then true
  else if matches (anyOf [lit "else"; lit "end"; lit "endif"; lit "fi";
                          lit "done"; lit "esac"; lit "}";
                          Cat (chr ")") (opt (chr ";"))]) trimmed then true
  else false.

(** The variables of the per-file loop of [extractSnippetsFromDiff]. *)
Record CommentBlock : Type := mkCommentBlock {
  cb_comment : list string;
  cb_context : list string
}.

Record ScanState : Type := mkScanState {
  codeBlocks : list (list string);
  commentBlocksWithContext : list CommentBlock;
  currentCodeBlock : list string;
  currentCommentBlock : list string;
  contextBuffer : list string;
  inHunk : bool
}.

Definition initialScan : ScanState :=
  mkScanState [] [] [] [] [] false.

(** [if (currentCodeBlock.length >= MIN_SNIPPET_LINES)
       codeBlocks.push([...currentCodeBlock])]. *)
Definition pushIfLongEnough (blocks : list (list string)) (cur : list string)
  : list (list string) :=
  if MIN_SNIPPET_LINES <=? alen cur then push blocks cur else blocks.

(** One iteration of [for (const line of lines)]. *)
Definition scanLine (st : ScanState) (line : string) : ScanState :=
  let '(mkScanState blocks cblocks cur ccur ctx hunk) := st in
  if startsWith line "@@" then
    (* a hunk starts: keep the block when long enough, empty the buffer *)
    mkScanState (pushIfLongEnough blocks cur) cblocks [] ccur ctx true
  else if negb hunk then st
  else if startsWith line "+" && negb (startsWith line "+++") then
    let codeLine := substringFrom1 line in
    let trimmed := trim codeLine in
    if isFixedPattern codeLine then st
    else if isCommentLine codeLine && (15 <? len trimmed) then
      mkScanState blocks cblocks cur (push ccur codeLine) ctx hunk
    else
      (* close the comment block *)
      let cblocks' :=
        if 0 <? alen ccur
        then push cblocks (mkCommentBlock ccur (sliceFrom ctx (-2)))
        else cblocks in
      let ccur' := if 0 <? alen ccur then [] else ccur in
      if negb (isNoiseLine codeLine) then
        let ctx' := push ctx codeLine in
        mkScanState blocks cblocks' (push cur codeLine) ccur'
                    (if 5 <? alen ctx' then shift ctx' else ctx') hunk
      else if MIN_SNIPPET_LINES <=? alen cur then
        (* a noise line: keep the block *)
        mkScanState (push blocks cur) cblocks' [] ccur' ctx hunk
      else
        mkScanState blocks cblocks' cur ccur' ctx hunk
  else if startsWith line "-" || startsWith line " " then
    (* a context line or a deletion *)
    if MIN_SNIPPET_LINES <=? alen cur then
      mkScanState (push blocks cur) cblocks [] ccur ctx hunk
    else st
  else st.

Definition scanLines (st : ScanState) (lines : list string) : ScanState :=
  fold_left scanLine lines st.

(** After the loop: the last blocks. *)
Definition finishScan (st : ScanState) : ScanState :=
  let '(mkScanState blocks cblocks cur ccur ctx hunk) := st in
  mkScanState (pushIfLongEnough blocks cur)
              (if 0 <? alen ccur
               then push cblocks (mkCommentBlock ccur (sliceFrom ctx (-2)))
               else cblocks)
              cur ccur ctx hunk.

(** The code blocks and the comment blocks of one file section. *)
Definition scanFile (lines : list string) : ScanState :=
  finishScan (scanLines initialScan lines).

(** [Math.min(maxLen, Math.max(MIN_SNIPPET_LINES,
                               Math.floor(block.length * 0.7)))]. *)
Definition snippetLen (blockLength : Z) : Z :=
  let maxLen := Z.min MAX_SNIPPET_LINES blockLength in
  Z.min maxLen
        (Z.max MIN_SNIPPET_LINES
               (Math_floor (PrimFloat.mul (ofZ blockLength) lit_0_7))).

Section Extraction.

(** [randomBelow k n] is [Math.floor(Math.random() * n)] at the [k]-th
    call of [Math.random] of one extraction. *)
Variable randomBelow : nat -> Z -> Z.

Variables (author email commitHash : string) (isMine : bool).

(** The window cut from one code block with the draw [k]. *)
Definition windowBlock (k : nat) (block : list string) : list string :=
  let len := snippetLen (alen block) in
  let startIdx := randomBelow k (Z.max 1 (alen block - len + 1)) in
  slice block startIdx (startIdx + len).

(** [for (const block of codeBlocks)]. *)
Fixpoint snippetsFromBlocks (filename : string) (k : nat)
         (blocks : list (list string)) : list CodeSnippet :=
  match blocks with
  | [] => []
  | block :: rest =>
      if MIN_SNIPPET_LINES <=? alen block then
        let snippet := windowBlock k block in
        (if MIN_SNIPPET_LINES <=? alen snippet
         then [mkCodeSnippet filename snippet author email
                             (substringTo 7 commitHash) isMine
                             (hashContent snippet)]
         else [])
        ++ snippetsFromBlocks filename (S k) rest
      else snippetsFromBlocks filename k rest
  end.

(** [for (const block of commentBlocksWithContext)]. *)
Definition snippetsFromCommentBlocks (filename : string)
           (blocks : list CommentBlock) : list CommentSnippet :=
  flat_map
    (fun block =>
       if (1 <=? alen (cb_comment block))
          && existsb (fun c => 20 <? len (trim c)) (cb_comment block)
       then [mkCommentSnippet filename (cb_comment block) (cb_context block)
                              author email isMine
                              (hashContent (cb_comment block))]
       else [])
    blocks.

(** The body of [for (const fileDiff of files)] for a retained file:
    [lines] is [fileDiff.split("\n")] and [k] the number of draws made for
    the files before it. *)
Definition extractSnippetsFromFile (filename : string) (k : nat)
           (lines : list string) : list CodeSnippet * list CommentSnippet :=
  let st := scanFile lines in
  (snippetsFromBlocks filename k (codeBlocks st),
   snippetsFromCommentBlocks filename (commentBlocksWithContext st)).

(** The draws one file consumes: one per block that passes the length
    test. *)
Definition drawsOfFile (lines : list string) : nat :=
  List.length (filter (fun block => MIN_SNIPPET_LINES <=? alen block)
                      (codeBlocks (scanFile lines))).

(** [extractSnippetsFromDiff] over the retained file sections of a diff:
    the sections whose header matches and whose path [isCodeFile]
    accepts, each given as its file name and its lines. *)
Fixpoint extractSnippetsFromDiff (k : nat)
         (files : list (string * list string))
  : list CodeSnippet * list CommentSnippet :=
  match files with
  | [] => ([], [])
  | (filename, lines) :: rest =>
      let '(cs, cms) := extractSnippetsFromFile filename k lines in
      let '(cs', cms') :=
        extractSnippetsFromDiff (k + drawsOfFile lines)%nat rest in
      (cs ++ cs', cms ++ cms')
  end.

End Extraction.

(* ====================================================================== *)
(** * Deduplication                                                        *)
(* ====================================================================== *)

(** The bound of the type parameter of [deduplicateSnippets]:
    [T extends { hash: string; code?: string[]; comment?: string[] }]. *)
Class Hashed (T : Type) : Type := {
  hash : T -> string;
  code : T -> option (list string);
  comment : T -> option (list string)
}.

#[export] Instance CodeSnippet_Hashed : Hashed CodeSnippet :=
  {| hash := cs_hash;
     code := fun s => Some (cs_code s);
     comment := fun _ => None |}.

#[export] Instance CommentSnippet_Hashed : Hashed CommentSnippet :=
  {| hash := cm_hash;
     code := fun _ => None;
     comment := fun s => Some (cm_comment s) |}.

Section Dedup.

Context {T : Type} `{Hashed T}.

(** [snippet.code || snippet.comment || []]: an array is truthy. *)
Definition contentOf (snippet : T) : list string :=
  match code snippet with
  | Some c => c
  | None => match comment snippet with Some c => c | None => [] end
  end.

(** [seen.has(h)] on a [Set<string>]. *)
Definition has (seen : list string) (h : string) : bool :=
  existsb (String.eqb h) seen.

(** One iteration of [for (const snippet of snippets)] on the pair
    [(seen, result)]. *)
Definition dedupStep (acc : list string * list T) (snippet : T)
  : list string * list T :=
  let '(seen, result) := acc in
  if negb (has seen (hash snippet)) then
    let content := contentOf snippet in
    let isDuplicate :=
      existsb (fun existing => isSimilarSnippet content (contentOf existing))
              result in
    if negb isDuplicate
    then (hash snippet :: seen, push result snippet)
    else acc
  else acc.

Definition deduplicateSnippets (snippets : list T) : list T :=
  snd (fold_left dedupStep snippets ([], [])).

End Dedup.

(* ====================================================================== *)
(** * Velocity analysis                                                    *)
(* ====================================================================== *)

(** What [getCommitInfo] and [getCommitDiff] give for one commit: the key
    [`${info.author}|${info.email}`], the day
    [info.timestamp.toISOString().split("T")[0]] and the diff text. *)
Record CommitData : Type := mkCommitData {
  cd_authorKey : string;
  cd_date : string;
  cd_diff : string
}.

Definition isAddedLine (line : string) : bool :=
  startsWith line "+" && negb (startsWith line "+++").

(** The inner loop of [analyzeDailyVelocity]: the added lines of a diff. *)
Definition countAddedLines (diff : string) : Z :=
  alen (filter isAddedLine (splitLines diff)).

(** [dailyStats], a [Map] from a day to [{ lines, commits }], kept as an
    association list in insertion order (the order a [Map] iterates in). *)
Definition DailyStatsMap : Type := list (string * (Z * Z)).

Fixpoint mapHas (m : DailyStatsMap) (k : string) : bool :=
  match m with
  | [] => false
  | (k', _) :: r => String.eqb k k' || mapHas r k
  end.

(** [stat.lines += n; stat.commits++] on the entry of [k]. *)
Fixpoint mapBump (m : DailyStatsMap) (k : string) (n : Z) : DailyStatsMap :=
  match m with
  | [] => []
  | (k', (l, c)) :: r =>
      if String.eqb k k' then (k', (l + n, c + 1)) :: r
      else (k', (l, c)) :: mapBump r k n
  end.

(** [results.sort((a, b) => b.linesAdded - a.linesAdded)]: the sort is
    stable, so the result is the one of a stable insertion sort. *)
Fixpoint insertByLines (d : DailyCodeStats) (l : list DailyCodeStats)
  : list DailyCodeStats :=
  match l with
  | [] => [d]
  | e :: r =>
      if linesAdded d <? linesAdded e then e :: insertByLines d r
      else d :: l
  end.

Definition sortByLinesDesc (l : list DailyCodeStats) : list DailyCodeStats :=
  fold_right insertByLines [] l.

Section Velocity.

(** The two calls to git for one hash; [None] when the [try] block
    throws. *)
Variable fetchCommit : string -> option CommitData.

(** [selectedAuthors.has(key)]. *)
Variable isSelected : string -> bool.

(** One iteration of [for (const hash of sampled)]. *)
Definition velocityStep (dailyStats : DailyStatsMap) (h : string)
  : DailyStatsMap :=
  match fetchCommit h with
  | None => dailyStats
  | Some info =>
      if negb (isSelected (cd_authorKey info)) then dailyStats
      else
        let dateStr := cd_date info in
        let n := countAddedLines (cd_diff info) in
        let m := if negb (mapHas dailyStats dateStr)
                 then push dailyStats (dateStr, (0, 0))
                 else dailyStats in
        mapBump m dateStr n
  end.

Definition dailyResults (dailyStats : DailyStatsMap) : list DailyCodeStats :=
  map (fun '(d, (l, c)) =>
         mkDailyCodeStats d l c
           (Math_round (PrimFloat.div (ofZ l) (ofZ c))))
      dailyStats.

Definition analyzeDailyVelocity (commitHashes : list string)
  : list DailyCodeStats :=
  let sampled := slice commitHashes 0 SAMPLE_COMMITS in
  let dailyStats := fold_left velocityStep sampled [] in
  slice (sortByLinesDesc
           (filter (fun d => 500 <? linesAdded d) (dailyResults dailyStats)))
        0 10.

End Velocity.

(* ====================================================================== *)
(** * Scoring                                                              *)
(* ====================================================================== *)

Record VibeMetrics : Type := mkVibeMetrics {
  myCodeTotal : Z;
  otherCodeTotal : Z;
  myCodeRecognized : Z;
  myCodeFamiliar : Z;
  myCodeUncertain : Z;
  myCodeMisidentified : Z;
  otherCodeCorrect : Z;
  otherCodeFalseMemory : Z;
  vibeScore : Z
}.

(** The first [switch]: the four counters of the answers on one's own
    code. *)
Definition tallyMine (acc : Z * Z * Z * Z) (a : Answer) : Z * Z * Z * Z :=
  let '(recognized, fam, unc, mis) := acc in
  match type a with
  | remember => (recognized + 1, fam, unc, mis)
  | familiar => (recognized, fam + 1, unc, mis)
  | uncertain => (recognized, fam, unc + 1, mis)
  | foreign => (recognized, fam, unc, mis + 1)
  end.

(** The second [switch]: [(otherCodeCorrect, otherCodeFalseMemory)]. *)
Definition tallyOther (acc : Z * Z) (a : Answer) : Z * Z :=
  let '(correct, falseMemory) := acc in
  match type a with
  | remember | familiar => (correct, falseMemory + 1)
  | uncertain | foreign => (correct + 1, falseMemory)
  end.

(** [n || 1]. *)
Definition orOne (n : Z) : Z := if n =? 0 then 1 else n.

(** [forgetRate * 50 + fuzzyRate * 30 + falseMemoryRate * 20] from the
    tallies. *)
Definition vibeSum (unc mis fam myTotal falseMemory otherTotal : Z) : float :=
  let forgetRate := PrimFloat.div (ofZ (unc + mis)) (ofZ myTotal) in
  let fuzzyRate := PrimFloat.div (ofZ fam) (ofZ myTotal) in
  let falseMemoryRate := PrimFloat.div (ofZ falseMemory) (ofZ otherTotal) in
  PrimFloat.add
    (PrimFloat.add (PrimFloat.mul forgetRate (ofZ 50))
                   (PrimFloat.mul fuzzyRate (ofZ 30)))
    (PrimFloat.mul falseMemoryRate (ofZ 20)).

Definition calculateVibeMetrics (answers : list Answer) : VibeMetrics :=
  let myCodeAnswers := filter (fun a => isMyCode a) answers in
  let otherCodeAnswers := filter (fun a => negb (isMyCode a)) answers in
  let '(recognized, fam, unc, mis) :=
    fold_left tallyMine myCodeAnswers (0, 0, 0, 0) in
  let '(correct, falseMemory) :=
    fold_left tallyOther otherCodeAnswers (0, 0) in
  let myTotal := orOne (alen myCodeAnswers) in
  let otherTotal := orOne (alen otherCodeAnswers) in
  let score :=
    Math_round (vibeSum unc mis fam myTotal falseMemory otherTotal) in
  mkVibeMetrics (alen myCodeAnswers) (alen otherCodeAnswers)
                recognized fam unc mis correct falseMemory
                (Z.min 100 score).

Record QuizTrack : Type := mkQuizTrack {
  total : Z;
  track_myCodeTotal : Z;
  answers : list Answer
}.

Record QuizResult : Type := mkQuizResult {
  qr_memory : QuizTrack;
  qr_comment : QuizTrack;
  velocity : list DailyCodeStats
}.

(** [Math.min(result.velocity.length * 3, 15)]. *)
Definition velocityBonus (velocityLength : Z) : Z :=
  Z.min (velocityLength * 3) 15.

(** [memoryVibeScore * 0.5 + commentVibeScore * 0.35 + velocityBonus]. *)
Definition weightedSum (memoryVibeScore commentVibeScore bonus : Z) : float :=
  PrimFloat.add
    (PrimFloat.add (PrimFloat.mul (ofZ memoryVibeScore) lit_0_5)
                   (PrimFloat.mul (ofZ commentVibeScore) lit_0_35))
    (ofZ bonus).

Definition compositeScore (memoryVibeScore commentVibeScore velocityLength : Z)
  : Z :=
  Z.min 100
        (Math_round (weightedSum memoryVibeScore commentVibeScore
                                 (velocityBonus velocityLength))).

(** [totalScore] of [ResultScreen]. *)
Definition totalScore (r : QuizResult) : Z :=
  let memoryMetrics := calculateVibeMetrics (answers (qr_memory r)) in
  let commentMetrics := calculateVibeMetrics (answers (qr_comment r)) in
  compositeScore (vibeScore memoryMetrics) (vibeScore commentMetrics)
                 (alen (velocity r)).

(** The eight titles of [getVibeRating], in the order of the source. *)
Inductive VibeRating : Type :=
| CodeArtisan          (* score <= 10 *)
| TraditionalProgrammer (* score <= 25 *)
| HybridDeveloper      (* score <= 40 *)
| VibeCoder            (* score <= 55 *)
| AICollaborationMaster (* score <= 70 *)
| PromptEngineer       (* score <= 85 *)
| HumanoidCopilot      (* score < 100 *)
| AIPuppet.            (* otherwise *)

Definition getVibeRating (score : Z) : VibeRating :=
  if score <=? 10 then CodeArtisan
  else if score <=? 25 then TraditionalProgrammer
  else if score <=? 40 then HybridDeveloper
  else if score <=? 55 then VibeCoder
  else if score <=? 70 then AICollaborationMaster
  else if score <=? 85 then PromptEngineer
  else if score <? 100 then HumanoidCopilot
  else AIPuppet.

(* ====================================================================== *)
(** * The application state and the sampling tail of [scanCode]            *)
(* ====================================================================== *)

(** The messages [setError] is called with. *)
Inductive ErrorMessage : Type :=
| NotAGitRepo | NoCommits | InitFailed | TooFewCodeSnippets | ScanFailed.

(** The [useState] cells of [App]. *)
Record AppState : Type := mkAppState {
  app_phase : GamePhase;
  app_error : option ErrorMessage;
  allCodeSnippets : list CodeSnippet;
  allCommentSnippets : list CommentSnippet;
  velocityData : list DailyCodeStats;
  memoryIndex : Z;
  commentIndex : Z;
  memoryQuestions : list CodeSnippet;
  commentQuestions : list CommentSnippet;
  app_result : QuizResult
}.

Definition emptyTrack : QuizTrack := mkQuizTrack 0 0 [].

Definition initialApp : AppState :=
  mkAppState phase_loading None [] [] [] 0 0 [] []
             (mkQuizResult emptyTrack emptyTrack []).

(** What the screen shows: the error panel replaces every phase. *)
Inductive Screen : Type :=
| ErrorScreen (e : ErrorMessage)
| PhaseScreen (p : GamePhase).

Definition render (st : AppState) : Screen :=
  match app_error st with
  | Some e => ErrorScreen e
  | None => PhaseScreen (app_phase st)
  end.

Definition setPhase (p : GamePhase) (st : AppState) : AppState :=
  mkAppState p (app_error st) (allCodeSnippets st) (allCommentSnippets st)
             (velocityData st) (memoryIndex st) (commentIndex st)
             (memoryQuestions st) (commentQuestions st) (app_result st).

Definition setError (e : ErrorMessage) (st : AppState) : AppState :=
  mkAppState (app_phase st) (Some e) (allCodeSnippets st)
             (allCommentSnippets st) (velocityData st) (memoryIndex st)
             (commentIndex st) (memoryQuestions st) (commentQuestions st)
             (app_result st).

Section Sampling.

(** [shuffle k l] is the [k]-th call of
    [arr => [...arr].sort(() => Math.random() - 0.5)] in [scanCode]. *)
Variable shuffle : forall T : Type, nat -> list T -> list T.

(** [Math.min(Math.ceil(Q * 0.6), mine.length)] and the two counts that
    follow it. *)
Definition myCount (Q mineLength : Z) : Z :=
  Z.min (Math_ceil (PrimFloat.mul (ofZ Q) lit_0_6)) mineLength.

Definition otherCount (Q mineLength otherLength : Z) : Z :=
  Z.min (Q - myCount Q mineLength) otherLength.

Definition finalMyCount (Q mineLength otherLength : Z) : Z :=
  Z.min (Q - otherCount Q mineLength otherLength) mineLength.

(** The self part and the other part of a question set. *)
Definition mySlice {T} (Q : Z) (k : nat) (mine other : list T) : list T :=
  slice (shuffle T k mine) 0 (finalMyCount Q (alen mine) (alen other)).

Definition otherSlice {T} (Q : Z) (k : nat) (mine other : list T) : list T :=
  slice (shuffle T (S k) other) 0 (otherCount Q (alen mine) (alen other)).

(** [shuffle([...shuffle(mine).slice(0, finalMyCount),
              ...shuffle(other).slice(0, otherCount)])]. *)
Definition selectQuestions {T} (Q : Z) (k : nat) (mine other : list T)
  : list T :=
  shuffle T (S (S k)) (mySlice Q k mine other ++ otherSlice Q k mine other).

(** [scanCode] from the deduplication on: [codeSnippets] and
    [commentSnippets] are what the loop over the sampled commits
    collected, [velocityStats] is the result of [analyzeDailyVelocity]. *)
Definition scanCode (st : AppState)
           (codeSnippets : list CodeSnippet)
           (commentSnippets : list CommentSnippet)
           (velocityStats : list DailyCodeStats) : AppState :=
  let codeSnippets := deduplicateSnippets codeSnippets in
  let commentSnippets := deduplicateSnippets commentSnippets in
  let myCode := filter (fun s => cs_isMyCode s) codeSnippets in
  let otherCode := filter (fun s => negb (cs_isMyCode s)) codeSnippets in
  let myComments := filter (fun s => cm_isMyCode s) commentSnippets in
  let otherComments :=
    filter (fun s => negb (cm_isMyCode s)) commentSnippets in
  let memQs := selectQuestions MEMORY_QUESTIONS 0 myCode otherCode in
  let commentQs :=
    selectQuestions COMMENT_QUESTIONS 3 myComments otherComments in
  let st' :=
    mkAppState phase_scanning (app_error st)
               codeSnippets commentSnippets velocityStats
               (memoryIndex st) (commentIndex st) memQs commentQs
               (app_result st) in
  if alen memQs <? 3 then setError TooFewCodeSnippets st'
  else setPhase phase_ready st'.

End Sampling.

(** [l[i]], [undefined] out of range. *)
Definition at_ {A} (l : list A) (i : Z) : option A :=
  if i <? 0 then None else nth_error l (Z.to_nat i).

Definition startGame (st : AppState) : AppState :=
  let myCodeInMemory :=
    alen (filter (fun s => cs_isMyCode s) (memoryQuestions st)) in
  let myCodeInComment :=
    alen (filter (fun s => cm_isMyCode s) (commentQuestions st)) in
  mkAppState phase_memory (app_error st)
             (allCodeSnippets st) (allCommentSnippets st) (velocityData st)
             0 0 (memoryQuestions st) (commentQuestions st)
             (mkQuizResult
                (mkQuizTrack (alen (memoryQuestions st)) myCodeInMemory [])
                (mkQuizTrack (alen (commentQuestions st)) myCodeInComment [])
                (velocityData st)).

Definition addAnswer (t : QuizTrack) (a : Answer) : QuizTrack :=
  mkQuizTrack (total t) (track_myCodeTotal t) (push (answers t) a).

Definition handleMemoryAnswer (st : AppState) (answer : AnswerType)
  : AppState :=
  match at_ (memoryQuestions st) (memoryIndex st) with
  | None => st
  | Some currentSnippet =>
      let r := app_result st in
      let r' :=
        mkQuizResult
          (addAnswer (qr_memory r) (mkAnswer answer (cs_isMyCode currentSnippet)))
          (qr_comment r) (velocity r) in
      let nextIndex := memoryIndex st + 1 in
      if nextIndex <? alen (memoryQuestions st) then
        mkAppState (app_phase st) (app_error st)
                   (allCodeSnippets st) (allCommentSnippets st)
                   (velocityData st) nextIndex (commentIndex st)
                   (memoryQuestions st) (commentQuestions st) r'
      else if 0 <? alen (commentQuestions st) then
        mkAppState phase_comment (app_error st)
                   (allCodeSnippets st) (allCommentSnippets st)
                   (velocityData st) (memoryIndex st) 0
                   (memoryQuestions st) (commentQuestions st) r'
      else
        mkAppState phase_result (app_error st)
                   (allCodeSnippets st) (allCommentSnippets st)
                   (velocityData st) (memoryIndex st) (commentIndex st)
                   (memoryQuestions st) (commentQuestions st) r'
  end.

Definition handleCommentAnswer (st : AppState) (answer : AnswerType)
  : AppState :=
  match at_ (commentQuestions st) (commentIndex st) with
  | None => st
  | Some currentSnippet =>
      let r := app_result st in
      let r' :=
        mkQuizResult
          (qr_memory r)
          (addAnswer (qr_comment r) (mkAnswer answer (cm_isMyCode currentSnippet)))
          (velocity r) in
      let nextIndex := commentIndex st + 1 in
      if nextIndex <? alen (commentQuestions st) then
        mkAppState (app_phase st) (app_error st)
                   (allCodeSnippets st) (allCommentSnippets st)
                   (velocityData st) (memoryIndex st) nextIndex
                   (memoryQuestions st) (commentQuestions st) r'
      else
        mkAppState phase_result (app_error st)
                   (allCodeSnippets st) (allCommentSnippets st)
                   (velocityData st) (memoryIndex st) (commentIndex st)
                   (memoryQuestions st) (commentQuestions st) r'
  end.

(* ====================================================================== *)
(** * Definitions of the specification                                     *)
(* ====================================================================== *)

(** [clamp(x, lo, hi)] as the specification writes it. *)
Definition clamp (x lo hi : Z) : Z := Z.max lo (Z.min x hi).

(** What the runtime guarantees of [Math.floor(Math.random() * n)]. *)
Definition goodDraws (randomBelow : nat -> Z -> Z) : Prop :=
  forall k n, 1 <= n -> 0 <= randomBelow k n < n.

(** The draw that always gives the first window. *)
Definition firstWindow : nat -> Z -> Z := fun _ _ => 0.

(** The window length the specification gives for a block of [L] lines. *)
Definition windowLengthSpec (L : Z) : Z :=
  clamp (Math_floor (PrimFloat.mul (ofZ L) lit_0_7))
        MIN_SNIPPET_LINES (Z.min MAX_SNIPPET_LINES L).

(** A file section whose only hunk adds five substantive lines. *)
Definition fiveLineHunk : list string :=
  [ "@@ -1,0 +1,5 @@";
    "+let total = 0;";
    "+total = total + price;";
    "+count = count + 1;";
    "+average = total / count;";
    "+print(average, total);" ]%string.

(** Two added lines, a boundary line, two more added lines: with a context
    line, a deletion and a noise line as the boundary. *)
Definition hunkSplitBy (boundary : string) : list string :=
  [ "@@ -1,3 +1,7 @@";
    "+let total = 0;";
    "+total = total + price;";
    boundary;
    "+count = count + 1;";
    "+average = total / count;" ]%string.

(** The same, with a new hunk header as the boundary. *)
Definition hunkSplitByHeader : list string :=
  hunkSplitBy "@@ -20,3 +24,5 @@".

(** The scan inside a hunk, with one code line in the buffer. *)
Definition oneLineInHunk : ScanState :=
  scanLines initialScan ["@@ -1,0 +1,5 @@"; "+let total = 0;"]%string.

(** A hunk with a short comment between code lines. *)
Definition shortCommentHunk : list string :=
  [ "@@ -1,0 +1,4 @@";
    "+let total = 0;";
    "+// fix bug";
    "+total = total + price;";
    "+count = count + 1;" ]%string.

(** What the runtime guarantees of a sort with a random comparator: the
    same elements, in some order. *)
Definition wellShuffled (shuffle : forall T : Type, nat -> list T -> list T)
  : Prop :=
  forall (T : Type) (k : nat) (l : list T), Permutation (shuffle T k l) l.

(** The shuffle that leaves every list as it is. *)
Definition noShuffle : forall T : Type, nat -> list T -> list T :=
  fun _ _ l => l.

(** [ceil(Q * 0.6)] in exact arithmetic. *)
Definition ceilSixTenths (Q : Z) : Z := (3 * Q + 4) / 5.

(** The integers [0, ..., n]. *)
Definition zrange (n : nat) : list Z := map Z.of_nat (List.seq 0 (S n)).

(** A code snippet of the selected author, with its fingerprint. *)
Definition mySnippet (content : list string) : CodeSnippet :=
  mkCodeSnippet "a.ts" content "me" "me@x.org" "0123456" true
                (hashContent content).

Definition otherSnippet (content : list string) : CodeSnippet :=
  mkCodeSnippet "b.ts" content "you" "you@x.org" "6543210" false
                (hashContent content).

Definition threeOfMine : list CodeSnippet :=
  [ mySnippet [ "let total = 0;"; "total = total + price;";
                "count = count + 1;"; "average = total / count;" ];
    mySnippet [ "for item in basket:"; "weight += item.mass";
                "volume += item.size"; "ship(weight, volume)" ];
    mySnippet [ "while queue.pending():"; "job = queue.take()";
                "outcome = job.run()"; "store.save(outcome)" ] ]%string.

(** [scanCode] is called from the author selection, with no error shown. *)
Definition beforeScan : AppState := setPhase phase_select_author initialApp.

(** ** The track score, as the specification words it *)

Definition AnswerType_eqb (a b : AnswerType) : bool :=
  match a, b with
  | remember, remember | familiar, familiar
  | uncertain, uncertain | foreign, foreign => true
  | _, _ => false
  end.

Definition selfAnswers (log : list Answer) : list Answer :=
  filter (fun a => isMyCode a) log.

Definition otherAnswers (log : list Answer) : list Answer :=
  filter (fun a => negb (isMyCode a)) log.

(** The answers of one confidence level. *)
Definition countOf (t : AnswerType) (l : list Answer) : Z :=
  alen (filter (fun a => AnswerType_eqb (type a) t) l).

(** [falseMemory]: someone else's work answered remember or familiar. *)
Definition falseMemoryCount (log : list Answer) : Z :=
  countOf remember (otherAnswers log) + countOf familiar (otherAnswers log).

(** [correctlyRejected]: someone else's work answered uncertain or
    foreign. *)
Definition correctlyRejectedCount (log : list Answer) : Z :=
  countOf uncertain (otherAnswers log) + countOf foreign (otherAnswers log).

Definition trackScoreSpec (log : list Answer) : Z :=
  let myTotal := Z.max 1 (alen (selfAnswers log)) in
  let otherTotal := Z.max 1 (alen (otherAnswers log)) in
  let forgetRate :=
    (ofZ (countOf uncertain (selfAnswers log)
          + countOf foreign (selfAnswers log)) / ofZ myTotal)%float in
  let fuzzyRate :=
    (ofZ (countOf familiar (selfAnswers log)) / ofZ myTotal)%float in
  let falseMemoryRate :=
    (ofZ (falseMemoryCount log) / ofZ otherTotal)%float in
  Z.min 100
        (Math_round (forgetRate * ofZ 50 + fuzzyRate * ofZ 30
                     + falseMemoryRate * ofZ 20)%float).

(** The same score with the rates as exact fractions:
    [round((50 * forgot + 30 * fam) / myTotal + 20 * falseMemory / otherTotal)],
    a tie going up. *)
Definition exactVibe (forgot fam myTotal falseMemory otherTotal : Z) : Z :=
  let num :=
    (50 * forgot + 30 * fam) * otherTotal + 20 * falseMemory * myTotal in
  let den := myTotal * otherTotal in
  (2 * num + den) / (2 * den).

Definition trackScoreExact (log : list Answer) : Z :=
  Z.min 100
        (exactVibe (countOf uncertain (selfAnswers log)
                    + countOf foreign (selfAnswers log))
                   (countOf familiar (selfAnswers log))
                   (Z.max 1 (alen (selfAnswers log)))
                   (falseMemoryCount log)
                   (Z.max 1 (alen (otherAnswers log)))).

(** The naturals [0, ..., n]. *)
Definition upTo (n : nat) : list nat := List.seq 0 (S n).

(** Every tally of at most [N] answers on one's own code and at most [N]
    on the code of others: [a] forgotten and [b] familiar among [m], [c]
    false memories among [o]. *)
Definition forTallies (N : nat) (p : nat -> nat -> nat -> nat -> nat -> bool)
  : bool :=
  forallb (fun m =>
    forallb (fun a =>
      forallb (fun b =>
        forallb (fun o =>
          forallb (fun c => p a b m c o) (upTo o))
          (upTo N))
        (upTo (m - a)))
      (upTo m))
    (upTo N).

Definition tallySum (a b m c o : nat) : float :=
  vibeSum (Z.of_nat a) 0 (Z.of_nat b) (orOne (Z.of_nat m))
          (Z.of_nat c) (orOne (Z.of_nat o)).

(** The two parts of [tallySum]: the part of one's own code and the part
    of the code of others. *)
Definition ownPart (a b m : nat) : float :=
  PrimFloat.add
    (PrimFloat.mul (PrimFloat.div (ofZ (Z.of_nat a + 0))
                                  (ofZ (orOne (Z.of_nat m)))) (ofZ 50))
    (PrimFloat.mul (PrimFloat.div (ofZ (Z.of_nat b))
                                  (ofZ (orOne (Z.of_nat m)))) (ofZ 30)).

Definition otherPart (c o : nat) : float :=
  PrimFloat.mul (PrimFloat.div (ofZ (Z.of_nat c))
                               (ofZ (orOne (Z.of_nat o)))) (ofZ 20).

Definition otherParts (N : nat) : list float :=
  flat_map (fun o => map (fun c => otherPart c o) (upTo o)) (upTo N).

(** [q] on the sum of every tally of at most [N] and [N] answers; the parts
    of the code of others are computed once. *)
Definition forTallySums (N : nat) (q : float -> bool) : bool :=
  let others := otherParts N in
  forallb (fun m =>
    forallb (fun a =>
      forallb (fun b =>
        let own := ownPart a b m in
        forallb (fun other => q (PrimFloat.add own other)) others)
        (upTo (m - a)))
      (upTo m))
    (upTo N).

(** Not below 0 and below 70.5. *)
Definition inScoreRange (x : float) : bool :=
  PrimFloat.leb (ofZ 0) x && PrimFloat.ltb x 70.5%float.

Definition roundsExactly (a b m c o : nat) : bool :=
  Math_round (tallySum a b m c o)
  =? exactVibe (Z.of_nat a) (Z.of_nat b) (orOne (Z.of_nat m))
               (Z.of_nat c) (orOne (Z.of_nat o)).

Definition withinCapacity (N : nat) (p : nat -> nat -> nat -> nat -> nat -> bool)
  (a b m c o : nat) : bool :=
  if (m + o <=? N)%nat then p a b m c o else true.

(** The log of the specification's example, in quiz order. *)
Definition exampleLog : list Answer :=
  [ mkAnswer remember true; mkAnswer remember false; mkAnswer familiar true;
    mkAnswer uncertain false; mkAnswer remember true; mkAnswer foreign false;
    mkAnswer uncertain true; mkAnswer familiar false; mkAnswer remember true;
    mkAnswer uncertain false; mkAnswer foreign true; mkAnswer foreign false;
    mkAnswer remember true; mkAnswer remember false; mkAnswer familiar true;
    mkAnswer uncertain false; mkAnswer uncertain true; mkAnswer foreign false;
    mkAnswer remember true; mkAnswer uncertain false ].

(** Twelve answers on one's own code (eight forgotten, one familiar) and
    three on the code of others (one false memory). *)
Definition fifteenAnswers : list Answer :=
  repeat (mkAnswer uncertain true) 8 ++ [mkAnswer familiar true]
  ++ repeat (mkAnswer remember true) 3
  ++ [mkAnswer remember false; mkAnswer foreign false; mkAnswer foreign false].

(** ** The states of a run *)

(** The states [App] goes through once the authors are selected: the scan,
    then the handlers the screen of the current phase offers. *)
Inductive reachable (shuffle : forall T : Type, nat -> list T -> list T)
  : AppState -> Prop :=
| reach_scan : forall codeSnippets commentSnippets velocityStats,
    reachable shuffle
      (scanCode shuffle beforeScan codeSnippets commentSnippets velocityStats)
| reach_start : forall st,
    reachable shuffle st ->
    render st = PhaseScreen phase_ready ->
    reachable shuffle (startGame st)
| reach_memory : forall st answer,
    reachable shuffle st ->
    render st = PhaseScreen phase_memory ->
    reachable shuffle (handleMemoryAnswer st answer)
| reach_comment : forall st answer,
    reachable shuffle st ->
    render st = PhaseScreen phase_comment ->
    reachable shuffle (handleCommentAnswer st answer).

(** What holds of the two answer logs in every state of a run. *)
Definition logsWithinQuestions (st : AppState) : Prop :=
  alen (memoryQuestions st) <= MEMORY_QUESTIONS
  /\ alen (commentQuestions st) <= COMMENT_QUESTIONS
  /\ alen (answers (qr_memory (app_result st))) <= alen (memoryQuestions st)
  /\ alen (answers (qr_comment (app_result st)))
     <= alen (commentQuestions st)
  /\ (app_phase st = phase_memory ->
      alen (answers (qr_memory (app_result st))) = memoryIndex st
      /\ alen (answers (qr_comment (app_result st))) = 0)
  /\ (app_phase st = phase_comment ->
      alen (answers (qr_comment (app_result st))) = commentIndex st).

(** A quiz of three questions of one's own, all answered foreign. *)
Definition allForgotten : AppState :=
  handleMemoryAnswer
    (handleMemoryAnswer
       (handleMemoryAnswer
          (startGame (scanCode noShuffle beforeScan threeOfMine [] []))
          foreign)
       foreign)
    foreign.

(** ** The velocity list *)

(** Descending by [linesAdded]. *)
Definition moreLines (a b : DailyCodeStats) : Prop :=
  linesAdded b <= linesAdded a.

(** [avgLinesPerCommit = round(linesAdded / commitCount)]. *)
Definition averaged (d : DailyCodeStats) : Prop :=
  avgLinesPerCommit d
  = Math_round (PrimFloat.div (ofZ (linesAdded d)) (ofZ (commits d))).

(** Three commits of one author on two days: 600 added lines on the first
    day in two commits, 3 on the second. *)
Definition manyAddedLines (n : nat) : string :=
  String.concat LF (repeat "+x"%string n).

Definition threeCommits (h : string) : option CommitData :=
  if String.eqb h "c1" then
    Some (mkCommitData "me|me@x.org" "2024-05-01" (manyAddedLines 400))
  else if String.eqb h "c2" then
    Some (mkCommitData "me|me@x.org" "2024-05-02" (manyAddedLines 3))
  else if String.eqb h "c3" then
    Some (mkCommitData "me|me@x.org" "2024-05-01" (manyAddedLines 201))
  else None.

(** ** Duplicates, as the specification words them *)

(** [fa[i] == fb[i]], for a position [i] of both fingerprints. *)
Definition agreeAt (fa fb : string) (i : nat) : bool :=
  match String.get i fa, String.get i fb with
  | Some x, Some y => Ascii.eqb x y
  | _, _ => false
  end.

(** The match count of the specification: the number of positions [i]
    below [min(len A, len B)] with [fingerprintA[i] == fingerprintB[i]],
    counted over the positions themselves and not by the loop of
    [isSimilarSnippet]. *)
Definition matchingPositions (fa fb : string) : Z :=
  alen (filter (agreeAt fa fb)
               (List.seq 0 (Nat.min (String.length fa) (String.length fb)))).

(** Two fingerprints are duplicates when they are identical or when the
    positions at which they agree are more than 0.8 of the shorter
    length: [matches / minLen > 4 / 5], in exact arithmetic. *)
Definition duplicates (fa fb : string) : bool :=
  String.eqb fa fb
  || (4 * Z.min (len fa) (len fb) <? 5 * matchingPositions fa fb).

(** A fragment carries the fingerprint of its content, as every fragment
    [extractSnippetsFromDiff] builds does. *)
Definition fingerprinted {T : Type} `{Hashed T} (s : T) : Prop :=
  hash s = hashContent (contentOf s).

(** Two texts that differ only in the length (and the characters) of their
    runs of white space: run for run, both texts have one or neither. *)
Inductive sameUpToSpaceRuns : string -> string -> Prop :=
| runs_end : sameUpToSpaceRuns EmptyString EmptyString
| runs_char : forall c s t,
    isSpace c = false ->
    sameUpToSpaceRuns s t ->
    sameUpToSpaceRuns (String c s) (String c t)
| runs_space : forall c d s t,
    isSpace c = true -> isSpace d = true ->
    sameUpToSpaceRuns s t ->
    sameUpToSpaceRuns (String c s) (String d t)
| runs_longer_left : forall c c' s t,
    isSpace c = true -> isSpace c' = true ->
    sameUpToSpaceRuns (String c' s) t ->
    sameUpToSpaceRuns (String c (String c' s)) t
| runs_longer_right : forall d d' s t,
    isSpace d = true -> isSpace d' = true ->
    sameUpToSpaceRuns s (String d' t) ->
    sameUpToSpaceRuns s (String d (String d' t)).

(** Two fragments whose texts differ in their white space only. *)
Definition spacedOut : CodeSnippet :=
  mySnippet [ "if (ready)   {"; "    launch(now);"; "}" ]%string.

Definition spacedIn : CodeSnippet :=
  otherSnippet [ "if (ready) {"; "  launch(now);"; "}" ]%string.

(** A fragment with a fingerprint of ten characters, one that agrees with
    it at nine positions (0.9 of the length) and one that agrees with it
    at eight (0.8, which is not more than 0.8). *)
Definition tenLetters : CodeSnippet := mySnippet [ "abcdefghij" ]%string.

Definition nineShared : CodeSnippet := otherSnippet [ "abcdefghiY" ]%string.

Definition eightShared : CodeSnippet := otherSnippet [ "abcdefghXY" ]%string.


(* ====================================================================== *)
(** * The lines of a diff, as the scan sorts them                          *)
(* ====================================================================== *)

(** The test [isCommentLine(codeLine) && trimmed.length > 15]. *)
Definition isLongComment (codeLine : string) : bool :=
  isCommentLine codeLine && (15 <? len (trim codeLine)).

(** An added line the loop appends to the code buffer: not boilerplate,
    not a long comment, not noise. *)
Definition isSubstantive (codeLine : string) : bool :=
  negb (isFixedPattern codeLine)
  && negb (isLongComment codeLine)
  && negb (isNoiseLine codeLine).

(** An added line the loop appends to the comment buffer. *)
Definition isCommentBlockLine (codeLine : string) : bool :=
  negb (isFixedPattern codeLine) && isLongComment codeLine.

(** A line no branch of the loop acts on, in a hunk or out of one: a line
    that starts with [+++], an added line of boilerplate, and a line that
    starts with none of [@@], [+], [-] and a space. *)
Definition isSkipped (line : string) : bool :=
  negb (startsWith line "@@")
  && (startsWith line "+++"
      || (isAddedLine line && isFixedPattern (substringFrom1 line))
      || negb (startsWith line "+" || startsWith line "-"
               || startsWith line " ")).

(** [codeLine] is the text of an added line of [lines] that went to the
    code buffer, or to the comment buffer. *)
Definition codeLineOf (lines : list string) (codeLine : string) : Prop :=
  In (String "+" codeLine) lines /\ isSubstantive codeLine = true.

Definition commentLineOf (lines : list string) (codeLine : string) : Prop :=
  In (String "+" codeLine) lines /\ isCommentBlockLine codeLine = true.

(** A comment block with its context, as the scan of [lines] stores it. *)
Definition wellFormedBlock (lines : list string) (b : CommentBlock) : Prop :=
  1 <= alen (cb_comment b)
  /\ Forall (commentLineOf lines) (cb_comment b)
  /\ alen (cb_context b) <= 2
  /\ Forall (codeLineOf lines) (cb_context b).

(** What holds of the variables of the loop after every line. *)
Definition scanInvariant (lines : list string) (st : ScanState) : Prop :=
  Forall (Forall (codeLineOf lines)) (codeBlocks st)
  /\ Forall (wellFormedBlock lines) (commentBlocksWithContext st)
  /\ Forall (codeLineOf lines) (currentCodeBlock st)
  /\ Forall (commentLineOf lines) (currentCommentBlock st)
  /\ Forall (codeLineOf lines) (contextBuffer st)
  /\ alen (contextBuffer st) <= 5.

(** A code snippet cut from the scan of [lines]. *)
Definition codeSnippetOf (filename : string) (lines : list string)
           (s : CodeSnippet) : Prop :=
  cs_filename s = filename
  /\ MIN_SNIPPET_LINES <= alen (cs_code s) <= MAX_SNIPPET_LINES
  /\ Forall (codeLineOf lines) (cs_code s)
  /\ cs_hash s = hashContent (cs_code s)
  /\ exists block before after,
       In block (codeBlocks (scanFile lines))
       /\ block = before ++ cs_code s ++ after.

(** A comment snippet made from the scan of [lines]. *)
Definition commentSnippetOf (filename : string) (lines : list string)
           (s : CommentSnippet) : Prop :=
  cm_filename s = filename
  /\ Forall (commentLineOf lines) (cm_comment s)
  /\ Exists (fun c => 20 < len (trim c)) (cm_comment s)
  /\ alen (cm_context s) <= 2
  /\ Forall (codeLineOf lines) (cm_context s)
  /\ cm_hash s = hashContent (cm_comment s).

(** The lines of a section from its first hunk header on. *)
Fixpoint fromFirstHunk (lines : list string) : list string :=
  match lines with
  | [] => []
  | line :: rest =>
      if startsWith line "@@" then lines else fromFirstHunk rest
  end.

(* ====================================================================== *)
(** * Fingerprints and the survivors of the deduplication                  *)
(* ====================================================================== *)

(** The only white space of [s] is the space, and no two spaces are
    adjacent. *)
Fixpoint singleSpaced (s : string) : bool :=
  match s with
  | EmptyString => true
  | String c r =>
      (if isSpace c
       then Ascii.eqb c " "
            && match r with
               | String d _ => negb (isSpace d)
               | EmptyString => true
               end
       else true)
      && singleSpaced r
  end.

(** [s] does not start with white space. *)
Definition startsWithSpace (s : string) : bool :=
  match s with String c _ => isSpace c | EmptyString => false end.

(** [sub] is [l] with some elements left out, the order kept. *)
Inductive subsequence {A : Type} : list A -> list A -> Prop :=
| subsequence_nil : subsequence [] []
| subsequence_keep : forall x sub l,
    subsequence sub l -> subsequence (x :: sub) (x :: l)
| subsequence_drop : forall x sub l,
    subsequence sub l -> subsequence sub (x :: l).

Section Survivors.

Context {T : Type} `{Hashed T}.

(** The two tests of one iteration of [deduplicateSnippets], on the
    fragments accepted so far. *)
Definition accepts (accepted : list T) (snippet : T) : bool :=
  negb (existsb (fun y => String.eqb (hash snippet) (hash y)) accepted)
  && negb (existsb (fun existing =>
                      isSimilarSnippet (contentOf snippet) (contentOf existing))
                   accepted).

End Survivors.

(* ====================================================================== *)
(** * The commits behind the velocity list                                 *)
(* ====================================================================== *)

(** The commits of the sample the loop of [analyzeDailyVelocity] counts:
    those git answers for and whose author is selected, in order. *)
Definition countedCommits (fetchCommit : string -> option CommitData)
           (isSelected : string -> bool) (sampled : list string)
  : list CommitData :=
  flat_map (fun h => match fetchCommit h with
                     | Some info =>
                         if isSelected (cd_authorKey info) then [info] else []
                     | None => []
                     end)
           sampled.

Definition commitsOn (day : string) (cs : list CommitData) : list CommitData :=
  filter (fun c => String.eqb (cd_date c) day) cs.

(** The added lines of the commits of one day. *)
Definition linesOn (day : string) (cs : list CommitData) : Z :=
  fold_right Z.add 0
             (map (fun c => countAddedLines (cd_diff c)) (commitsOn day cs)).

(** [dailyStats.get(k)]. *)
Fixpoint mapGet (m : DailyStatsMap) (k : string) : option (Z * Z) :=
  match m with
  | [] => None
  | (k', v) :: r => if String.eqb k k' then Some v else mapGet r k
  end.

(** The body of the loop for one counted commit. *)
Definition bumpDay (m : DailyStatsMap) (info : CommitData) : DailyStatsMap :=
  let dateStr := cd_date info in
  mapBump (if negb (mapHas m dateStr) then push m (dateStr, (0, 0)) else m)
          dateStr (countAddedLines (cd_diff info)).

(** The entry of every day is the total of the counted commits of that
    day. *)
Definition totalsOf (cs : list CommitData) (m : DailyStatsMap) : Prop :=
  NoDup (map fst m)
  /\ forall day,
       mapGet m day
       = if alen (commitsOn day cs) =? 0 then None
         else Some (linesOn day cs, alen (commitsOn day cs)).

(* ====================================================================== *)
(** * The quiz, answer by answer                                           *)
(* ====================================================================== *)

(** The handler the screen of the current phase passes the answer to:
    [onAnswer={handleMemoryAnswer}] in the memory phase,
    [onAnswer={handleCommentAnswer}] in the comment phase; no other screen
    takes an answer. *)
Definition answerQuestion (st : AppState) (answer : AnswerType) : AppState :=
  match render st with
  | PhaseScreen phase_memory => handleMemoryAnswer st answer
  | PhaseScreen phase_comment => handleCommentAnswer st answer
  | _ => st
  end.

(** What holds of the logs and of the stored totals once the quiz has
    started. *)
Definition logsFollowQuestions (st : AppState) : Prop :=
  let r := app_result st in
  let memLog := answers (qr_memory r) in
  let comLog := answers (qr_comment r) in
  (app_phase st = phase_memory \/ app_phase st = phase_comment
   \/ app_phase st = phase_result ->
   map isMyCode memLog
   = map cs_isMyCode (firstn (List.length memLog) (memoryQuestions st))
   /\ map isMyCode comLog
      = map cm_isMyCode (firstn (List.length comLog) (commentQuestions st))
   /\ total (qr_memory r) = alen (memoryQuestions st)
   /\ total (qr_comment r) = alen (commentQuestions st)
   /\ track_myCodeTotal (qr_memory r)
      = alen (filter (fun s => cs_isMyCode s) (memoryQuestions st))
   /\ track_myCodeTotal (qr_comment r)
      = alen (filter (fun s => cm_isMyCode s) (commentQuestions st)))
  /\ (app_phase st = phase_memory ->
      alen memLog = memoryIndex st /\ comLog = [])
  /\ (app_phase st = phase_comment ->
      alen memLog = alen (memoryQuestions st)
      /\ alen comLog = commentIndex st)
  /\ (app_phase st = phase_result ->
      alen memLog = alen (memoryQuestions st)
      /\ alen comLog = alen (commentQuestions st)).

(* ====================================================================== *)
(** * The result screen                                                    *)
(* ====================================================================== *)

(** The four remarks of [getMemoryComment] and of [getCommentComment],
    which test the same thresholds, in the order of the source. *)
Inductive Remark : Type :=
| RemarkBelow20 | RemarkBelow50 | RemarkBelow80 | RemarkFrom80.

Definition getMemoryComment (score : Z) : Remark :=
  if score <? 20 then RemarkBelow20
  else if score <? 50 then RemarkBelow50
  else if score <? 80 then RemarkBelow80
  else RemarkFrom80.

Definition getCommentComment (score : Z) : Remark :=
  if score <? 20 then RemarkBelow20
  else if score <? 50 then RemarkBelow50
  else if score <? 80 then RemarkBelow80
  else RemarkFrom80.

(** The two products the breakdown of [ResultScreen] prints:
    [Math.round(memoryVibeScore * 0.5)] and
    [Math.round(commentVibeScore * 0.35)]. *)
Definition shownMemoryPart (memoryVibeScore : Z) : Z :=
  Math_round (PrimFloat.mul (ofZ memoryVibeScore) lit_0_5).

Definition shownCommentPart (commentVibeScore : Z) : Z :=
  Math_round (PrimFloat.mul (ofZ commentVibeScore) lit_0_35).

(** The position of a title in the order of [getVibeRating]. *)
Definition ratingRank (r : VibeRating) : Z :=
  match r with
  | CodeArtisan => 0
  | TraditionalProgrammer => 1
  | HybridDeveloper => 2
  | VibeCoder => 3
  | AICollaborationMaster => 4
  | PromptEngineer => 5
  | HumanoidCopilot => 6
  | AIPuppet => 7
  end.

(** The printed parts against the total, for one pair of track scores and
    every bonus [Math.min(n * 3, 15)]. *)
Definition partsNearTotal (memoryVibeScore commentVibeScore : Z) : bool :=
  let shown :=
    shownMemoryPart memoryVibeScore + shownCommentPart commentVibeScore in
  forallb (fun bonus =>
             Z.abs (shown + bonus
                    - Z.min 100 (Math_round (weightedSum memoryVibeScore
                                                         commentVibeScore
                                                         bonus)))
             <=? 1)
          [0; 3; 6; 9; 12; 15].

(* ====================================================================== *)
(** * The files of a diff                                                  *)
(* ====================================================================== *)

Definition CODE_EXTENSIONS : list string :=
  [ (* JavaScript/TypeScript *)
    ".ts"; ".tsx"; ".js"; ".jsx"; ".mjs"; ".cjs"; ".vue"; ".svelte"; ".astro";
    (* Python *)
    ".py"; ".pyw"; ".pyx"; ".pxd"; ".pxi";
    (* Go *)
    ".go";
    (* Rust *)
    ".rs";
    (* Java/Kotlin/Scala *)
    ".java"; ".kt"; ".kts"; ".scala"; ".sc";
    (* C/C++/Objective-C *)
    ".c"; ".cpp"; ".cc"; ".cxx"; ".h"; ".hpp"; ".hxx"; ".m"; ".mm";
    (* C#/F# *)
    ".cs"; ".fs"; ".fsx";
    (* Ruby *)
    ".rb"; ".rake"; ".gemspec";
    (* PHP *)
    ".php"; ".phtml";
    (* Swift *)
    ".swift";
    (* Dart *)
    ".dart";
    (* Lua *)
    ".lua";
    (* Shell *)
    ".sh"; ".bash"; ".zsh"; ".fish";
    (* Perl *)
    ".pl"; ".pm";
    (* R *)
    ".r"; ".R";
    (* Elixir/Erlang *)
    ".ex"; ".exs"; ".erl"; ".hrl";
    (* Haskell *)
    ".hs"; ".lhs";
    (* Clojure *)
    ".clj"; ".cljs"; ".cljc"; ".edn";
    (* Zig *)
    ".zig";
    (* Nim *)
    ".nim";
    (* V *)
    ".v";
    (* OCaml *)
    ".ml"; ".mli";
    (* SQL *)
    ".sql";
    (* Groovy *)
    ".groovy"; ".gradle" ]%string.

(** A pattern with no anchor, [/r/], and one anchored at the end, [/r$/],
    as languages of the whole strings [test] accepts. *)
Definition containing (r : regex) : regex := Cat anything (Cat r anything).
Definition ending (r : regex) : regex := Cat anything r.

Definition IGNORED_PATTERNS : list regex :=
  [ containing (lit ".min.");
    containing (lit ".bundle.");
    containing (lit ".generated.");
    containing (lit "node_modules");
    containing (lit "vendor/");
    containing (lit "dist/");
    containing (lit "build/");
    containing (lit "target/");
    ending (lit ".d.ts");
    containing (lit "__pycache__");
    ending (lit ".pyc") ].

(** [s.lastIndexOf(c)]: the last position of [c], or -1. *)
Fixpoint lastIndexOf (s : string) (c : ascii) : Z :=
  match s with
  | EmptyString => -1
  | String d r =>
      let i := lastIndexOf r c in
      if 0 <=? i then i + 1 else if Ascii.eqb d c then 0 else -1
  end.

Fixpoint dropChars (n : nat) (s : string) : string :=
  match n, s with
  | O, _ => s
  | S k, String _ r => dropChars k r
  | S _, EmptyString => EmptyString
  end.

(** [s.substring(i)]: a negative index counts as 0. *)
Definition substringFrom (s : string) (i : Z) : string :=
  dropChars (Z.to_nat (Z.max i 0)) s.

(** [toLowerCase] on a code unit below 256: the letters A-Z and the
    capital letters from 192 to 222 (215, the multiplication sign, is no
    letter) move up by 32. *)
Definition lowerChar (c : ascii) : ascii :=
  let n := N_of_ascii c in
  if ((65 <=? n) && (n <=? 90)
      || (192 <=? n) && (n <=? 222) && negb (n =? 215))%N
  then ascii_of_N (n + 32)
  else c.

Fixpoint toLowerCase (s : string) : string :=
  match s with
  | EmptyString => EmptyString
  | String c r => String (lowerChar c) (toLowerCase r)
  end.

Definition isCodeFile (filename : string) : bool :=
  if existsb (fun pattern => matches pattern filename) IGNORED_PATTERNS
  then false
  else
    let ext :=
      toLowerCase (substringFrom filename (lastIndexOf filename ".")) in
    existsb (String.eqb ext) CODE_EXTENSIONS.

(** [c] does not occur in [s]. *)
Fixpoint lacks (c : ascii) (s : string) : bool :=
  match s with
  | EmptyString => true
  | String d r => negb (Ascii.eqb d c) && lacks c r
  end.

(** ** The sections of a diff *)

Definition prependTo (c : ascii) (pieces : list string) : list string :=
  match pieces with
  | p :: ps => String c p :: ps
  | [] => [String c EmptyString]
  end.

(** The pieces of [s] when the piece in progress is not empty: a cut is
    made before every occurrence of [mark]. *)
Fixpoint cutBefore (mark s : string) : list string :=
  match s with
  | EmptyString => [EmptyString]
  | String c r =>
      if startsWith s mark
      then EmptyString :: prependTo c (cutBefore mark r)
      else prependTo c (cutBefore mark r)
  end.

(** [diff.split(/(?=diff --git)/)]: the pattern matches the empty string
    before every [diff --git]; [split] makes no cut that would leave an
    empty piece, so none at the start of the text. *)
Definition splitFiles (diff : string) : list string :=
  match diff with
  | EmptyString => [EmptyString]
  | String c r => prependTo c (cutBefore "diff --git" r)
  end.

(** The characters the dot of a pattern does not match, below 256. *)
Definition isLineTerminator (c : ascii) : bool :=
  let n := N_of_ascii c in ((n =? 10) || (n =? 13))%N.

(** The text up to the first line terminator. *)
Fixpoint lineOf (s : string) : string :=
  match s with
  | EmptyString => EmptyString
  | String c r => if isLineTerminator c then EmptyString
                  else String c (lineOf r)
  end.

(** The group of [.+ b\/(.+)] on a line.  The first [.+] is greedy: it
    gives characters back from the end of the line until [ b/] and one
    more character follow, so the match is at the last [ b/] of the line
    that has a character before it and one after it; the group is the
    rest of the line.  [seen] tells that a character of the line lies
    before [line]. *)
Fixpoint captureAfterLastB (seen : bool) (line : string) : option string :=
  match line with
  | EmptyString => None
  | String c r =>
      match captureAfterLastB true r with
      | Some name => Some name
      | None =>
          if seen && startsWith line " b/"
             && negb (String.eqb (dropChars 3 line) EmptyString)
          then Some (dropChars 3 line)
          else None
      end
  end.

(** The pattern [/diff --git a\/.+ b\/(.+)/] tried at the start of [s]. *)
Definition matchHeaderAt (s : string) : option string :=
  if startsWith s "diff --git a/"
  then captureAfterLastB false (lineOf (dropChars 13 s))
  else None.

(** [fileMatch[1]] of [/diff --git a\/.+ b\/(.+)/.exec(fileDiff)], [None]
    when [exec] returns [null]: the pattern is tried at every position
    from the left. *)
Fixpoint fileNameOf (fileDiff : string) : option string :=
  match fileDiff with
  | EmptyString => None
  | String _ r =>
      match matchHeaderAt fileDiff with
      | Some name => Some name
      | None => fileNameOf r
      end
  end.

(** The file sections [extractSnippetsFromDiff] goes on with: those with
    a header whose path [isCodeFile] accepts, each with its name and its
    lines. *)
Definition retainedFiles (diff : string) : list (string * list string) :=
  flat_map (fun fileDiff =>
              match fileNameOf fileDiff with
              | Some filename =>
                  if isCodeFile filename
                  then [(filename, splitLines fileDiff)]
                  else []
              | None => []
              end)
           (splitFiles diff).

(** [extractSnippetsFromDiff] on the text of a diff. *)
Definition extractSnippetsFromText (randomBelow : nat -> Z -> Z)
           (author email commitHash : string) (isMine : bool) (diff : string)
  : list CodeSnippet * list CommentSnippet :=
  extractSnippetsFromDiff randomBelow author email commitHash isMine 0
                          (retainedFiles diff).

(** The dot of a pattern, and the header pattern as a language. *)
Definition dot : regex := Sym (fun c => negb (isLineTerminator c)).

Definition headerPattern : regex :=
  Cat (lit "diff --git a/") (Cat (plus dot) (Cat (lit " b/") (plus dot))).

(** No occurrence of [mark] in [s]. *)
Fixpoint lacksText (mark s : string) : bool :=
  match s with
  | EmptyString => true
  | String _ r => negb (startsWith s mark) && lacksText mark r
  end.

(** No line terminator in [s]. *)
Fixpoint oneLine (s : string) : bool :=
  match s with
  | EmptyString => true
  | String c r => negb (isLineTerminator c) && oneLine r
  end.

Definition isSome {A} (x : option A) : bool :=
  match x with Some _ => true | None => false end.

(** The text after the file name of a header: nothing, or the rest of the
    section from a line terminator on. *)
Definition endsLine (rest : string) : bool :=
  match rest with
  | EmptyString => true
  | String c _ => isLineTerminator c
  end.

(** The occurrences of [c] in [s]. *)
Fixpoint countChar (c : ascii) (s : string) : nat :=
  match s with
  | EmptyString => O
  | String d r => ((if Ascii.eqb d c then 1 else 0) + countChar c r)%nat
  end.

(** Letters and digits only: no dot, no slash, no underscore. *)
Definition isAlphanumeric (c : ascii) : bool :=
  isUpper c || isLower c || isDigit c.

Fixpoint plainName (s : string) : bool :=
  match s with
  | EmptyString => true
  | String c r => isAlphanumeric c && plainName r
  end.

(* ====================================================================== *)
(** * The answers of git                                                   *)
(* ====================================================================== *)

(** [s.split(sep)] for a separator of one character: never empty. *)
Fixpoint splitOn (sep : ascii) (s : string) : list string :=
  match s with
  | EmptyString => [EmptyString]
  | String c r =>
      if Ascii.eqb c sep then EmptyString :: splitOn sep r
      else match splitOn sep r with
           | l :: ls => String c l :: ls
           | [] => [String c EmptyString]
           end
  end.

(** [x || d] for a string [x] that may be [undefined]: the empty string
    is falsy too. *)
Definition orElse (x : option string) (d : string) : string :=
  match x with
  | Some s => if String.eqb s EmptyString then d else s
  | None => d
  end.

(** The constants [author], [email], [timestamp] and [message] of
    [getCommitInfo]; the function returns them with the time stamp as
    [new Date(parseInt(timestamp) * 1000)]. *)
Record CommitInfo : Type := mkCommitInfo {
  ci_author : string;
  ci_email : string;
  ci_timestamp : string;
  ci_message : string
}.

(** [getCommitInfo] on the output of [git log -1 --format=%aN|%aE|%at|%s]. *)
Definition getCommitInfo (output : string) : CommitInfo :=
  let parts := splitOn "|" output in
  let author := orElse (at_ parts 0) "" in
  let email := orElse (at_ parts 1) "" in
  let timestamp := orElse (at_ parts 2) "0" in
  let message := String.concat "|" (sliceFrom parts 3) in
  mkCommitInfo author email timestamp (orElse (Some message) "").

(** An entry of [authorMap]; [email] is [undefined] when the line has no
    separator. *)
Record Author : Type := mkAuthor {
  au_name : string;
  au_email : option string;
  au_commits : Z
}.

(** A value in a template literal: [undefined] is written out. *)
Definition templateText (x : option string) : string :=
  match x with Some s => s | None => "undefined"%string end.

(** [`${name}|${email}`]. *)
Definition authorKey (name : string) (email : option string) : string :=
  (name ++ String "|" (templateText email))%string.

(** [authorMap], a [Map] from the key to the entry, as an association
    list in insertion order. *)
Definition AuthorMap : Type := list (string * Author).

Fixpoint authorHas (m : AuthorMap) (k : string) : bool :=
  match m with
  | [] => false
  | (k', _) :: r => String.eqb k k' || authorHas r k
  end.

(** [authorMap.get(key)!.commits++]. *)
Fixpoint authorBump (m : AuthorMap) (k : string) : AuthorMap :=
  match m with
  | [] => []
  | (k', a) :: r =>
      if String.eqb k k'
      then (k', mkAuthor (au_name a) (au_email a) (au_commits a + 1)) :: r
      else (k', a) :: authorBump r k
  end.

(** [!line.trim()]. *)
Definition isBlank (line : string) : bool := String.eqb (trim line) EmptyString.

(** The name and the address a line is read as: the first two fields. *)
Definition nameOfLine (line : string) : string :=
  hd EmptyString (splitOn "|" line).

Definition emailOfLine (line : string) : option string :=
  at_ (splitOn "|" line) 1.

Definition keyOfLine (line : string) : string :=
  authorKey (nameOfLine line) (emailOfLine line).

(** One iteration of [for (const line of output.split("\n"))]. *)
Definition authorStep (m : AuthorMap) (line : string) : AuthorMap :=
  if isBlank line then m
  else
    let name := nameOfLine line in
    let email := emailOfLine line in
    let key := authorKey name email in
    if authorHas m key then authorBump m key
    else push m (key, mkAuthor name email 1).

(** [.sort((a, b) => b.commits - a.commits)], as a stable insertion
    sort. *)
Fixpoint insertByCommits (a : Author) (l : list Author) : list Author :=
  match l with
  | [] => [a]
  | e :: r =>
      if au_commits a <? au_commits e then e :: insertByCommits a r
      else a :: l
  end.

Definition sortByCommitsDesc (l : list Author) : list Author :=
  fold_right insertByCommits [] l.

(** [getAuthors] on the output of [git log --format=%aN|%aE]. *)
Definition getAuthors (output : string) : list Author :=
  sortByCommitsDesc
    (map snd (fold_left authorStep (splitLines output) [])).

(** The lines of the log that count for the key [k]. *)
Definition linesOfAuthor (k : string) (lines : list string) : list string :=
  filter (fun line => negb (isBlank line) && String.eqb (keyOfLine line) k)
         lines.

Fixpoint authorGet (m : AuthorMap) (k : string) : option Author :=
  match m with
  | [] => None
  | (k', a) :: r => if String.eqb k k' then Some a else authorGet r k
  end.

(** The entry of every key counts the lines of that key. *)
Definition countsOf (lines : list string) (m : AuthorMap) : Prop :=
  NoDup (map fst m)
  /\ Forall (fun e => fst e = authorKey (au_name (snd e)) (au_email (snd e)))
            m
  /\ forall k,
       match authorGet m k with
       | Some a => au_commits a = alen (linesOfAuthor k lines)
                   /\ 1 <= au_commits a
       | None => linesOfAuthor k lines = []
       end.

(** Descending by [commits]. *)
Definition moreCommits (a b : Author) : Prop := au_commits b <= au_commits a.

(* ====================================================================== *)
(** * The literals                                                         *)
(* ====================================================================== *)

#[local] Set Warnings "-inexact-float".

(** The hexadecimal constants are the doubles nearest to the decimal
    literals of the source. *)
Lemma decimal_literals :
  lit_0_5 = 0.5%float /\ lit_0_35 = 0.35%float /\ lit_0_6 = 0.6%float
  /\ lit_0_7 = 0.7%float /\ lit_0_8 = 0.8%float.
Proof. repeat split; reflexivity. Qed.

#[local] Set Warnings "inexact-float".

(* ====================================================================== *)
(** * The matcher                                                          *)
(* ====================================================================== *)

Lemma append_empty (s t : string) :
  (s ++ t)%string = EmptyString -> s = EmptyString /\ t = EmptyString.
Proof. destruct s; cbn; [auto|discriminate]. Qed.

Lemma Lang_Void s : ~ Lang Void s.
Proof. intros H. inversion H. Qed.

Lemma Lang_Eps s : Lang Eps s -> s = EmptyString.
Proof. intros H. inversion H. reflexivity. Qed.

Lemma Lang_Cat a b w :
  Lang (Cat a b) w -> exists s t, w = (s ++ t)%string /\ Lang a s /\ Lang b t.
Proof. intros H. inversion H; subst. eauto. Qed.

Lemma Lang_Alt a b w : Lang (Alt a b) w -> Lang a w \/ Lang b w.
Proof. intros H. inversion H; subst; auto. Qed.

Lemma nullable_Lang r : nullable r = true <-> Lang r EmptyString.
Proof.
  induction r as [| |p|a IHa b IHb|a IHa b IHb|a IHa]; cbn [nullable].
  - split; [discriminate|]. intros H. destruct (Lang_Void _ H).
  - split; [constructor|reflexivity].
  - split; [discriminate|]. intros H. inversion H.
  - rewrite andb_true_iff, IHa, IHb. split.
    + intros [Ha Hb]. apply (lang_cat a b EmptyString EmptyString Ha Hb).
    + intros H. apply Lang_Cat in H as (s & t & E & Ha & Hb).
      symmetry in E. apply append_empty in E as [-> ->]. auto.
  - rewrite orb_true_iff, IHa, IHb. split.
    + intros [Ha|Hb]; [apply lang_alt_l|apply lang_alt_r]; assumption.
    + apply Lang_Alt.
  - split; [constructor|reflexivity].
Qed.

Lemma cat_Lang a b w : Lang (cat a b) w <-> Lang (Cat a b) w.
Proof.
  assert (Hv1 : forall x, Lang Void w <-> Lang (Cat Void x) w).
  { intros x. split; intros H; [destruct (Lang_Void _ H)|].
    apply Lang_Cat in H as (s & t & _ & H & _). destruct (Lang_Void _ H). }
  assert (Hv2 : forall x, Lang Void w <-> Lang (Cat x Void) w).
  { intros x. split; intros H; [destruct (Lang_Void _ H)|].
    apply Lang_Cat in H as (s & t & _ & _ & H). destruct (Lang_Void _ H). }
  assert (He : forall x, Lang x w <-> Lang (Cat Eps x) w).
  { intros x. split; intros H.
    - apply (lang_cat Eps x EmptyString w lang_eps H).
    - apply Lang_Cat in H as (s & t & -> & Hs & Ht).
      apply Lang_Eps in Hs. subst s. exact Ht. }
  destruct a; destruct b; cbn [cat];
    try apply Hv1; try apply Hv2; try apply He; reflexivity.
Qed.

Lemma alt_Lang a b w : Lang (alt a b) w <-> Lang (Alt a b) w.
Proof.
  assert (Hl : forall x, Lang x w <-> Lang (Alt Void x) w).
  { intros x. split; intros H; [apply lang_alt_r, H|].
    apply Lang_Alt in H as [H|H]; [destruct (Lang_Void _ H)|exact H]. }
  assert (Hr : forall x, Lang x w <-> Lang (Alt x Void) w).
  { intros x. split; intros H; [apply lang_alt_l, H|].
    apply Lang_Alt in H as [H|H]; [exact H|destruct (Lang_Void _ H)]. }
  destruct a; destruct b; cbn [alt];
    try apply Hl; try apply Hr; reflexivity.
Qed.

(** A non-empty word of [Star a] starts with a non-empty word of [a]. *)
Lemma Lang_Star_cons a c w :
  Lang (Star a) (String c w) ->
  exists s t, w = (s ++ t)%string /\ Lang a (String c s) /\ Lang (Star a) t.
Proof.
  intros H. remember (Star a) as r eqn:Er. remember (String c w) as v eqn:Ev.
  revert w Ev.
  induction H as [| | | | | |a' s t Hs _ Ht IH]; intros w Ev;
    try discriminate Er; try discriminate Ev.
  injection Er as ->.
  destruct s as [|d s'].
  - cbn in Ev. apply (IH eq_refl w Ev).
  - cbn in Ev. injection Ev as -> <-. exists s', t. auto.
Qed.

Lemma deriv_Lang c r : forall w, Lang (deriv c r) w <-> Lang r (String c w).
Proof.
  induction r as [| |p|a IHa b IHb|a IHa b IHb|a IHa]; intros w;
    cbn [deriv].
  - split; intros H; inversion H.
  - split; intros H; inversion H.
  - destruct (p c) eqn:E; split; intros H.
    + apply Lang_Eps in H. subst w. constructor. exact E.
    + inversion H; subst. constructor.
    + destruct (Lang_Void _ H).
    + inversion H; subst. congruence.
  - assert (Hcat : Lang (Cat (deriv c a) b) w
                   <-> exists s t, w = (s ++ t)%string
                                   /\ Lang a (String c s) /\ Lang b t).
    { split.
      - intros H. apply Lang_Cat in H as (s & t & -> & Hs & Ht).
        exists s, t. rewrite <- IHa. auto.
      - intros (s & t & -> & Hs & Ht). apply lang_cat; [apply IHa, Hs|exact Ht]. }
    destruct (nullable a) eqn:En.
    + rewrite alt_Lang. split.
      * intros H. apply Lang_Alt in H as [H|H].
        -- apply cat_Lang, Hcat in H as (s & t & -> & Hs & Ht).
           apply (lang_cat a b (String c s) t Hs Ht).
        -- apply IHb in H. apply nullable_Lang in En.
           apply (lang_cat a b EmptyString (String c w) En H).
      * intros H. apply Lang_Cat in H as (s & t & E & Hs & Ht).
        destruct s as [|d s'].
        -- cbn in E. subst t. apply lang_alt_r, IHb, Ht.
        -- cbn in E. injection E as <- ->.
           apply lang_alt_l, cat_Lang, Hcat. eauto.
    + rewrite cat_Lang, Hcat. split.
      * intros (s & t & -> & Hs & Ht).
        apply (lang_cat a b (String c s) t Hs Ht).
      * intros H. apply Lang_Cat in H as (s & t & E & Hs & Ht).
        destruct s as [|d s'].
        -- apply nullable_Lang in Hs. congruence.
        -- cbn in E. injection E as <- ->. eauto.
  - rewrite alt_Lang. split.
    + intros H. apply Lang_Alt in H as [H|H];
        [apply lang_alt_l, IHa|apply lang_alt_r, IHb]; exact H.
    + intros H. apply Lang_Alt in H as [H|H];
        [apply lang_alt_l, IHa|apply lang_alt_r, IHb]; exact H.
  - rewrite cat_Lang. split.
    + intros H. apply Lang_Cat in H as (s & t & -> & Hs & Ht).
      apply IHa in Hs. apply (lang_star_app a (String c s) t Hs Ht).
    + intros H. apply Lang_Star_cons in H as (s & t & -> & Hs & Ht).
      apply lang_cat; [apply IHa, Hs|exact Ht].
Qed.

(** The matcher decides membership in the language of the pattern. *)
Lemma matches_Lang w : forall r, matches r w = true <-> Lang r w.
Proof.
  induction w as [|c w IH]; intros r; cbn [matches].
  - apply nullable_Lang.
  - rewrite IH. apply deriv_Lang.
Qed.

(* ====================================================================== *)
(** * Arrays                                                               *)
(* ====================================================================== *)

Lemma alen_nonneg {A} (l : list A) : 0 <= alen l.
Proof. unfold alen. lia. Qed.

Lemma alen_app {A} (l r : list A) : alen (l ++ r) = alen l + alen r.
Proof. unfold alen. rewrite length_app. lia. Qed.

Lemma alen_push {A} (l : list A) x : alen (push l x) = alen l + 1.
Proof. unfold push. rewrite alen_app. reflexivity. Qed.

(** A slice that lies inside the array has the length asked for. *)
Lemma slice_inside {A} (l : list A) (s n : Z) :
  0 <= s -> 0 <= n -> s + n <= alen l -> alen (slice l s (s + n)) = n.
Proof.
  intros Hs Hn Hle. unfold slice, relIndex.
  destruct (s <? 0) eqn:E1; [apply Z.ltb_lt in E1; lia|].
  destruct (s + n <? 0) eqn:E2; [apply Z.ltb_lt in E2; lia|].
  unfold alen in *. rewrite length_firstn, length_skipn. lia.
Qed.

(** [l.slice(0, n)] takes [n] elements when the array has them. *)
Lemma slice_prefix {A} (l : list A) (n : Z) :
  0 <= n <= alen l -> slice l 0 n = firstn (Z.to_nat n) l.
Proof.
  intros Hn. unfold slice, relIndex. simpl.
  destruct (n <? 0) eqn:E; [apply Z.ltb_lt in E; lia|].
  rewrite Z.min_l by (pose proof (alen_nonneg l); lia).
  rewrite Z.min_l by lia. rewrite Z.sub_0_r, Z.max_l by lia. reflexivity.
Qed.

Lemma slice_length_le {A} (l : list A) (s e n : Z) :
  0 <= n -> 0 <= s -> 0 <= e <= s + n -> alen (slice l s e) <= n.
Proof.
  intros Hn Hs He. unfold slice, relIndex.
  destruct (s <? 0) eqn:E1; [apply Z.ltb_lt in E1; lia|].
  destruct (e <? 0) eqn:E2; [apply Z.ltb_lt in E2; lia|].
  unfold alen. rewrite length_firstn. lia.
Qed.

(* ====================================================================== *)
(** * The window of a code block                                           *)
(* ====================================================================== *)

Lemma snippetLen_as_clamp (L : Z) :
  MIN_SNIPPET_LINES <= L ->
  snippetLen L =
  clamp (Math_floor (PrimFloat.mul (ofZ L) lit_0_7))
        MIN_SNIPPET_LINES (Z.min MAX_SNIPPET_LINES L).
Proof.
  unfold snippetLen, clamp, MIN_SNIPPET_LINES, MAX_SNIPPET_LINES.
  generalize (Math_floor (PrimFloat.mul (ofZ L) lit_0_7)). intros x HL. lia.
Qed.

Lemma snippetLen_bounds (L : Z) :
  MIN_SNIPPET_LINES <= L -> MIN_SNIPPET_LINES <= snippetLen L <= L.
Proof.
  unfold snippetLen, MIN_SNIPPET_LINES, MAX_SNIPPET_LINES.
  generalize (Math_floor (PrimFloat.mul (ofZ L) lit_0_7)). intros x HL. lia.
Qed.

Lemma windowBlock_length randomBelow k block :
  goodDraws randomBelow ->
  MIN_SNIPPET_LINES <= alen block ->
  alen (windowBlock randomBelow k block) = snippetLen (alen block).
Proof.
  intros Hr HL. unfold windowBlock.
  pose proof (snippetLen_bounds _ HL) as [Hlo Hhi].
  pose proof (Hr k (Z.max 1 (alen block - snippetLen (alen block) + 1))
                 ltac:(lia)) as Hd.
  unfold MIN_SNIPPET_LINES in *.
  apply slice_inside; lia.
Qed.

(** Every block passes the two length tests of the loop, so the loop makes
    one snippet per block, of the window's length. *)
Lemma snippetsFromBlocks_lengths randomBelow author email commitHash isMine
      filename blocks :
  goodDraws randomBelow ->
  Forall (fun block => MIN_SNIPPET_LINES <= alen block) blocks ->
  forall k,
    map (fun s => alen (cs_code s))
        (snippetsFromBlocks randomBelow author email commitHash isMine
                            filename k blocks)
    = map (fun block => snippetLen (alen block)) blocks.
Proof.
  intros Hr Hall. induction Hall as [|block rest Hb _ IH]; intros k.
  - reflexivity.
  - cbn [snippetsFromBlocks map].
    destruct (MIN_SNIPPET_LINES <=? alen block) eqn:E1;
      [|apply Z.leb_gt in E1; lia].
    rewrite map_app, IH.
    pose proof (windowBlock_length randomBelow k block Hr Hb) as Hw.
    pose proof (snippetLen_bounds _ Hb) as [Hlo _].
    destruct (MIN_SNIPPET_LINES <=? alen (windowBlock randomBelow k block))
      eqn:E2; [|apply Z.leb_gt in E2; lia].
    cbn. rewrite Hw. reflexivity.
Qed.

(** ** The blocks the scan finishes *)

Ltac split_ifs :=
  repeat match goal with
         | |- context [if ?b then _ else _] => destruct b eqn:?
         end.

Lemma pushIfLongEnough_long blocks cur :
  Forall (fun block => MIN_SNIPPET_LINES <= alen block) blocks ->
  Forall (fun block => MIN_SNIPPET_LINES <= alen block)
         (pushIfLongEnough blocks cur).
Proof.
  intros Hall. unfold pushIfLongEnough, push.
  destruct (MIN_SNIPPET_LINES <=? alen cur) eqn:E; [|assumption].
  apply Forall_app; split; [assumption|].
  constructor; [apply Z.leb_le; assumption|constructor].
Qed.

Lemma scanLine_blocks_long st line :
  Forall (fun block => MIN_SNIPPET_LINES <= alen block) (codeBlocks st) ->
  Forall (fun block => MIN_SNIPPET_LINES <= alen block)
         (codeBlocks (scanLine st line)).
Proof.
  destruct st as [blocks cblocks cur ccur ctx hunk]. cbn [codeBlocks].
  intros Hall.
  assert (Hpush : (MIN_SNIPPET_LINES <=? alen cur) = true ->
                  Forall (fun block => MIN_SNIPPET_LINES <= alen block)
                         (push blocks cur)).
  { intros E. apply Forall_app; split; [assumption|].
    constructor; [apply Z.leb_le; assumption|constructor]. }
  unfold scanLine.
  destruct (startsWith line "@@");
    [cbn [codeBlocks]; apply pushIfLongEnough_long; assumption|].
  split_ifs; cbn [codeBlocks]; auto.
Qed.

Lemma scanLines_blocks_long lines : forall st,
  Forall (fun block => MIN_SNIPPET_LINES <= alen block) (codeBlocks st) ->
  Forall (fun block => MIN_SNIPPET_LINES <= alen block)
         (codeBlocks (scanLines st lines)).
Proof.
  unfold scanLines. induction lines as [|line rest IH]; intros st Hall.
  - assumption.
  - cbn [fold_left]. apply IH, scanLine_blocks_long, Hall.
Qed.

Lemma scanFile_blocks_long lines :
  Forall (fun block => MIN_SNIPPET_LINES <= alen block)
         (codeBlocks (scanFile lines)).
Proof.
  unfold scanFile.
  pose proof (scanLines_blocks_long lines initialScan (Forall_nil _)) as Hall.
  destruct (scanLines initialScan lines) as [blocks cblocks cur ccur ctx hunk].
  cbn [codeBlocks finishScan] in *.
  apply pushIfLongEnough_long, Hall.
Qed.

(** ** Claim C1 *)

(** C1, as stated, fails: a finished code block of five lines (a length in
    [4,12]) is cut to a snippet of four lines, not five. *)
Lemma C1_five_line_block_gives_four :
  let blocks := codeBlocks (scanFile fiveLineHunk) in
  let snippets :=
    fst (extractSnippetsFromFile firstWindow "me" "me@x.org" "0123456789"
                                 true "a.ts" 0 fiveLineHunk) in
  map (fun block => alen block) blocks = [5]
  /\ map (fun s => alen (cs_code s)) snippets = [4]
  /\ map (fun s => alen (cs_code s)) snippets
     <> map (fun block => alen block) blocks.
Proof. repeat split; vm_compute; (reflexivity || discriminate). Qed.

(** C1, amended: every finished code block has at least
    [MIN_SNIPPET_LINES] lines and yields exactly one snippet, whose length
    is [clamp(floor(L * 0.7), 4, min(12, L))]; for [L] = 4, ..., 12 that
    length is 4, 4, 4, 4, 5, 6, 7, 7, 8 (it is [L] only at [L = 4]), and
    for [L = 20] it is 12. *)
Theorem C1_window_length :
  forall randomBelow author email commitHash isMine filename k lines,
    goodDraws randomBelow ->
    Forall (fun block => MIN_SNIPPET_LINES <= alen block)
           (codeBlocks (scanFile lines))
    /\ map (fun s => alen (cs_code s))
           (fst (extractSnippetsFromFile randomBelow author email commitHash
                                         isMine filename k lines))
       = map (fun block => windowLengthSpec (alen block))
             (codeBlocks (scanFile lines))
    /\ map windowLengthSpec [4; 5; 6; 7; 8; 9; 10; 11; 12]
       = [4; 4; 4; 4; 5; 6; 7; 7; 8]
    /\ windowLengthSpec 20 = 12.
Proof.
  intros randomBelow author email commitHash isMine filename k lines Hr.
  pose proof (scanFile_blocks_long lines) as Hlong.
  split; [exact Hlong|]. split; [|split; vm_compute; reflexivity].
  unfold extractSnippetsFromFile. cbn [fst].
  rewrite snippetsFromBlocks_lengths by assumption.
  apply map_ext_in. intros block Hin.
  rewrite Forall_forall in Hlong.
  apply snippetLen_as_clamp, Hlong, Hin.
Qed.

Lemma goodDraws_firstWindow : goodDraws firstWindow.
Proof. intros k n Hn. unfold firstWindow. lia. Qed.

Lemma C1_window_length_witness :
  goodDraws firstWindow
  /\ map (fun s => alen (cs_code s))
         (fst (extractSnippetsFromFile firstWindow "me" "me@x.org" "0123456789"
                                       true "a.ts" 0 fiveLineHunk))
     = map (fun block => windowLengthSpec (alen block))
           (codeBlocks (scanFile fiveLineHunk)).
Proof.
  split; [exact goodDraws_firstWindow|].
  apply (C1_window_length firstWindow "me" "me@x.org" "0123456789" true "a.ts"
                          0%nat fiveLineHunk goodDraws_firstWindow).
Defined.

(* ====================================================================== *)
(** * The block accumulator                                                *)
(* ====================================================================== *)

Lemma addedLine_shape line :
  isAddedLine line = true ->
  exists codeLine, line = String "+" codeLine /\ substringFrom1 line = codeLine
                   /\ startsWith line "@@" = false
                   /\ startsWith line "+" = true
                   /\ startsWith line "+++" = false.
Proof.
  unfold isAddedLine. intros H. apply andb_prop in H as [H1 H2].
  apply negb_true_iff in H2.
  destruct line as [|c r]; [discriminate H1|].
  cbn [startsWith] in H1. apply andb_prop in H1 as [H1 _].
  apply Ascii.eqb_eq in H1. subst c.
  exists r. split; [reflexivity|]. split; [reflexivity|].
  split; [reflexivity|]. split; [reflexivity|exact H2].
Qed.

(** A hunk header empties the code buffer, whatever its length. *)
Lemma scanLine_hunk_header st line :
  startsWith line "@@" = true ->
  currentCodeBlock (scanLine st line) = []
  /\ codeBlocks (scanLine st line)
     = pushIfLongEnough (codeBlocks st) (currentCodeBlock st).
Proof.
  intros H. destruct st as [blocks cblocks cur ccur ctx hunk].
  unfold scanLine. rewrite H. split; reflexivity.
Qed.

(** A context line or a deletion leaves a short code buffer as it is: the
    lines after it are appended to the lines before it. *)
Lemma scanLine_boundary_keeps_short_buffer st line :
  inHunk st = true ->
  startsWith line "@@" = false ->
  startsWith line "+" = false ->
  alen (currentCodeBlock st) < MIN_SNIPPET_LINES ->
  scanLine st line = st.
Proof.
  intros Hh H1 H2 Hshort. destruct st as [blocks cblocks cur ccur ctx hunk].
  cbn in Hh, Hshort. subst hunk. unfold scanLine. rewrite H1, H2.
  cbn [negb andb]. apply Z.leb_gt in Hshort. rewrite Hshort.
  destruct (startsWith line "-" || startsWith line " "); reflexivity.
Qed.

(** So does a noise line, up to closing the comment block. *)
Lemma scanLine_noise_keeps_short_buffer st line :
  inHunk st = true ->
  isAddedLine line = true ->
  isFixedPattern (substringFrom1 line) = false ->
  isCommentLine (substringFrom1 line) = false ->
  isNoiseLine (substringFrom1 line) = true ->
  alen (currentCodeBlock st) < MIN_SNIPPET_LINES ->
  currentCodeBlock (scanLine st line) = currentCodeBlock st
  /\ codeBlocks (scanLine st line) = codeBlocks st.
Proof.
  intros Hh Ha Hf Hc Hn Hshort.
  destruct (addedLine_shape line Ha) as (codeLine & -> & Hsub & H1 & H2 & H3).
  cbn [substringFrom1] in *.
  destruct st as [blocks cblocks cur ccur ctx hunk].
  cbn in Hh, Hshort. subst hunk. apply Z.leb_gt in Hshort.
  unfold scanLine. rewrite H1, H2, H3. cbn [negb andb substringFrom1].
  rewrite Hf, Hc, Hn, Hshort. cbn [negb andb]. split; reflexivity.
Qed.

(** ** Claim C2 *)

(** C2 on the code: a short code buffer is discarded at a hunk header only.
    At a context line, a deletion or a noise line the buffer of two lines is
    kept, and the two lines before the boundary end up in one code block
    with the two lines after it. *)
Theorem C2_short_buffer_survives_boundary :
  let merged := [[ "let total = 0;"; "total = total + price;";
                   "count = count + 1;"; "average = total / count;" ]]%string in
  codeBlocks (scanFile (hunkSplitBy " unchanged context line")) = merged
  /\ codeBlocks (scanFile (hunkSplitBy "-removed line of code")) = merged
  /\ codeBlocks (scanFile (hunkSplitBy "+x = 1;")) = merged
  /\ isNoiseLine "x = 1;" = true
  /\ codeBlocks (scanFile hunkSplitByHeader) = [].
Proof. repeat split; vm_compute; reflexivity. Qed.

(** ** Claim C4 *)

(** C4, as stated, fails: ["// fix bug"] matches a comment-start pattern
    and has 10 characters, and the scan appends it to the code buffer; it
    ends up inside a code block. *)
Lemma C4_short_comment_enters_code_block :
  isAddedLine "+// fix bug" = true
  /\ isCommentLine "// fix bug" = true
  /\ len (trim "// fix bug") = 10
  /\ isNoiseLine "// fix bug" = false
  /\ currentCodeBlock (scanLine oneLineInHunk "+// fix bug")
     = [ "let total = 0;"; "// fix bug" ]%string
  /\ codeBlocks (scanFile shortCommentHunk)
     = [[ "let total = 0;"; "// fix bug"; "total = total + price;";
          "count = count + 1;" ]]%string.
Proof. repeat split; vm_compute; reflexivity. Qed.

Lemma short_line_is_noise codeLine :
  len (trim codeLine) < 8 -> isNoiseLine codeLine = true.
Proof.
  intros H. unfold isNoiseLine.
  destruct (String.eqb (trim codeLine) EmptyString); [reflexivity|].
  apply Z.ltb_lt in H. rewrite H. reflexivity.
Qed.

(** C4, amended: an added line that matches a comment-start pattern and
    whose trimmed length is at most 15 never enters a comment block.  When
    it is boilerplate the scan skips it.  Otherwise it closes the comment
    block in progress and goes through the noise filter: below 8 characters
    it is noise; a noise line enters no block; a line that is not noise
    (8 to 15 characters) is appended to the code buffer as substantive
    code. *)
Theorem C4_short_comment_line :
  forall st line,
    inHunk st = true ->
    isAddedLine line = true ->
    isCommentLine (substringFrom1 line) = true ->
    len (trim (substringFrom1 line)) <= 15 ->
    let codeLine := substringFrom1 line in
    let st' := scanLine st line in
    (isFixedPattern codeLine = true -> st' = st)
    /\ (isFixedPattern codeLine = false ->
        currentCommentBlock st' = []
        /\ commentBlocksWithContext st'
           = (if 0 <? alen (currentCommentBlock st)
              then push (commentBlocksWithContext st)
                        (mkCommentBlock (currentCommentBlock st)
                                        (sliceFrom (contextBuffer st) (-2)))
              else commentBlocksWithContext st)
        /\ (len (trim codeLine) < 8 -> isNoiseLine codeLine = true)
        /\ (isNoiseLine codeLine = true ->
            currentCodeBlock st'
            = (if MIN_SNIPPET_LINES <=? alen (currentCodeBlock st)
               then [] else currentCodeBlock st)
            /\ codeBlocks st'
               = pushIfLongEnough (codeBlocks st) (currentCodeBlock st))
        /\ (isNoiseLine codeLine = false ->
            currentCodeBlock st' = push (currentCodeBlock st) codeLine
            /\ codeBlocks st' = codeBlocks st)).
Proof.
  intros st line Hh Ha Hc Hlen codeLine st'. subst codeLine st'.
  destruct (addedLine_shape line Ha) as (codeLine & -> & Hsub & H1 & H2 & H3).
  cbn [substringFrom1] in *.
  destruct st as [blocks cblocks cur ccur ctx hunk].
  cbn in Hh. subst hunk.
  assert (Hshort : (15 <? len (trim codeLine)) = false)
    by (apply Z.ltb_ge; assumption).
  assert (Hz : (0 <? alen ccur) = match ccur with [] => false | _ => true end).
  { destruct ccur; [reflexivity|]. apply Z.ltb_lt. unfold alen. cbn. lia. }
  unfold scanLine. rewrite H1, H2, H3. cbn [negb andb substringFrom1].
  split.
  - intros Hf. rewrite Hf. reflexivity.
  - intros Hf. rewrite Hf, Hc, Hshort, Hz. cbn [andb].
    destruct (isNoiseLine codeLine) eqn:Hn;
      destruct (MIN_SNIPPET_LINES <=? alen cur) eqn:Hm;
      destruct ccur as [|c0 ccur0];
      cbn [negb currentCommentBlock commentBlocksWithContext
                currentCodeBlock codeBlocks];
      unfold pushIfLongEnough; rewrite ?Hm;
      repeat split; try reflexivity; try discriminate;
      intros Hs; apply short_line_is_noise in Hs; congruence.
Qed.

(* ====================================================================== *)
(** * The question sampler                                                 *)
(* ====================================================================== *)

Lemma zrange_In (n : nat) (z : Z) : 0 <= z <= Z.of_nat n -> In z (zrange n).
Proof.
  intros Hz. unfold zrange. apply in_map_iff. exists (Z.to_nat z).
  split; [lia|]. apply in_seq. lia.
Qed.

(** Below 4097 the double [Q * 0.6] rounds up to the exact [ceil(3Q/5)]. *)
Lemma ceil_six_tenths_exact (Q : Z) :
  0 <= Q <= 4096 ->
  Math_ceil (PrimFloat.mul (ofZ Q) lit_0_6) = ceilSixTenths Q.
Proof.
  intros HQ.
  assert (Hall : forallb (fun q => Math_ceil (PrimFloat.mul (ofZ q) lit_0_6)
                                   =? ceilSixTenths q) (zrange 4096) = true)
    by (vm_compute; reflexivity).
  rewrite forallb_forall in Hall.
  apply Z.eqb_eq, Hall, zrange_In. cbn. lia.
Qed.

Lemma ceilSixTenths_bounds (Q : Z) : 0 <= Q -> 0 <= ceilSixTenths Q <= Q.
Proof.
  intros HQ. unfold ceilSixTenths. split.
  - apply Z.div_pos; lia.
  - assert ((3 * Q + 4) / 5 < Q + 1)
      by (apply Z.div_lt_upper_bound; lia).
    lia.
Qed.

Lemma shuffle_alen shuffle (T : Type) k (l : list T) :
  wellShuffled shuffle -> alen (shuffle T k l) = alen l.
Proof.
  intros Hs. unfold alen. rewrite (Permutation_length (Hs T k l)). reflexivity.
Qed.

Lemma slice_prefix_alen {A} (l : list A) (n : Z) :
  0 <= n <= alen l -> alen (slice l 0 n) = n.
Proof. intros Hn. apply (slice_inside l 0 n); lia. Qed.

Lemma slice_incl {A} (l : list A) (s e : Z) : incl (slice l s e) l.
Proof.
  unfold slice. intros x Hx.
  set (k := Z.to_nat (relIndex (alen l) s)) in *.
  rewrite <- (firstn_skipn k l). apply in_or_app. right.
  set (r := skipn k l) in *.
  rewrite <- (firstn_skipn
                (Z.to_nat (Z.max (relIndex (alen l) e - relIndex (alen l) s) 0))
                r).
  apply in_or_app. left. exact Hx.
Qed.

Section SamplerCounts.

Variable shuffle : forall T : Type, nat -> list T -> list T.
Hypothesis shuffled : wellShuffled shuffle.

Context {T : Type}.
Variables (Q : Z) (k : nat) (mine other : list T).
Hypothesis Q_range : 0 <= Q <= 4096.

Lemma counts_in_range :
  0 <= otherCount Q (alen mine) (alen other) <= alen other
  /\ 0 <= finalMyCount Q (alen mine) (alen other) <= alen mine
  /\ finalMyCount Q (alen mine) (alen other)
     + otherCount Q (alen mine) (alen other) <= Q.
Proof.
  unfold finalMyCount, otherCount, myCount.
  rewrite (ceil_six_tenths_exact Q Q_range).
  pose proof (ceilSixTenths_bounds Q ltac:(lia)).
  pose proof (alen_nonneg mine). pose proof (alen_nonneg other). lia.
Qed.

Lemma mySlice_alen :
  alen (mySlice shuffle Q k mine other)
  = finalMyCount Q (alen mine) (alen other).
Proof.
  unfold mySlice. apply slice_prefix_alen.
  rewrite (shuffle_alen shuffle T k mine shuffled).
  apply counts_in_range.
Qed.

Lemma otherSlice_alen :
  alen (otherSlice shuffle Q k mine other)
  = otherCount Q (alen mine) (alen other).
Proof.
  unfold otherSlice. apply slice_prefix_alen.
  rewrite (shuffle_alen shuffle T (S k) other shuffled).
  apply counts_in_range.
Qed.

Lemma selectQuestions_alen :
  alen (selectQuestions shuffle Q k mine other)
  = finalMyCount Q (alen mine) (alen other)
    + otherCount Q (alen mine) (alen other).
Proof.
  unfold selectQuestions.
  rewrite (shuffle_alen shuffle T _ _ shuffled), alen_app.
  rewrite mySlice_alen, otherSlice_alen. reflexivity.
Qed.

Lemma mySlice_incl : incl (mySlice shuffle Q k mine other) mine.
Proof.
  unfold mySlice. intros x Hx. apply slice_incl in Hx.
  apply (Permutation_in _ (shuffled T k mine) Hx).
Qed.

Lemma otherSlice_incl : incl (otherSlice shuffle Q k mine other) other.
Proof.
  unfold otherSlice. intros x Hx. apply slice_incl in Hx.
  apply (Permutation_in _ (shuffled T (S k) other) Hx).
Qed.

End SamplerCounts.

(** ** Claim C8 *)

(** C8: for every pool of self-authored and of other-authored snippets and
    every target [Q] (up to 4096, where [Math.ceil(Q * 0.6)] on doubles is
    the exact ceiling), the sampler takes
    [finalSelfShare = min(Q - otherShare, selfPoolSize)] questions from the
    self pool and [otherShare = min(Q - selfShare, otherPoolSize)] from the
    other pool, with [selfShare = min(ceil(Q * 0.6), selfPoolSize)], and
    the question list is these two parts in some order; with pools of 2
    and 20 and [Q = 10] the shares are 2 and 8 and the total is 10. *)
Theorem C8_sampler_shares :
  forall shuffle, wellShuffled shuffle ->
  forall (T : Type) (Q : Z) (k : nat) (mine other : list T),
    0 <= Q <= 4096 ->
    let selfShare := Z.min (ceilSixTenths Q) (alen mine) in
    let otherShare := Z.min (Q - selfShare) (alen other) in
    let finalSelfShare := Z.min (Q - otherShare) (alen mine) in
    alen (mySlice shuffle Q k mine other) = finalSelfShare
    /\ incl (mySlice shuffle Q k mine other) mine
    /\ alen (otherSlice shuffle Q k mine other) = otherShare
    /\ incl (otherSlice shuffle Q k mine other) other
    /\ Permutation (selectQuestions shuffle Q k mine other)
                   (mySlice shuffle Q k mine other
                    ++ otherSlice shuffle Q k mine other)
    /\ (alen mine = 2 -> alen other = 20 -> Q = 10 ->
        finalSelfShare = 2 /\ otherShare = 8
        /\ alen (selectQuestions shuffle Q k mine other) = 10).
Proof.
  intros shuffle Hs T Q k mine other HQ selfShare otherShare finalSelfShare.
  assert (Hother : otherCount Q (alen mine) (alen other) = otherShare).
  { unfold otherCount, myCount. rewrite (ceil_six_tenths_exact Q HQ).
    reflexivity. }
  assert (Hfinal : finalMyCount Q (alen mine) (alen other) = finalSelfShare).
  { unfold finalMyCount. rewrite Hother. reflexivity. }
  split; [rewrite <- Hfinal; apply mySlice_alen; assumption|].
  split; [apply mySlice_incl; assumption|].
  split; [rewrite <- Hother; apply otherSlice_alen; assumption|].
  split; [apply otherSlice_incl; assumption|].
  split; [apply Hs|].
  intros Hm Ho HQ10.
  rewrite (selectQuestions_alen shuffle Hs Q k mine other HQ), Hother, Hfinal.
  subst finalSelfShare otherShare selfShare. rewrite Hm, Ho, HQ10.
  vm_compute. repeat split; reflexivity.
Qed.

Lemma wellShuffled_noShuffle : wellShuffled noShuffle.
Proof. intros T k l. apply Permutation_refl. Qed.

Lemma C8_sampler_shares_witness :
  wellShuffled noShuffle
  /\ 0 <= 10 <= 4096
  /\ alen (mySlice noShuffle 10 0 [1; 2] (zrange 19)) = 2
  /\ alen (otherSlice noShuffle 10 0 [1; 2] (zrange 19)) = 8
  /\ alen (selectQuestions noShuffle 10 0 [1; 2] (zrange 19)) = 10.
Proof.
  assert (HQ : 0 <= 10 <= 4096) by lia.
  split; [exact wellShuffled_noShuffle|]. split; [exact HQ|].
  destruct (C8_sampler_shares noShuffle wellShuffled_noShuffle Z 10 0%nat
                              [1; 2] (zrange 19) HQ)
    as (H1 & _ & H2 & _ & _ & H3).
  split; [exact H1|]. split; [exact H2|].
  apply H3; reflexivity.
Defined.

(** ** Claim C3 *)

(** C3, as stated, fails: with three code questions and no comment
    question at all, [scanCode] sets no error and shows the ready screen. *)
Lemma C3_comment_shortfall_does_not_abort :
  let st := scanCode noShuffle beforeScan threeOfMine [] [] in
  alen (memoryQuestions st) = 3
  /\ alen (commentQuestions st) < 3
  /\ app_error st = None
  /\ render st = PhaseScreen phase_ready.
Proof. vm_compute. repeat split; reflexivity. Qed.

(** C3, amended: after sampling, the run fails with the insufficient
    material error exactly when the code track has fewer than 3 questions;
    with 3 code questions or more the quiz is ready, whatever the number of
    comment questions. *)
Theorem C3_insufficient_code_material :
  forall shuffle st codeSnippets commentSnippets velocityStats,
    app_error st = None ->
    let st' := scanCode shuffle st codeSnippets commentSnippets velocityStats in
    (alen (memoryQuestions st') < 3 ->
     render st' = ErrorScreen TooFewCodeSnippets)
    /\ (3 <= alen (memoryQuestions st') ->
        render st' = PhaseScreen phase_ready).
Proof.
  intros shuffle st codeSnippets commentSnippets velocityStats Herr st'.
  subst st'. unfold scanCode.
  set (memQs := selectQuestions shuffle MEMORY_QUESTIONS 0 _ _).
  set (commentQs := selectQuestions shuffle COMMENT_QUESTIONS 3 _ _).
  destruct (alen memQs <? 3) eqn:E.
  - apply Z.ltb_lt in E. split; [reflexivity|].
    cbn [setError memoryQuestions]. lia.
  - apply Z.ltb_ge in E. split.
    + cbn [setPhase memoryQuestions]. lia.
    + intros _. unfold render. cbn. rewrite Herr. reflexivity.
Qed.

Lemma C3_insufficient_code_material_witness :
  app_error beforeScan = None
  /\ render (scanCode noShuffle beforeScan threeOfMine [] [])
     = PhaseScreen phase_ready
  /\ render (scanCode noShuffle beforeScan [] [] [])
     = ErrorScreen TooFewCodeSnippets.
Proof.
  assert (H0 : app_error beforeScan = None) by reflexivity.
  split; [exact H0|]. split.
  - apply (C3_insufficient_code_material noShuffle beforeScan threeOfMine
                                         [] [] H0).
    vm_compute. discriminate.
  - apply (C3_insufficient_code_material noShuffle beforeScan [] [] [] H0).
    vm_compute. reflexivity.
Defined.

(* ====================================================================== *)
(** * Rounding a double                                                    *)
(* ====================================================================== *)

Lemma digits2_pos_lower (m : positive) :
  2 ^ Z.pos (digits2_pos m) <= 2 * Z.pos m.
Proof.
  induction m as [p IH|p IH|]; cbn [digits2_pos];
    rewrite ?Pos2Z.inj_succ, ?Z.pow_succ_r by lia; lia.
Qed.

Lemma digits2_pos_upper (m : positive) :
  Z.pos m < 2 ^ Z.pos (digits2_pos m).
Proof.
  induction m as [p IH|p IH|]; cbn [digits2_pos];
    rewrite ?Pos2Z.inj_succ, ?Z.pow_succ_r by lia; lia.
Qed.

(** The mantissa of a double has at most 53 bits, and exactly 53 when the
    exponent is above the subnormal one. *)
Lemma mantissa_bounds (x : float) (s : bool) (m : positive) (e : Z) :
  Prim2SF x = S754_finite s m e ->
  Z.pos m < 2 ^ 53 /\ (-1074 < e -> 2 ^ 52 <= Z.pos m).
Proof.
  intros E. pose proof (Prim2SF_valid x) as Hv. rewrite E in Hv.
  unfold valid_binary, bounded, canonical_mantissa, fexp, SpecFloat.emin,
    prec, emax in Hv.
  apply andb_prop in Hv as [Hc _]. apply Z.eqb_eq in Hc.
  pose proof (digits2_pos_lower m) as Hlo.
  pose proof (digits2_pos_upper m) as Hup.
  split.
  - assert (2 ^ Z.pos (digits2_pos m) <= 2 ^ 53)
      by (apply Z.pow_le_mono_r; lia).
    lia.
  - intros He.
    assert (Z.pos (digits2_pos m) = 53) as Hdig by lia.
    rewrite Hdig in Hlo. change (2 ^ 53) with (2 * 2 ^ 52) in Hlo. lia.
Qed.

Lemma round_lower_bound (n d k : Z) :
  0 < d -> 2 * d * k <= 2 * n + d -> k <= (2 * n + d) / (2 * d).
Proof. intros Hd H. apply Z.div_le_lower_bound; lia. Qed.

Lemma round_upper_bound (n d k : Z) :
  0 < d -> 2 * n < (2 * k + 1) * d -> (2 * n + d) / (2 * d) <= k.
Proof.
  intros Hd H.
  assert ((2 * n + d) / (2 * d) < k + 1)
    by (apply Z.div_lt_upper_bound; lia).
  lia.
Qed.

(** A double above 100 rounds to 100 at least. *)
Lemma Math_round_above_100 (x : float) :
  PrimFloat.ltb (ofZ 100) x = true -> 100 <= Math_round x.
Proof.
  intros H. rewrite ltb_spec in H.
  assert (H100 : Prim2SF (ofZ 100) = S754_finite false 7036874417766400 (-46))
    by (vm_compute; reflexivity).
  rewrite H100 in H. clear H100.
  unfold Math_round, valueOf.
  destruct (Prim2SF x) as [s|s| |s m e] eqn:E;
    unfold SFltb, SFcompare in H; cbv beta iota in H; try discriminate H.
  - destruct s; [discriminate H|]. vm_compute. discriminate.
  - destruct s; [discriminate H|].
    destruct (mantissa_bounds x false m e E) as [_ Hm].
    destruct (Z.compare_spec (-46) e) as [He|He|He]; try discriminate H.
    + subst e. change (0 <=? -46) with false. cbv beta iota.
      change (- -46) with 46.
      assert (Hlt : (7036874417766400 < m)%positive).
      { destruct (Pos.compare_cont Eq 7036874417766400 m) eqn:Ec;
          try discriminate H.
        apply Pos.compare_lt_iff. exact Ec. }
      apply round_lower_bound; [reflexivity|].
      change (2 ^ 46) with 70368744177664. lia.
    + specialize (Hm ltac:(lia)).
      change (2 ^ 52) with 4503599627370496 in Hm.
      destruct (0 <=? e) eqn:E0.
      * apply Z.leb_le in E0. apply round_lower_bound; [lia|].
        assert (1 <= 2 ^ e) by (apply (Z.pow_le_mono_r 2 0 e); lia).
        nia.
      * apply Z.leb_gt in E0.
        assert (0 < 2 ^ (- e)) by (apply Z.pow_pos_nonneg; lia).
        assert (2 ^ (- e) <= 2 ^ 45) by (apply Z.pow_le_mono_r; lia).
        apply round_lower_bound; [lia|].
        change (2 ^ 45) with 35184372088832 in *. lia.
Qed.

(** A double that is not below 0 rounds to 0 at least. *)
Lemma Math_round_nonneg (x : float) :
  PrimFloat.leb (ofZ 0) x = true -> 0 <= Math_round x.
Proof.
  intros H. rewrite leb_spec in H.
  change (Prim2SF (ofZ 0)) with (S754_zero false) in H.
  unfold Math_round, valueOf.
  destruct (Prim2SF x) as [s|s| |s m e];
    unfold SFleb, SFcompare in H; cbv beta iota in H; try discriminate H.
  - cbv beta iota. change ((2 * 0 + 1) / (2 * 1)) with 0. lia.
  - destruct s; [discriminate H|]. unfold infinity.
    assert (0 < 2 ^ 1024) by (apply Z.pow_pos_nonneg; lia). lia.
  - destruct s; [discriminate H|].
    destruct (0 <=? e) eqn:E0.
    + apply Z.leb_le in E0. apply round_lower_bound; [lia|].
      assert (0 < 2 ^ e) by (apply Z.pow_pos_nonneg; lia). nia.
    + apply Z.leb_gt in E0.
      assert (0 < 2 ^ (- e)) by (apply Z.pow_pos_nonneg; lia).
      apply round_lower_bound; lia.
Qed.

(** A double below [k + 1/2], for [k] between 64 and 127, rounds to [k] at
    most: [t] is the double [k + 1/2], of mantissa [mt] and exponent -46. *)
Lemma Math_round_below (x t : float) (mt : positive) (k : Z) :
  Prim2SF t = S754_finite false mt (-46) ->
  2 * Z.pos mt <= (2 * k + 1) * 2 ^ 46 ->
  64 <= k ->
  PrimFloat.ltb x t = true -> Math_round x <= k.
Proof.
  intros Ht Hmt Hk H. rewrite ltb_spec, Ht in H.
  unfold Math_round, valueOf.
  change (2 ^ 46) with 70368744177664 in Hmt.
  destruct (Prim2SF x) as [s|s| |s m e] eqn:E;
    unfold SFltb, SFcompare in H; cbv beta iota in H; try discriminate H.
  - cbv beta iota. change ((2 * 0 + 1) / (2 * 1)) with 0. lia.
  - destruct s; [|discriminate H]. unfold infinity.
    assert (0 < 2 ^ 1024) by (apply Z.pow_pos_nonneg; lia). lia.
  - destruct (mantissa_bounds x s m e E) as [Hm _].
    change (2 ^ 53) with 9007199254740992 in Hm.
    destruct s.
    + (* a negative double rounds to 0 at most *)
      destruct (0 <=? e) eqn:E0.
      * apply Z.leb_le in E0. apply round_upper_bound; [lia|].
        assert (0 < 2 ^ e) by (apply Z.pow_pos_nonneg; lia).
        assert (Z.neg m * 2 ^ e < 0) by (apply Z.mul_neg_pos; lia).
        lia.
      * apply Z.leb_gt in E0.
        assert (0 < 2 ^ (- e)) by (apply Z.pow_pos_nonneg; lia).
        apply round_upper_bound; [lia|].
        assert (0 < (2 * k + 1) * 2 ^ (- e)) by (apply Z.mul_pos_pos; lia).
        lia.
    + destruct (Z.compare_spec e (-46)) as [He|He|He]; try discriminate H.
      * subst e. change (0 <=? -46) with false. cbv beta iota.
        change (- -46) with 46.
        assert (Hlt : (m < mt)%positive).
        { destruct (Pos.compare_cont Eq m mt) eqn:Ec; try discriminate H.
          apply Pos.compare_lt_iff. exact Ec. }
        apply round_upper_bound; [reflexivity|].
        change (2 ^ 46) with 70368744177664. lia.
      * assert (E0 : (0 <=? e) = false) by (apply Z.leb_gt; lia).
        rewrite E0.
        assert (2 ^ 47 <= 2 ^ (- e)) by (apply Z.pow_le_mono_r; lia).
        change (2 ^ 47) with 140737488355328 in *.
        apply round_upper_bound; [lia|]. nia.
Qed.

(* ====================================================================== *)
(** * The track score                                                      *)
(* ====================================================================== *)

Lemma upTo_In (n k : nat) : (k <= n)%nat -> In k (upTo n).
Proof. intros H. unfold upTo. apply in_seq. lia. Qed.

Lemma forTallies_spec N p :
  forTallies N p = true ->
  forall a b m c o : nat,
    (a + b <= m)%nat -> (m <= N)%nat -> (c <= o)%nat -> (o <= N)%nat ->
    p a b m c o = true.
Proof.
  unfold forTallies. intros H a b m c o Hab Hm Hc Ho.
  rewrite forallb_forall in H. specialize (H m (upTo_In _ _ Hm)).
  rewrite forallb_forall in H. specialize (H a (upTo_In m a ltac:(lia))).
  rewrite forallb_forall in H.
  specialize (H b (upTo_In (m - a) b ltac:(lia))).
  rewrite forallb_forall in H. specialize (H o (upTo_In _ _ Ho)).
  rewrite forallb_forall in H. exact (H c (upTo_In _ _ Hc)).
Qed.

Lemma forTallySums_spec N q :
  forTallySums N q = true ->
  forall a b m c o : nat,
    (a + b <= m)%nat -> (m <= N)%nat -> (c <= o)%nat -> (o <= N)%nat ->
    q (tallySum a b m c o) = true.
Proof.
  unfold forTallySums. intros H a b m c o Hab Hm Hc Ho.
  rewrite forallb_forall in H. specialize (H m (upTo_In _ _ Hm)).
  rewrite forallb_forall in H. specialize (H a (upTo_In m a ltac:(lia))).
  rewrite forallb_forall in H.
  specialize (H b (upTo_In (m - a) b ltac:(lia))).
  cbv zeta in H. rewrite forallb_forall in H.
  change (tallySum a b m c o)
    with (PrimFloat.add (ownPart a b m) (otherPart c o)).
  apply (H (otherPart c o)).
  unfold otherParts. apply in_flat_map. exists o.
  split; [apply upTo_In, Ho|].
  apply (in_map (fun c' => otherPart c' o)), upTo_In, Hc.
Qed.

(** By evaluation of the binary64 sum on every tally of at most 20 and 20
    answers. *)
Lemma tally_sums_below : forTallySums 20 inScoreRange = true.
Proof. vm_compute. reflexivity. Qed.

(** By evaluation on every tally of at most 14 answers in all. *)
Lemma tally_sums_round_exactly :
  forTallies 14 (withinCapacity 14 roundsExactly) = true.
Proof. vm_compute. reflexivity. Qed.

Lemma alen_cons {A} (x : A) (l : list A) : alen (x :: l) = alen l + 1.
Proof. unfold alen. cbn [List.length]. lia. Qed.

Lemma countOf_cons t a l :
  countOf t (a :: l)
  = (if AnswerType_eqb (type a) t then 1 else 0) + countOf t l.
Proof.
  unfold countOf. cbn [filter].
  destruct (AnswerType_eqb (type a) t); [rewrite alen_cons|]; lia.
Qed.

Lemma countOf_nonneg t l : 0 <= countOf t l.
Proof. apply alen_nonneg. Qed.

Lemma countOf_total l :
  countOf remember l + countOf familiar l + countOf uncertain l
  + countOf foreign l = alen l.
Proof.
  induction l as [|a l IH]; [reflexivity|].
  rewrite !countOf_cons, alen_cons.
  destruct (type a); cbn [AnswerType_eqb]; lia.
Qed.

(** The first loop counts the four confidence levels. *)
Lemma tallyMine_fold l : forall r f u m,
  fold_left tallyMine l (r, f, u, m)
  = (r + countOf remember l, f + countOf familiar l,
     u + countOf uncertain l, m + countOf foreign l).
Proof.
  induction l as [|a l IH]; intros r f u m.
  - cbn. unfold countOf, alen. cbn. rewrite !Z.add_0_r. reflexivity.
  - cbn [fold_left]. rewrite !countOf_cons. unfold tallyMine at 2.
    destruct (type a); rewrite IH; cbn [AnswerType_eqb];
      repeat apply (f_equal2 (@pair _ _)); lia.
Qed.

(** The second loop counts the false memories and the rejections. *)
Lemma tallyOther_fold l : forall c f,
  fold_left tallyOther l (c, f)
  = (c + (countOf uncertain l + countOf foreign l),
     f + (countOf remember l + countOf familiar l)).
Proof.
  induction l as [|a l IH]; intros c f.
  - cbn. unfold countOf, alen. cbn. rewrite !Z.add_0_r. reflexivity.
  - cbn [fold_left]. rewrite !countOf_cons. unfold tallyOther at 2.
    destruct (type a); rewrite IH; cbn [AnswerType_eqb];
      repeat apply (f_equal2 (@pair _ _)); lia.
Qed.

Lemma orOne_max (n : Z) : 0 <= n -> orOne n = Z.max 1 n.
Proof.
  intros Hn. unfold orOne. destruct (n =? 0) eqn:E.
  - apply Z.eqb_eq in E. subst n. reflexivity.
  - apply Z.eqb_neq in E. lia.
Qed.

(** [calculateVibeMetrics] in terms of the counts. *)
Lemma calculateVibeMetrics_counts log :
  calculateVibeMetrics log
  = mkVibeMetrics
      (alen (selfAnswers log)) (alen (otherAnswers log))
      (countOf remember (selfAnswers log))
      (countOf familiar (selfAnswers log))
      (countOf uncertain (selfAnswers log))
      (countOf foreign (selfAnswers log))
      (correctlyRejectedCount log) (falseMemoryCount log)
      (Z.min 100
         (Math_round
            (vibeSum (countOf uncertain (selfAnswers log))
                     (countOf foreign (selfAnswers log))
                     (countOf familiar (selfAnswers log))
                     (Z.max 1 (alen (selfAnswers log)))
                     (falseMemoryCount log)
                     (Z.max 1 (alen (otherAnswers log)))))).
Proof.
  unfold calculateVibeMetrics.
  fold (selfAnswers log). fold (otherAnswers log).
  rewrite tallyMine_fold, tallyOther_fold.
  rewrite !orOne_max by apply alen_nonneg.
  unfold correctlyRejectedCount, falseMemoryCount. cbn [Z.add].
  reflexivity.
Qed.

Lemma vibeScore_spec log :
  vibeScore (calculateVibeMetrics log) = trackScoreSpec log.
Proof. rewrite calculateVibeMetrics_counts. reflexivity. Qed.

(** The counts of a log, as naturals, form a tally. *)
Lemma vibeSum_tally (u f b m c1 c2 o : nat) :
  vibeSum (Z.of_nat u) (Z.of_nat f) (Z.of_nat b) (Z.max 1 (Z.of_nat m))
          (Z.of_nat c1 + Z.of_nat c2) (Z.max 1 (Z.of_nat o))
  = tallySum (u + f) b m (c1 + c2) o.
Proof.
  unfold tallySum.
  rewrite <- !orOne_max by lia.
  unfold vibeSum. rewrite !Nat2Z.inj_add, Z.add_0_r. reflexivity.
Qed.

Lemma self_other_partition log :
  alen (selfAnswers log) + alen (otherAnswers log) = alen log.
Proof.
  unfold selfAnswers, otherAnswers.
  induction log as [|a log IH]; [reflexivity|].
  cbn [filter]. destruct (isMyCode a); cbn [negb];
    rewrite !alen_cons; lia.
Qed.

Lemma log_tally log :
  exists a b m c o : nat,
    vibeSum (countOf uncertain (selfAnswers log))
            (countOf foreign (selfAnswers log))
            (countOf familiar (selfAnswers log))
            (Z.max 1 (alen (selfAnswers log)))
            (falseMemoryCount log)
            (Z.max 1 (alen (otherAnswers log)))
    = tallySum a b m c o
    /\ (a + b <= m)%nat /\ (c <= o)%nat
    /\ Z.of_nat m = alen (selfAnswers log)
    /\ Z.of_nat o = alen (otherAnswers log)
    /\ Z.of_nat a
       = countOf uncertain (selfAnswers log) + countOf foreign (selfAnswers log)
    /\ Z.of_nat b = countOf familiar (selfAnswers log)
    /\ Z.of_nat c = falseMemoryCount log.
Proof.
  pose proof (countOf_total (selfAnswers log)) as Hs.
  pose proof (countOf_total (otherAnswers log)) as Ho.
  pose proof (countOf_nonneg remember (selfAnswers log)).
  pose proof (countOf_nonneg uncertain (otherAnswers log)).
  pose proof (countOf_nonneg foreign (otherAnswers log)).
  unfold falseMemoryCount, countOf, alen in *.
  eexists (_ + _)%nat, _, _, (_ + _)%nat, _.
  split; [apply vibeSum_tally|].
  repeat split; lia.
Qed.

(** On at most 20 answers of each ownership the rounded sum lies between 0
    and 70: the clamp at 100 leaves it as it is. *)
Lemma rounded_sum_range log :
  alen (selfAnswers log) <= 20 ->
  alen (otherAnswers log) <= 20 ->
  0 <= Math_round
         (vibeSum (countOf uncertain (selfAnswers log))
                  (countOf foreign (selfAnswers log))
                  (countOf familiar (selfAnswers log))
                  (Z.max 1 (alen (selfAnswers log)))
                  (falseMemoryCount log)
                  (Z.max 1 (alen (otherAnswers log)))) <= 70.
Proof.
  intros Hs Ho.
  destruct (log_tally log) as (a & b & m & c & o & -> & Hab & Hc & Hm & Hoo & _).
  rewrite <- Hm in Hs. rewrite <- Hoo in Ho.
  pose proof (forTallySums_spec 20 inScoreRange tally_sums_below
                                a b m c o Hab ltac:(lia) Hc ltac:(lia)) as H.
  unfold inScoreRange in H. apply andb_prop in H as [Hlo Hhi].
  split; [apply Math_round_nonneg, Hlo|].
  apply (Math_round_below _ 70.5%float 4960996464525312);
    [vm_compute; reflexivity|vm_compute; discriminate|lia|exact Hhi].
Qed.

(** On at most 14 answers the binary64 arithmetic rounds as exact
    arithmetic does. *)
Lemma vibeScore_exact log :
  alen log <= 14 ->
  vibeScore (calculateVibeMetrics log) = trackScoreExact log.
Proof.
  intros Hlen. rewrite calculateVibeMetrics_counts. cbn [vibeScore].
  unfold trackScoreExact. f_equal.
  pose proof (self_other_partition log) as Hp.
  destruct (log_tally log)
    as (a & b & m & c & o & -> & Hab & Hc & Hm & Ho & <- & <- & <-).
  rewrite <- Hm, <- Ho in *. rewrite <- !orOne_max by lia.
  pose proof (forTallies_spec 14 _ tally_sums_round_exactly _ _ _ _ _
                              Hab ltac:(lia) Hc ltac:(lia)) as H.
  unfold withinCapacity in H.
  destruct (m + o <=? 14)%nat eqn:E; [|apply Nat.leb_gt in E; lia].
  apply Z.eqb_eq in H. exact H.
Qed.

(** ** Claim C5 *)

(** C5: for every answer log the track score of [calculateVibeMetrics] is
    [min(100, round(forgetRate * 50 + fuzzyRate * 30 + falseMemoryRate * 20))]
    with the rates over [max(1, selfAnswerCount)] and
    [max(1, otherAnswerCount)]; every log with 10 answers on one's own code
    (5 remember, 2 familiar, 2 uncertain, 1 foreign) and 10 on the code of
    others (3 false memories) scores 27; and on the logs a track can hold
    (up to 14 answers) the score is the one of exact arithmetic. *)
Theorem C5_track_score :
  (forall log, vibeScore (calculateVibeMetrics log) = trackScoreSpec log)
  /\ (forall log,
         alen (selfAnswers log) = 10 ->
         countOf remember (selfAnswers log) = 5 ->
         countOf familiar (selfAnswers log) = 2 ->
         countOf uncertain (selfAnswers log) = 2 ->
         countOf foreign (selfAnswers log) = 1 ->
         alen (otherAnswers log) = 10 ->
         falseMemoryCount log = 3 ->
         correctlyRejectedCount log = 7 ->
         vibeScore (calculateVibeMetrics log) = 27)
  /\ (forall log, alen log <= 14 ->
                  vibeScore (calculateVibeMetrics log) = trackScoreExact log).
Proof.
  split; [exact vibeScore_spec|]. split; [|exact vibeScore_exact].
  intros log Hs _ Hf Hu Hm Ho Hfm _.
  rewrite vibeScore_spec. unfold trackScoreSpec.
  rewrite Hs, Hf, Hu, Hm, Ho, Hfm. vm_compute. reflexivity.
Qed.

Lemma C5_track_score_witness :
  vibeScore (calculateVibeMetrics exampleLog) = 27
  /\ alen (sliceFrom exampleLog 6) <= 14
  /\ vibeScore (calculateVibeMetrics (sliceFrom exampleLog 6))
     = trackScoreExact (sliceFrom exampleLog 6).
Proof.
  destruct C5_track_score as (_ & H27 & Hexact).
  split; [apply H27; reflexivity|].
  assert (Hlen : alen (sliceFrom exampleLog 6) <= 14)
    by (vm_compute; discriminate).
  split; [exact Hlen|]. apply Hexact, Hlen.
Defined.

(** Beyond 14 answers binary64 rounding can differ from exact rounding:
    with twelve answers on one's own code (eight forgotten, one familiar)
    and three on the code of others (one false memory) the sum is
    42.49999999999999 in doubles and 42.5 exactly. *)
Lemma rounding_differs_at_fifteen_answers :
  alen fifteenAnswers = 15
  /\ vibeScore (calculateVibeMetrics fifteenAnswers) = 42
  /\ trackScoreExact fifteenAnswers = 43.
Proof. repeat split; vm_compute; reflexivity. Qed.

(* ====================================================================== *)
(** * The composite score                                                  *)
(* ====================================================================== *)

Lemma compositeScore_le_100 c m n : compositeScore c m n <= 100.
Proof. unfold compositeScore. lia. Qed.

Lemma compositeScore_clamps c m n :
  PrimFloat.ltb (ofZ 100) (weightedSum c m (velocityBonus n)) = true ->
  compositeScore c m n = 100.
Proof.
  intros H. apply Math_round_above_100 in H. unfold compositeScore. lia.
Qed.

(** ** Claim C6 *)

(** C6: the total of [ResultScreen] is
    [min(100, round(codeScore * 0.5 + commentScore * 0.35 + velocityBonus))]
    with [velocityBonus = min(highOutputDayCount * 3, 15)]; it never
    exceeds 100, and for every sub-scores and day count whose weighted sum
    exceeds 100 it is exactly 100. *)
Theorem C6_composite_score :
  (forall r : QuizResult,
      let codeScore :=
        vibeScore (calculateVibeMetrics (answers (qr_memory r))) in
      let commentScore :=
        vibeScore (calculateVibeMetrics (answers (qr_comment r))) in
      let highOutputDayCount := alen (velocity r) in
      let bonus := Z.min (highOutputDayCount * 3) 15 in
      totalScore r
      = Z.min 100 (Math_round (ofZ codeScore * lit_0_5
                               + ofZ commentScore * lit_0_35
                               + ofZ bonus)%float))
  /\ (forall codeScore commentScore highOutputDayCount : Z,
         compositeScore codeScore commentScore highOutputDayCount <= 100
         /\ (PrimFloat.ltb
               (ofZ 100)
               (ofZ codeScore * lit_0_5 + ofZ commentScore * lit_0_35
                + ofZ (Z.min (highOutputDayCount * 3) 15))%float = true ->
             compositeScore codeScore commentScore highOutputDayCount = 100)).
Proof.
  split.
  - intros r. reflexivity.
  - intros c m n. split; [apply compositeScore_le_100|].
    apply compositeScore_clamps.
Qed.

Lemma C6_composite_score_witness :
  PrimFloat.ltb (ofZ 100)
                (ofZ 200 * lit_0_5 + ofZ 100 * lit_0_35
                 + ofZ (Z.min (5 * 3) 15))%float = true
  /\ compositeScore 200 100 5 = 100.
Proof.
  assert (H : PrimFloat.ltb (ofZ 100)
                (ofZ 200 * lit_0_5 + ofZ 100 * lit_0_35
                 + ofZ (Z.min (5 * 3) 15))%float = true)
    by (vm_compute; reflexivity).
  split; [exact H|].
  destruct C6_composite_score as [_ Hc].
  destruct (Hc 200 100 5) as [_ Hclamp]. apply Hclamp, H.
Defined.

(* ====================================================================== *)
(** * The scores a run can reach                                           *)
(* ====================================================================== *)

(** By evaluation: the weighted sums of two track scores up to 70 and a
    bonus up to 15 stay below 75.5. *)
Lemma composite_sums_below :
  forallb (fun c =>
    forallb (fun m =>
      forallb (fun bonus =>
        PrimFloat.ltb (weightedSum c m bonus) 75.5%float)
        (zrange 15))
      (zrange 70))
    (zrange 70) = true.
Proof. vm_compute. reflexivity. Qed.

Lemma compositeScore_le_75 c m n :
  0 <= c <= 70 -> 0 <= m <= 70 -> 0 <= n -> compositeScore c m n <= 75.
Proof.
  intros Hc Hm Hn. unfold compositeScore.
  assert (Hb : 0 <= velocityBonus n <= 15) by (unfold velocityBonus; lia).
  pose proof composite_sums_below as H.
  rewrite forallb_forall in H.
  specialize (H c (zrange_In 70 c ltac:(cbn; lia))).
  rewrite forallb_forall in H.
  specialize (H m (zrange_In 70 m ltac:(cbn; lia))).
  rewrite forallb_forall in H.
  specialize (H (velocityBonus n)
                (zrange_In 15 (velocityBonus n) ltac:(cbn; lia))).
  pose proof (Math_round_below _ 75.5%float 5312840185413632 75
                ltac:(vm_compute; reflexivity)
                ltac:(vm_compute; discriminate) ltac:(lia) H).
  lia.
Qed.

Lemma vibeScore_range log :
  alen (selfAnswers log) <= 20 ->
  alen (otherAnswers log) <= 20 ->
  0 <= vibeScore (calculateVibeMetrics log) <= 70.
Proof.
  intros Hs Ho. rewrite calculateVibeMetrics_counts. cbn [vibeScore].
  pose proof (rounded_sum_range log Hs Ho). lia.
Qed.

Lemma rating_below_100 score : score < 100 -> getVibeRating score <> AIPuppet.
Proof.
  intros H. unfold getVibeRating.
  destruct (score <? 100) eqn:E; [|apply Z.ltb_ge in E; lia].
  split_ifs; discriminate.
Qed.

(** ** The logs of a run *)

Lemma at_Some {A} (l : list A) (i : Z) (x : A) :
  at_ l i = Some x -> 0 <= i < alen l.
Proof.
  unfold at_. destruct (i <? 0) eqn:E; [discriminate|].
  apply Z.ltb_ge in E. intros H.
  assert (nth_error l (Z.to_nat i) <> None) as Hn by congruence.
  apply nth_error_Some in Hn. unfold alen. lia.
Qed.

Lemma render_phase st p :
  render st = PhaseScreen p -> app_error st = None /\ app_phase st = p.
Proof.
  unfold render. destruct (app_error st); [discriminate|].
  intros H. injection H as ->. split; reflexivity.
Qed.

Lemma selectQuestions_within shuffle (T : Type) (k : nat)
      (mine other : list T) :
  wellShuffled shuffle ->
  alen (selectQuestions shuffle 10 k mine other) <= 10.
Proof.
  intros Hs.
  rewrite (selectQuestions_alen shuffle Hs 10 k mine other ltac:(lia)).
  apply (counts_in_range 10 mine other ltac:(lia)).
Qed.

Lemma scanCode_logs shuffle codeSnippets commentSnippets velocityStats :
  wellShuffled shuffle ->
  logsWithinQuestions
    (scanCode shuffle beforeScan codeSnippets commentSnippets velocityStats).
Proof.
  intros Hs. unfold scanCode.
  set (memQs := selectQuestions shuffle MEMORY_QUESTIONS 0 _ _).
  set (commentQs := selectQuestions shuffle COMMENT_QUESTIONS 3 _ _).
  assert (alen memQs <= 10) by (apply selectQuestions_within, Hs).
  assert (alen commentQs <= 10) by (apply selectQuestions_within, Hs).
  pose proof (alen_nonneg memQs). pose proof (alen_nonneg commentQs).
  unfold logsWithinQuestions, MEMORY_QUESTIONS, COMMENT_QUESTIONS.
  destruct (alen memQs <? 3); cbn; repeat split;
    try assumption; try discriminate.
Qed.

Lemma startGame_logs st :
  logsWithinQuestions st -> logsWithinQuestions (startGame st).
Proof.
  intros (Hm & Hc & _). unfold logsWithinQuestions, startGame. cbn.
  pose proof (alen_nonneg (memoryQuestions st)).
  pose proof (alen_nonneg (commentQuestions st)).
  repeat split; try assumption; try discriminate.
Qed.

Lemma handleMemoryAnswer_logs st answer :
  app_phase st = phase_memory ->
  logsWithinQuestions st -> logsWithinQuestions (handleMemoryAnswer st answer).
Proof.
  intros Hp Hinv. pose proof Hinv as (Hm & Hc & Hma & Hca & Hmi & Hci).
  destruct (Hmi Hp) as [Hidx Hempty].
  unfold handleMemoryAnswer.
  destruct (at_ (memoryQuestions st) (memoryIndex st)) as [snippet|] eqn:E;
    [|exact Hinv].
  apply at_Some in E.
  unfold logsWithinQuestions.
  destruct (memoryIndex st + 1 <? alen (memoryQuestions st)) eqn:E1;
    [|destruct (0 <? alen (commentQuestions st))];
    cbn; rewrite ?alen_push;
    repeat split; try assumption; intros; try discriminate; try lia;
    congruence.
Qed.

Lemma handleCommentAnswer_logs st answer :
  app_phase st = phase_comment ->
  logsWithinQuestions st -> logsWithinQuestions (handleCommentAnswer st answer).
Proof.
  intros Hp Hinv. pose proof Hinv as (Hm & Hc & Hma & Hca & Hmi & Hci).
  specialize (Hci Hp).
  unfold handleCommentAnswer.
  destruct (at_ (commentQuestions st) (commentIndex st)) as [snippet|] eqn:E;
    [|exact Hinv].
  apply at_Some in E.
  unfold logsWithinQuestions.
  destruct (commentIndex st + 1 <? alen (commentQuestions st)) eqn:E1;
    cbn; rewrite ?alen_push;
    repeat split; try assumption; intros; try discriminate; try lia;
    congruence.
Qed.

Lemma reachable_logs shuffle st :
  wellShuffled shuffle -> reachable shuffle st -> logsWithinQuestions st.
Proof.
  intros Hs Hr. induction Hr as [c cm v|st Hr IH Hp|st a Hr IH Hp|st a Hr IH Hp].
  - apply scanCode_logs, Hs.
  - apply startGame_logs, IH.
  - apply handleMemoryAnswer_logs; [apply (render_phase _ _ Hp)|exact IH].
  - apply handleCommentAnswer_logs; [apply (render_phase _ _ Hp)|exact IH].
Qed.

Lemma filter_alen_le {A} (p : A -> bool) (l : list A) :
  alen (filter p l) <= alen l.
Proof. unfold alen. pose proof (filter_length_le p l). lia. Qed.

(** No run reaches a total above 75. *)
Lemma reachable_total_le_75 shuffle st :
  wellShuffled shuffle -> reachable shuffle st ->
  totalScore (app_result st) <= 75
  /\ getVibeRating (totalScore (app_result st)) <> AIPuppet.
Proof.
  intros Hs Hr.
  destruct (reachable_logs shuffle st Hs Hr) as (Hm & Hc & Hma & Hca & _).
  unfold MEMORY_QUESTIONS, COMMENT_QUESTIONS in *.
  assert (Ht : totalScore (app_result st) <= 75).
  { unfold totalScore.
    apply compositeScore_le_75; [| |apply alen_nonneg];
      apply vibeScore_range; unfold selfAnswers, otherAnswers;
      match goal with
      | |- alen (filter ?p ?l) <= _ =>
          pose proof (filter_alen_le p l); lia
      end. }
  split; [exact Ht|]. apply rating_below_100. lia.
Qed.

(** ** Claim C10 *)

(** C10: on every answer log with at most 20 answers of each ownership the
    forget and fuzzy tallies are disjoint parts of the self total and the
    false memories a part of the other total; the rounded sum is at most
    70, so the clamp at 100 never changes it and the track score is at
    most 70; hence the composite total of two such logs is at most 75, the
    value of [round(70 * 0.5 + 70 * 0.35 + 15)], and the rating is never
    the one of a total of 100; the logs of a run hold at most ten answers
    each, so no state of a run has a total above 75. *)
Theorem C10_scores_are_bounded :
  (forall log,
      alen (selfAnswers log) <= 20 ->
      alen (otherAnswers log) <= 20 ->
      countOf uncertain (selfAnswers log) + countOf foreign (selfAnswers log)
      + countOf familiar (selfAnswers log) <= alen (selfAnswers log)
      /\ falseMemoryCount log <= alen (otherAnswers log)
      /\ vibeScore (calculateVibeMetrics log)
         = Math_round
             (vibeSum (myCodeUncertain (calculateVibeMetrics log))
                      (myCodeMisidentified (calculateVibeMetrics log))
                      (myCodeFamiliar (calculateVibeMetrics log))
                      (orOne (myCodeTotal (calculateVibeMetrics log)))
                      (otherCodeFalseMemory (calculateVibeMetrics log))
                      (orOne (otherCodeTotal (calculateVibeMetrics log))))
      /\ vibeScore (calculateVibeMetrics log) <= 70)
  /\ (forall r : QuizResult,
         alen (selfAnswers (answers (qr_memory r))) <= 20 ->
         alen (otherAnswers (answers (qr_memory r))) <= 20 ->
         alen (selfAnswers (answers (qr_comment r))) <= 20 ->
         alen (otherAnswers (answers (qr_comment r))) <= 20 ->
         totalScore r <= 75 /\ getVibeRating (totalScore r) <> AIPuppet)
  /\ (forall shuffle st,
         wellShuffled shuffle -> reachable shuffle st ->
         totalScore (app_result st) <= 75
         /\ getVibeRating (totalScore (app_result st)) <> AIPuppet)
  /\ compositeScore 70 70 5 = 75
  /\ Math_round (ofZ 70 * lit_0_5 + ofZ 70 * lit_0_35 + ofZ 15)%float = 75.
Proof.
  split; [|split; [|split; [|split; vm_compute; reflexivity]]].
  3: { intros shuffle st Hs Hr. apply (reachable_total_le_75 shuffle st Hs Hr). }
  - intros log Hs Ho.
    pose proof (countOf_total (selfAnswers log)) as Hts.
    pose proof (countOf_total (otherAnswers log)) as Hto.
    pose proof (countOf_nonneg remember (selfAnswers log)).
    pose proof (countOf_nonneg uncertain (otherAnswers log)).
    pose proof (countOf_nonneg foreign (otherAnswers log)).
    pose proof (rounded_sum_range log Hs Ho) as Hr.
    split; [lia|]. split; [unfold falseMemoryCount; lia|].
    rewrite calculateVibeMetrics_counts.
    cbn [vibeScore myCodeUncertain myCodeMisidentified myCodeFamiliar
                   myCodeTotal otherCodeFalseMemory otherCodeTotal].
    rewrite !orOne_max by apply alen_nonneg.
    split; lia.
  - intros r H1 H2 H3 H4.
    assert (Ht : totalScore r <= 75).
    { unfold totalScore.
      apply compositeScore_le_75;
        [apply vibeScore_range; assumption
        |apply vibeScore_range; assumption
        |apply alen_nonneg]. }
    split; [exact Ht|]. apply rating_below_100. lia.
Qed.

Lemma allForgotten_reachable : reachable noShuffle allForgotten.
Proof.
  unfold allForgotten.
  repeat (apply reach_memory; [|vm_compute; reflexivity]).
  apply reach_start; [|vm_compute; reflexivity].
  apply reach_scan.
Qed.

Lemma C10_scores_are_bounded_witness :
  alen (selfAnswers exampleLog) <= 20
  /\ alen (otherAnswers exampleLog) <= 20
  /\ vibeScore (calculateVibeMetrics exampleLog) <= 70
  /\ wellShuffled noShuffle
  /\ reachable noShuffle allForgotten
  /\ totalScore (app_result allForgotten) <= 75.
Proof.
  assert (Hs : alen (selfAnswers exampleLog) <= 20)
    by (vm_compute; discriminate).
  assert (Ho : alen (otherAnswers exampleLog) <= 20)
    by (vm_compute; discriminate).
  destruct C10_scores_are_bounded as (Hlog & _ & Hrun & _).
  split; [exact Hs|]. split; [exact Ho|].
  split; [apply (Hlog exampleLog Hs Ho)|].
  split; [exact wellShuffled_noShuffle|].
  split; [exact allForgotten_reachable|].
  apply (Hrun noShuffle allForgotten wellShuffled_noShuffle
              allForgotten_reachable).
Defined.

(* ====================================================================== *)
(** * The velocity list                                                    *)
(* ====================================================================== *)

Lemma Forall_insertByLines (P : DailyCodeStats -> Prop) d l :
  P d -> Forall P l -> Forall P (insertByLines d l).
Proof.
  intros Hd Hl. induction Hl as [|e r He Hr IH]; cbn [insertByLines].
  - constructor; [assumption|constructor].
  - destruct (linesAdded d <? linesAdded e).
    + constructor; assumption.
    + constructor; [assumption|]. constructor; assumption.
Qed.

Lemma Forall_sortByLinesDesc (P : DailyCodeStats -> Prop) l :
  Forall P l -> Forall P (sortByLinesDesc l).
Proof.
  intros H. induction H as [|d l Hd Hl IH]; cbn.
  - constructor.
  - apply Forall_insertByLines; assumption.
Qed.

Lemma insertByLines_sorted d l :
  StronglySorted moreLines l -> StronglySorted moreLines (insertByLines d l).
Proof.
  intros H. induction H as [|e r Hr IH He]; cbn [insertByLines].
  - constructor; constructor.
  - destruct (linesAdded d <? linesAdded e) eqn:E.
    + apply Z.ltb_lt in E. constructor; [exact IH|].
      apply Forall_insertByLines; [unfold moreLines; lia|exact He].
    + apply Z.ltb_ge in E. constructor; [constructor; assumption|].
      constructor; [exact E|].
      apply (Forall_impl _ (P := moreLines e)); [|exact He].
      unfold moreLines. intros x Hx. lia.
Qed.

Lemma sortByLinesDesc_sorted l : StronglySorted moreLines (sortByLinesDesc l).
Proof.
  induction l as [|d l IH]; cbn.
  - constructor.
  - apply insertByLines_sorted, IH.
Qed.

Lemma insertByLines_perm d l : Permutation (insertByLines d l) (d :: l).
Proof.
  induction l as [|e r IH]; cbn [insertByLines].
  - apply Permutation_refl.
  - destruct (linesAdded d <? linesAdded e).
    + apply perm_trans with (e :: d :: r);
        [apply perm_skip, IH|apply perm_swap].
    + apply Permutation_refl.
Qed.

Lemma sortByLinesDesc_perm l : Permutation (sortByLinesDesc l) l.
Proof.
  induction l as [|d l IH]; cbn.
  - apply Permutation_refl.
  - apply perm_trans with (d :: sortByLinesDesc l);
      [apply insertByLines_perm|apply perm_skip, IH].
Qed.

Lemma StronglySorted_firstn {A} (R : A -> A -> Prop) (l : list A) :
  StronglySorted R l -> forall n, StronglySorted R (firstn n l).
Proof.
  intros H. induction H as [|x l Hl IH Hx]; intros [|n]; cbn;
    try constructor.
  - apply IH.
  - rewrite Forall_forall in *. intros y Hy. apply Hx.
    rewrite <- (firstn_skipn n l). apply in_or_app. left. exact Hy.
Qed.

Lemma StronglySorted_skipn {A} (R : A -> A -> Prop) (l : list A) :
  StronglySorted R l -> forall n, StronglySorted R (skipn n l).
Proof.
  intros H. induction H as [|x l Hl IH Hx]; intros [|n]; cbn;
    try constructor; try assumption.
  apply IH.
Qed.

Lemma StronglySorted_slice {A} (R : A -> A -> Prop) (l : list A) s e :
  StronglySorted R l -> StronglySorted R (slice l s e).
Proof.
  intros H. unfold slice.
  apply StronglySorted_firstn, StronglySorted_skipn, H.
Qed.

Lemma Forall_slice {A} (P : A -> Prop) (l : list A) s e :
  Forall P l -> Forall P (slice l s e).
Proof.
  rewrite !Forall_forall. intros H x Hx. apply H, (slice_incl l s e), Hx.
Qed.

Lemma dailyResults_averaged dailyStats :
  Forall averaged (dailyResults dailyStats).
Proof.
  unfold dailyResults. apply Forall_forall. intros d Hd.
  apply in_map_iff in Hd as ([k [l c]] & <- & _). reflexivity.
Qed.

(** ** Claim C9 *)

(** C9: whatever git returns for the sampled commits, the list of
    [analyzeDailyVelocity] holds only days with [linesAdded > 500], each
    with [avgLinesPerCommit = round(linesAdded / commitCount)], is sorted
    descending by [linesAdded], and has at most 10 entries. *)
Theorem C9_velocity_list :
  forall fetchCommit isSelected commitHashes,
    let out := analyzeDailyVelocity fetchCommit isSelected commitHashes in
    Forall (fun d => 500 < linesAdded d) out
    /\ Forall averaged out
    /\ StronglySorted moreLines out
    /\ alen out <= 10.
Proof.
  intros fetchCommit isSelected commitHashes out. subst out.
  unfold analyzeDailyVelocity.
  set (stats := fold_left (velocityStep fetchCommit isSelected) _ _).
  split; [|split; [|split]].
  - apply Forall_slice, Forall_sortByLinesDesc, Forall_forall.
    intros d Hd. apply filter_In in Hd as [_ Hd].
    apply Z.ltb_lt, Hd.
  - apply Forall_slice, Forall_sortByLinesDesc.
    pose proof (dailyResults_averaged stats) as H.
    rewrite Forall_forall in *. intros d Hd.
    apply filter_In in Hd as [Hd _]. apply H, Hd.
  - apply StronglySorted_slice, sortByLinesDesc_sorted.
  - apply slice_length_le; lia.
Qed.

(** The list on three commits: one day passes the threshold, with 601
    lines in two commits and an average of 301 (300.5 rounded up). *)
Lemma velocity_of_three_commits :
  analyzeDailyVelocity threeCommits (fun _ => true) ["c1"; "c2"; "c3"]%string
  = [mkDailyCodeStats "2024-05-01" 601 2 301].
Proof. vm_compute. reflexivity. Qed.

(* ====================================================================== *)
(** * Fingerprints and similarity                                          *)
(* ====================================================================== *)

Lemma substringTo_length n s : (String.length (substringTo n s) <= n)%nat.
Proof.
  revert s. induction n as [|n IH]; intros [|c s]; cbn; try lia.
  specialize (IH s). lia.
Qed.

Lemma hashContent_length content : 0 <= len (hashContent content) <= 200.
Proof.
  unfold hashContent, len.
  pose proof (substringTo_length 200
                (collapseSpaces (trim (joinLines content)))).
  lia.
Qed.

Lemma samePositions_bounds a : forall b,
  0 <= samePositions a b <= Z.min (len a) (len b).
Proof.
  unfold len. induction a as [|x a IH]; intros [|y b]; cbn [samePositions];
    cbn [String.length]; try lia.
  specialize (IH b). destruct (Ascii.eqb x y); lia.
Qed.

(** By evaluation: the comparison of [isSimilarSnippet] on doubles against
    the exact one, for every count of agreeing positions [k] among
    [n <= 200]. *)
Lemma ratio_test_agrees :
  forallb (fun n =>
    forallb (fun k =>
      Bool.eqb (PrimFloat.ltb lit_0_8
                  (PrimFloat.div (ofZ (Z.of_nat k)) (ofZ (Z.of_nat n))))
               (4 * Z.of_nat n <? 5 * Z.of_nat k))
      (upTo n))
    (upTo 200) = true.
Proof. vm_compute. reflexivity. Qed.

(** On fingerprints the test on doubles is the exact test. *)
Lemma ratio_test_exact (same minLen : Z) :
  0 <= same <= minLen -> minLen <= 200 ->
  PrimFloat.ltb lit_0_8 (PrimFloat.div (ofZ same) (ofZ minLen))
  = (4 * minLen <? 5 * same).
Proof.
  intros Hs Hm. pose proof ratio_test_agrees as H.
  rewrite forallb_forall in H.
  specialize (H (Z.to_nat minLen) (upTo_In 200 (Z.to_nat minLen) ltac:(lia))).
  rewrite forallb_forall in H.
  specialize (H (Z.to_nat same)
                (upTo_In (Z.to_nat minLen) (Z.to_nat same) ltac:(lia))).
  apply eqb_prop in H. rewrite !Z2Nat.id in H by lia. exact H.
Qed.

Lemma alen_filter_map {A B} (f : A -> B) (p : B -> bool) (l : list A) :
  alen (filter p (map f l)) = alen (filter (fun x => p (f x)) l).
Proof.
  induction l as [|x l IH]; [reflexivity|]. cbn [map filter].
  destruct (p (f x)); rewrite ?alen_cons, IH; reflexivity.
Qed.

Lemma matchingPositions_cons x y a b :
  matchingPositions (String x a) (String y b)
  = (if Ascii.eqb x y then 1 else 0) + matchingPositions a b.
Proof.
  unfold matchingPositions. cbn [String.length Nat.min List.seq].
  rewrite <- seq_shift. cbn [filter].
  change (agreeAt (String x a) (String y b) 0) with (Ascii.eqb x y).
  assert (Hrest : alen (filter (agreeAt (String x a) (String y b))
                               (map S (List.seq 0
                                  (Nat.min (String.length a)
                                           (String.length b)))))
                  = alen (filter (agreeAt a b)
                                 (List.seq 0 (Nat.min (String.length a)
                                                      (String.length b))))).
  { rewrite alen_filter_map. reflexivity. }
  destruct (Ascii.eqb x y); rewrite ?alen_cons, Hrest; lia.
Qed.

Lemma matchingPositions_end a b :
  a = EmptyString \/ b = EmptyString -> matchingPositions a b = 0.
Proof.
  unfold matchingPositions. intros [->| ->]; [reflexivity|].
  rewrite Nat.min_0_r. reflexivity.
Qed.

(** The loop of [isSimilarSnippet] counts the matching positions. *)
Lemma samePositions_matching a : forall b,
  samePositions a b = matchingPositions a b.
Proof.
  induction a as [|x a IH]; intros [|y b]; cbn [samePositions];
    try (rewrite matchingPositions_end by auto; reflexivity).
  rewrite matchingPositions_cons, IH. reflexivity.
Qed.

Lemma isSimilarSnippet_duplicates a b :
  isSimilarSnippet a b = duplicates (hashContent a) (hashContent b).
Proof.
  unfold isSimilarSnippet, duplicates. rewrite <- samePositions_matching.
  destruct (String.eqb (hashContent a) (hashContent b)); [reflexivity|].
  cbn [orb].
  pose proof (samePositions_bounds (hashContent a) (hashContent b)).
  pose proof (hashContent_length a). pose proof (hashContent_length b).
  apply ratio_test_exact; lia.
Qed.

(* ====================================================================== *)
(** * Deduplication                                                        *)
(* ====================================================================== *)

Section DedupFacts.

Context {T : Type} `{Hashed T}.

(** After any number of steps [seen] holds the fingerprints of the
    accepted fragments. *)
Lemma has_seen (accepted : list T) (h : string) :
  has (rev (map hash accepted)) h
  = existsb (fun y => String.eqb h (hash y)) accepted.
Proof.
  unfold has. apply eq_iff_eq_true. rewrite !existsb_exists. split.
  - intros (k & Hin & Hk). apply in_rev, in_map_iff in Hin as (y & <- & Hy).
    exists y. split; assumption.
  - intros (y & Hy & Hk). exists (hash y). split; [|exact Hk].
    apply in_rev. rewrite rev_involutive. apply in_map, Hy.
Qed.

Lemma similar_is_duplicate (accepted : list T) (x : T) :
  Forall fingerprinted accepted -> fingerprinted x ->
  existsb (fun e => isSimilarSnippet (contentOf x) (contentOf e)) accepted
  = existsb (fun y => duplicates (hash x) (hash y)) accepted.
Proof.
  intros Hall Hx. induction Hall as [|y r Hy Hr IH]; [reflexivity|].
  cbn [existsb]. rewrite IH, isSimilarSnippet_duplicates.
  unfold fingerprinted in Hx, Hy. rewrite <- Hx, <- Hy. reflexivity.
Qed.

Lemma same_hash_is_duplicate (accepted : list T) (x : T) :
  existsb (fun y => String.eqb (hash x) (hash y)) accepted = true ->
  existsb (fun y => duplicates (hash x) (hash y)) accepted = true.
Proof.
  rewrite !existsb_exists. intros (y & Hy & E). exists y.
  split; [exact Hy|]. unfold duplicates. rewrite E. reflexivity.
Qed.

(** One step: the fragment is appended unless it is a duplicate of an
    accepted one. *)
Lemma dedupStep_spec (accepted : list T) (x : T) :
  Forall fingerprinted accepted -> fingerprinted x ->
  dedupStep (rev (map hash accepted), accepted) x
  = if existsb (fun y => duplicates (hash x) (hash y)) accepted
    then (rev (map hash accepted), accepted)
    else (rev (map hash (accepted ++ [x])), accepted ++ [x]).
Proof.
  intros Hall Hx. unfold dedupStep. rewrite has_seen.
  destruct (existsb (fun y => String.eqb (hash x) (hash y)) accepted) eqn:E.
  - rewrite (same_hash_is_duplicate accepted x E). reflexivity.
  - cbn [negb]. rewrite (similar_is_duplicate accepted x Hall Hx).
    destruct (existsb (fun y => duplicates (hash x) (hash y)) accepted);
      [reflexivity|].
    cbn [negb]. unfold push. rewrite map_app, rev_app_distr. reflexivity.
Qed.

(** The state after a scan: [seen] mirrors the accepted fragments, which
    are fragments of the input. *)
Lemma dedup_state (snippets : list T) :
  Forall fingerprinted snippets ->
  exists accepted,
    fold_left dedupStep snippets ([], []) = (rev (map hash accepted), accepted)
    /\ incl accepted snippets.
Proof.
  induction snippets as [|x l IH] using rev_ind; intros Hall.
  - exists []. split; [reflexivity|apply incl_refl].
  - apply Forall_app in Hall as [Hl Hx]. inversion Hx as [|? ? Hx' _]; subst.
    destruct (IH Hl) as (accepted & Hfold & Hincl).
    assert (Hacc : Forall fingerprinted accepted).
    { rewrite Forall_forall in *. intros y Hy. apply Hl, Hincl, Hy. }
    rewrite fold_left_app. cbn [fold_left]. rewrite Hfold.
    rewrite (dedupStep_spec accepted x Hacc Hx').
    destruct (existsb (fun y => duplicates (hash x) (hash y)) accepted).
    + exists accepted. split; [reflexivity|].
      apply incl_appl, Hincl.
    + exists (accepted ++ [x]). split; [reflexivity|].
      apply incl_app; [apply incl_appl, Hincl|apply incl_appr, incl_refl].
Qed.

Lemma deduplicateSnippets_fingerprinted (snippets : list T) :
  Forall fingerprinted snippets ->
  Forall fingerprinted (deduplicateSnippets snippets).
Proof.
  intros Hall. destruct (dedup_state snippets Hall) as (acc & Hfold & Hincl).
  unfold deduplicateSnippets. rewrite Hfold. cbn [snd].
  rewrite Forall_forall in *. intros y Hy. apply Hall, Hincl, Hy.
Qed.

(** The scan, fragment by fragment. *)
Lemma deduplicateSnippets_snoc (snippets : list T) (x : T) :
  Forall fingerprinted snippets -> fingerprinted x ->
  deduplicateSnippets (snippets ++ [x])
  = deduplicateSnippets snippets
    ++ (if existsb (fun y => duplicates (hash x) (hash y))
                   (deduplicateSnippets snippets)
        then [] else [x]).
Proof.
  intros Hall Hx.
  destruct (dedup_state snippets Hall) as (accepted & Hfold & Hincl).
  assert (Hacc : Forall fingerprinted accepted).
  { rewrite Forall_forall in *. intros y Hy. apply Hall, Hincl, Hy. }
  unfold deduplicateSnippets.
  rewrite fold_left_app. cbn [fold_left]. rewrite Hfold. cbn [snd].
  rewrite (dedupStep_spec accepted x Hacc Hx).
  destruct (existsb (fun y => duplicates (hash x) (hash y)) accepted);
    cbn [snd]; [rewrite app_nil_r|]; reflexivity.
Qed.

Lemma deduplicateSnippets_nil : deduplicateSnippets (@nil T) = [].
Proof. reflexivity. Qed.

(** Two fragments of one fingerprint: the second is rejected. *)
Lemma deduplicateSnippets_same_hash (a b : T) :
  fingerprinted a -> fingerprinted b -> hash a = hash b ->
  deduplicateSnippets [a; b] = [a].
Proof.
  intros Ha Hb E.
  assert (H1 : deduplicateSnippets [a] = [a]).
  { apply (deduplicateSnippets_snoc [] a); [constructor|exact Ha]. }
  change [a; b] with ([a] ++ [b]).
  rewrite deduplicateSnippets_snoc by (try constructor; auto).
  rewrite H1. cbn [existsb]. unfold duplicates.
  rewrite E, String.eqb_refl. reflexivity.
Qed.

End DedupFacts.

(** ** Runs of white space *)

Lemma runs_from_empty t : sameUpToSpaceRuns EmptyString t -> t = EmptyString.
Proof.
  intros H. remember EmptyString as s eqn:Es.
  induction H as [|c s t Hc Hr IH|c d s t Hc Hd Hr IH
                  |c c' s t Hc Hc' Hr IH|d d' s t Hd Hd' Hr IH];
    try discriminate Es; [reflexivity|].
  specialize (IH Es). subst s. discriminate IH.
Qed.

Lemma runs_to_empty s : sameUpToSpaceRuns s EmptyString -> s = EmptyString.
Proof.
  intros H. remember EmptyString as t eqn:Et.
  induction H as [|c s t Hc Hr IH|c d s t Hc Hd Hr IH
                  |c c' s t Hc Hc' Hr IH|d d' s t Hd Hd' Hr IH];
    try discriminate Et; [reflexivity|].
  specialize (IH Et). subst t. discriminate IH.
Qed.

Lemma trimStart_runs s t :
  sameUpToSpaceRuns s t -> sameUpToSpaceRuns (trimStart s) (trimStart t).
Proof.
  intros H.
  induction H as [|c s t Hc Hr IH|c d s t Hc Hd Hr IH
                  |c c' s t Hc Hc' Hr IH|d d' s t Hd Hd' Hr IH].
  - constructor.
  - cbn [trimStart]. rewrite Hc. apply runs_char; assumption.
  - cbn [trimStart]. rewrite Hc, Hd. exact IH.
  - cbn [trimStart] in *. rewrite Hc, Hc'. rewrite Hc' in IH. exact IH.
  - cbn [trimStart] in *. rewrite Hd, Hd'. rewrite Hd' in IH. exact IH.
Qed.

Lemma trimEnd_cons_char c s :
  isSpace c = false -> trimEnd (String c s) = String c (trimEnd s).
Proof.
  intros Hc. cbn [trimEnd]. rewrite Hc. destruct (trimEnd s); reflexivity.
Qed.

Lemma trimEnd_cons_space c s :
  isSpace c = true ->
  trimEnd (String c s)
  = match trimEnd s with
    | EmptyString => EmptyString
    | r => String c r
    end.
Proof.
  intros Hc. cbn [trimEnd]. rewrite Hc. destruct (trimEnd s); reflexivity.
Qed.

Lemma trimEnd_runs s t :
  sameUpToSpaceRuns s t -> sameUpToSpaceRuns (trimEnd s) (trimEnd t).
Proof.
  intros H.
  induction H as [|c s t Hc Hr IH|c d s t Hc Hd Hr IH
                  |c c' s t Hc Hc' Hr IH|d d' s t Hd Hd' Hr IH].
  - constructor.
  - rewrite !trimEnd_cons_char by assumption. apply runs_char; assumption.
  - rewrite !trimEnd_cons_space by assumption.
    destruct (trimEnd s) as [|x s'], (trimEnd t) as [|y t'].
    + constructor.
    + apply runs_from_empty in IH. discriminate IH.
    + apply runs_to_empty in IH. discriminate IH.
    + apply runs_space; assumption.
  - rewrite (trimEnd_cons_space c) by assumption.
    rewrite (trimEnd_cons_space c') in * by assumption.
    destruct (trimEnd s) as [|x s']; [exact IH|].
    apply runs_longer_left; assumption.
  - rewrite (trimEnd_cons_space d) by assumption.
    rewrite (trimEnd_cons_space d') in * by assumption.
    destruct (trimEnd t) as [|y t']; [exact IH|].
    apply runs_longer_right; assumption.
Qed.

Lemma collapseFrom_runs s t :
  sameUpToSpaceRuns s t ->
  forall inRun, collapseFrom inRun s = collapseFrom inRun t.
Proof.
  intros H.
  induction H as [|c s t Hc Hr IH|c d s t Hc Hd Hr IH
                  |c c' s t Hc Hc' Hr IH|d d' s t Hd Hd' Hr IH];
    intros inRun.
  - reflexivity.
  - cbn [collapseFrom]. rewrite Hc, (IH false). reflexivity.
  - cbn [collapseFrom]. rewrite Hc, Hd, (IH true). reflexivity.
  - rewrite <- (IH inRun). cbn [collapseFrom]. rewrite Hc, Hc'.
    destruct inRun; reflexivity.
  - rewrite (IH inRun). cbn [collapseFrom]. rewrite Hd, Hd'.
    destruct inRun; reflexivity.
Qed.

(** Texts that differ in their runs of white space only have one
    fingerprint. *)
Lemma hashContent_runs a b :
  sameUpToSpaceRuns (joinLines a) (joinLines b) ->
  hashContent a = hashContent b.
Proof.
  intros H. unfold hashContent, collapseSpaces, trim.
  rewrite (collapseFrom_runs _ _ (trimEnd_runs _ _ (trimStart_runs _ _ H))).
  reflexivity.
Qed.

(** ** Claim C7 *)

(** C7: on fragments that carry the fingerprint of their content, the scan
    of [deduplicateSnippets] takes the fragments in order and rejects a
    fragment exactly when it is a duplicate of a fragment accepted before
    it, two fragments being duplicates when their fingerprints are
    identical or when the number of positions [i] with
    [fingerprintA[i] == fingerprintB[i]] is more than 0.8 of the length of
    the shorter one; so of two fragments the second is dropped exactly
    when that holds of the pair; two fragments of the same content leave
    one survivor, and so do two fragments whose contents differ only in
    the length of their runs of white space. *)
Theorem C7_deduplication :
  forall (T : Type) (HT : Hashed T),
    deduplicateSnippets (@nil T) = []
    /\ (forall (snippets : list T) (x : T),
           Forall fingerprinted snippets -> fingerprinted x ->
           deduplicateSnippets (snippets ++ [x])
           = deduplicateSnippets snippets
             ++ (if existsb (fun y => duplicates (hash x) (hash y))
                            (deduplicateSnippets snippets)
                 then [] else [x]))
    /\ (forall a b : T,
           fingerprinted a -> fingerprinted b ->
           deduplicateSnippets [a; b]
           = if String.eqb (hash b) (hash a)
                || (4 * Z.min (len (hash b)) (len (hash a))
                    <? 5 * matchingPositions (hash b) (hash a))
             then [a] else [a; b])
    /\ (forall a b : T,
           fingerprinted a -> fingerprinted b ->
           contentOf a = contentOf b ->
           deduplicateSnippets [a; b] = [a])
    /\ (forall a b : T,
           fingerprinted a -> fingerprinted b ->
           sameUpToSpaceRuns (joinLines (contentOf a))
                             (joinLines (contentOf b)) ->
           deduplicateSnippets [a; b] = [a]).
Proof.
  intros T HT. split; [reflexivity|].
  split; [apply deduplicateSnippets_snoc|]. split; [|split].
  - intros a b Ha Hb.
    assert (H1 : deduplicateSnippets [a] = [a]).
    { apply (deduplicateSnippets_snoc [] a); [constructor|exact Ha]. }
    change [a; b] with ([a] ++ [b]).
    rewrite deduplicateSnippets_snoc by (try constructor; auto).
    rewrite H1. cbn [existsb]. rewrite orb_false_r.
    fold (duplicates (hash b) (hash a)).
    destruct (duplicates (hash b) (hash a)); reflexivity.
  - intros a b Ha Hb E. apply deduplicateSnippets_same_hash; try assumption.
    unfold fingerprinted in Ha, Hb. rewrite Ha, Hb, E. reflexivity.
  - intros a b Ha Hb E. apply deduplicateSnippets_same_hash; try assumption.
    unfold fingerprinted in Ha, Hb. rewrite Ha, Hb.
    apply hashContent_runs, E.
Qed.

Lemma spaced_fragments_differ_in_runs :
  sameUpToSpaceRuns (joinLines (contentOf spacedOut))
                    (joinLines (contentOf spacedIn)).
Proof.
  vm_compute.
  repeat first
    [ apply runs_end
    | apply runs_char; [reflexivity|]
    | apply runs_longer_left; [reflexivity|reflexivity|]
    | apply runs_longer_right; [reflexivity|reflexivity|]
    | apply runs_space; [reflexivity|reflexivity|] ].
Qed.

Lemma C7_deduplication_witness :
  fingerprinted spacedOut /\ fingerprinted spacedIn
  /\ deduplicateSnippets [spacedOut; spacedOut] = [spacedOut]
  /\ deduplicateSnippets [spacedOut; spacedIn] = [spacedOut]
  /\ fingerprinted tenLetters /\ fingerprinted nineShared
  /\ fingerprinted eightShared
  /\ String.eqb (hash nineShared) (hash tenLetters) = false
  /\ matchingPositions (hash nineShared) (hash tenLetters) = 9
  /\ deduplicateSnippets [tenLetters; nineShared] = [tenLetters]
  /\ matchingPositions (hash eightShared) (hash tenLetters) = 8
  /\ deduplicateSnippets [tenLetters; eightShared] = [tenLetters; eightShared].
Proof.
  assert (Ha : fingerprinted spacedOut) by reflexivity.
  assert (Hb : fingerprinted spacedIn) by reflexivity.
  assert (H10 : fingerprinted tenLetters) by reflexivity.
  assert (H9 : fingerprinted nineShared) by reflexivity.
  assert (H8 : fingerprinted eightShared) by reflexivity.
  destruct (C7_deduplication CodeSnippet CodeSnippet_Hashed)
    as (_ & _ & Hpair & Hsame & Hruns).
  split; [exact Ha|]. split; [exact Hb|].
  split; [apply (Hsame spacedOut spacedOut Ha Ha eq_refl)|].
  split; [apply (Hruns spacedOut spacedIn Ha Hb
                       spaced_fragments_differ_in_runs)|].
  split; [exact H10|]. split; [exact H9|]. split; [exact H8|].
  split; [reflexivity|]. split; [reflexivity|].
  split; [rewrite (Hpair tenLetters nineShared H10 H9); reflexivity|].
  split; [reflexivity|].
  rewrite (Hpair tenLetters eightShared H10 H8). reflexivity.
Defined.

(* ====================================================================== *)
(** * Instances on concrete inputs                                         *)
(* ====================================================================== *)

Lemma C4_short_comment_line_witness :
  inHunk oneLineInHunk = true
  /\ isAddedLine "+// fix bug" = true
  /\ isCommentLine "// fix bug" = true
  /\ len (trim "// fix bug") <= 15
  /\ currentCommentBlock (scanLine oneLineInHunk "+// fix bug") = []
  /\ currentCodeBlock (scanLine oneLineInHunk "+// fix bug")
     = push (currentCodeBlock oneLineInHunk) "// fix bug"%string.
Proof.
  assert (H1 : inHunk oneLineInHunk = true) by reflexivity.
  assert (H2 : isAddedLine "+// fix bug" = true) by reflexivity.
  assert (H3 : isCommentLine (substringFrom1 "+// fix bug") = true)
    by reflexivity.
  assert (H4 : len (trim (substringFrom1 "+// fix bug")) <= 15)
    by (vm_compute; discriminate).
  destruct (C4_short_comment_line oneLineInHunk "+// fix bug" H1 H2 H3 H4)
    as [_ H].
  destruct (H eq_refl) as (Hcomment & _ & _ & _ & Hcode).
  split; [exact H1|]. split; [exact H2|]. split; [exact H3|].
  split; [exact H4|]. split; [exact Hcomment|].
  apply Hcode. reflexivity.
Defined.

(** The fragments of an extraction carry the fingerprint of their
    content. *)
Lemma snippetsFromBlocks_fingerprinted randomBelow author email commitHash
      isMine filename blocks : forall k,
  Forall fingerprinted
         (snippetsFromBlocks randomBelow author email commitHash isMine
                             filename k blocks).
Proof.
  induction blocks as [|block rest IH]; intros k; cbn [snippetsFromBlocks].
  - constructor.
  - destruct (MIN_SNIPPET_LINES <=? alen block); [|apply IH].
    apply Forall_app. split; [|apply IH].
    destruct (MIN_SNIPPET_LINES
              <=? alen (windowBlock randomBelow k block));
      repeat constructor.
Qed.

Lemma snippetsFromCommentBlocks_fingerprinted author email isMine filename
      blocks :
  Forall fingerprinted
         (snippetsFromCommentBlocks author email isMine filename blocks).
Proof.
  unfold snippetsFromCommentBlocks. apply Forall_forall. intros s Hs.
  apply in_flat_map in Hs as (block & _ & Hs).
  destruct (_ && _); [|destruct Hs].
  destruct Hs as [<-|[]]. reflexivity.
Qed.

(** With no comment question the quiz ends after the last code question:
    the comment phase is skipped. *)
Lemma quiz_without_comment_questions_finishes :
  commentQuestions allForgotten = []
  /\ render allForgotten = PhaseScreen phase_result
  /\ totalScore (app_result allForgotten) = 25.
Proof. repeat split; vm_compute; reflexivity. Qed.

(* ====================================================================== *)
(** * What the scan keeps and what it skips                                *)
(* ====================================================================== *)

Lemma Forall_push {A} (P : A -> Prop) l x :
  Forall P l -> P x -> Forall P (push l x).
Proof.
  intros Hl Hx. unfold push. apply Forall_app. split; [exact Hl|].
  constructor; [exact Hx|constructor].
Qed.

(** A slice is a contiguous part of the array. *)
Lemma slice_window {A} (l : list A) s e :
  exists before after, l = before ++ slice l s e ++ after.
Proof.
  unfold slice.
  exists (firstn (Z.to_nat (relIndex (alen l) s)) l).
  eexists. rewrite firstn_skipn. rewrite firstn_skipn. reflexivity.
Qed.

(** [l.slice(s, s + n)] never has more than [n] elements. *)
Lemma slice_at_most {A} (l : list A) s n :
  0 <= n -> alen (slice l s (s + n)) <= n.
Proof.
  intros Hn. unfold slice, relIndex, alen.
  rewrite length_firstn, length_skipn.
  destruct (s <? 0) eqn:E1; destruct (s + n <? 0) eqn:E2;
    try apply Z.ltb_lt in E1; try apply Z.ltb_lt in E2;
    try apply Z.ltb_ge in E1; try apply Z.ltb_ge in E2; lia.
Qed.

Lemma sliceFrom_last_two {A} (l : list A) : alen (sliceFrom l (-2)) <= 2.
Proof.
  unfold sliceFrom, slice, relIndex, alen.
  rewrite length_firstn, length_skipn. cbn [Z.ltb Z.compare].
  destruct (Z.of_nat (List.length l) <? 0) eqn:E; lia.
Qed.

Lemma alen_shift {A} (l : list A) : 1 <= alen l -> alen (shift l) = alen l - 1.
Proof. destruct l; unfold shift, alen; cbn [tl List.length]; lia. Qed.

Lemma Forall_shift {A} (P : A -> Prop) l : Forall P l -> Forall P (shift l).
Proof. intros H. destruct H; cbn; auto. Qed.

Lemma scanInvariant_initial lines : scanInvariant lines initialScan.
Proof. unfold scanInvariant. cbn. repeat split; auto; lia. Qed.

Lemma closeComment_wellFormed lines cblocks ccur ctx :
  Forall (wellFormedBlock lines) cblocks ->
  Forall (commentLineOf lines) ccur ->
  Forall (codeLineOf lines) ctx ->
  Forall (wellFormedBlock lines)
         (if 0 <? alen ccur
          then push cblocks (mkCommentBlock ccur (sliceFrom ctx (-2)))
          else cblocks).
Proof.
  intros Hcb Hcc Hctx. destruct (0 <? alen ccur) eqn:E; [|exact Hcb].
  apply Z.ltb_lt in E. apply Forall_push; [exact Hcb|].
  unfold wellFormedBlock. cbn [cb_comment cb_context].
  repeat split; [lia|exact Hcc|apply sliceFrom_last_two|].
  apply Forall_slice, Hctx.
Qed.

Lemma closeComment_buffer lines (ccur : list string) :
  Forall (commentLineOf lines) ccur ->
  Forall (commentLineOf lines) (if 0 <? alen ccur then [] else ccur).
Proof. intros H. destruct (0 <? alen ccur); [constructor|exact H]. Qed.

Lemma pushIfLongEnough_Forall (P : list string -> Prop) blocks cur :
  Forall P blocks -> P cur -> Forall P (pushIfLongEnough blocks cur).
Proof.
  intros Hb Hc. unfold pushIfLongEnough.
  destruct (MIN_SNIPPET_LINES <=? alen cur); [apply Forall_push|]; assumption.
Qed.

(** One line of the section keeps the invariant. *)
Lemma scanLine_invariant lines st line :
  In line lines -> scanInvariant lines st ->
  scanInvariant lines (scanLine st line).
Proof.
  intros Hin. destruct st as [blocks cblocks cur ccur ctx hunk].
  unfold scanInvariant. cbn [codeBlocks commentBlocksWithContext
    currentCodeBlock currentCommentBlock contextBuffer].
  intros (Hb & Hcb & Hcur & Hcc & Hctx & Hlen).
  unfold scanLine.
  destruct (startsWith line "@@") eqn:Ehead.
  { cbn [codeBlocks commentBlocksWithContext currentCodeBlock
         currentCommentBlock contextBuffer].
    repeat split; auto. apply pushIfLongEnough_Forall; assumption. }
  destruct hunk; cbn [negb];
    [|cbn [codeBlocks commentBlocksWithContext currentCodeBlock
           currentCommentBlock contextBuffer]; repeat split; assumption].
  destruct (startsWith line "+" && negb (startsWith line "+++")) eqn:Eadd.
  - destruct (addedLine_shape line Eadd) as (codeLine & -> & Hsub & _).
    rewrite Hsub. clear Hsub.
    destruct (isFixedPattern codeLine) eqn:Efix;
      [cbn [codeBlocks commentBlocksWithContext currentCodeBlock
            currentCommentBlock contextBuffer]; repeat split; assumption|].
    destruct (isCommentLine codeLine && (15 <? len (trim codeLine))) eqn:Ecom.
    + cbn [codeBlocks commentBlocksWithContext currentCodeBlock
           currentCommentBlock contextBuffer].
      repeat split; auto. apply Forall_push; [exact Hcc|].
      split; [exact Hin|]. unfold isCommentBlockLine, isLongComment.
      rewrite Efix, Ecom. reflexivity.
    + pose proof (closeComment_wellFormed lines cblocks ccur ctx Hcb Hcc Hctx)
        as Hcb'.
      pose proof (closeComment_buffer lines ccur Hcc) as Hcc'.
      destruct (isNoiseLine codeLine) eqn:Enoise; cbn [negb].
      * destruct (MIN_SNIPPET_LINES <=? alen cur);
          cbn [codeBlocks commentBlocksWithContext currentCodeBlock
               currentCommentBlock contextBuffer];
          repeat split; auto. apply Forall_push; assumption.
      * assert (Hline : codeLineOf lines codeLine).
        { split; [exact Hin|]. unfold isSubstantive, isLongComment.
          rewrite Efix, Ecom, Enoise. reflexivity. }
        cbn [codeBlocks commentBlocksWithContext currentCodeBlock
             currentCommentBlock contextBuffer].
        split; [exact Hb|]. split; [exact Hcb'|].
        split; [apply Forall_push; assumption|]. split; [exact Hcc'|].
        destruct (5 <? alen (push ctx codeLine)) eqn:E5.
        -- split; [apply Forall_shift, Forall_push; assumption|].
           rewrite alen_shift; rewrite alen_push; pose proof (alen_nonneg ctx);
             lia.
        -- apply Z.ltb_ge in E5.
           split; [apply Forall_push; assumption|exact E5].
  - destruct (startsWith line "-" || startsWith line " ");
      [destruct (MIN_SNIPPET_LINES <=? alen cur)|];
      cbn [codeBlocks commentBlocksWithContext currentCodeBlock
           currentCommentBlock contextBuffer];
      repeat split; auto. apply Forall_push; assumption.
Qed.

Lemma scanLines_invariant lines : forall rest st,
  incl rest lines -> scanInvariant lines st ->
  scanInvariant lines (scanLines st rest).
Proof.
  unfold scanLines. induction rest as [|line rest IH]; intros st Hincl Hst.
  - exact Hst.
  - cbn [fold_left]. apply IH.
    + intros x Hx. apply Hincl. right. exact Hx.
    + apply scanLine_invariant; [apply Hincl; left; reflexivity|exact Hst].
Qed.

Lemma scanFile_invariant lines : scanInvariant lines (scanFile lines).
Proof.
  unfold scanFile.
  pose proof (scanLines_invariant lines lines initialScan (incl_refl _)
                (scanInvariant_initial lines)) as Hinv.
  destruct (scanLines initialScan lines) as [blocks cblocks cur ccur ctx hunk].
  unfold scanInvariant in *.
  cbn [finishScan codeBlocks commentBlocksWithContext currentCodeBlock
       currentCommentBlock contextBuffer] in *.
  destruct Hinv as (Hb & Hcb & Hcur & Hcc & Hctx & Hlen).
  repeat split; auto.
  - apply pushIfLongEnough_Forall; assumption.
  - apply closeComment_wellFormed; assumption.
Qed.

Lemma snippetLen_at_most (L : Z) :
  MIN_SNIPPET_LINES <= L ->
  MIN_SNIPPET_LINES <= snippetLen L <= MAX_SNIPPET_LINES.
Proof.
  unfold snippetLen, MIN_SNIPPET_LINES, MAX_SNIPPET_LINES.
  generalize (Math_floor (PrimFloat.mul (ofZ L) lit_0_7)). intros x HL. lia.
Qed.

Lemma snippetsFromBlocks_windows randomBelow author email commitHash isMine
      filename lines all : forall blocks k,
  incl blocks all ->
  Forall (Forall (codeLineOf lines)) blocks ->
  Forall (fun s =>
            cs_filename s = filename
            /\ MIN_SNIPPET_LINES <= alen (cs_code s) <= MAX_SNIPPET_LINES
            /\ Forall (codeLineOf lines) (cs_code s)
            /\ cs_hash s = hashContent (cs_code s)
            /\ exists block before after,
                 In block all /\ block = before ++ cs_code s ++ after)
         (snippetsFromBlocks randomBelow author email commitHash isMine
                             filename k blocks).
Proof.
  induction blocks as [|block rest IH]; intros k Hincl Hall.
  - constructor.
  - inversion Hall as [|? ? Hblock Hrest]; subst.
    assert (Hincl' : incl rest all)
      by (intros x Hx; apply Hincl; right; exact Hx).
    cbn [snippetsFromBlocks].
    destruct (MIN_SNIPPET_LINES <=? alen block) eqn:E1; [|apply IH; assumption].
    apply Forall_app. split; [|apply IH; assumption].
    destruct (MIN_SNIPPET_LINES <=? alen (windowBlock randomBelow k block))
      eqn:E2; [|constructor].
    apply Z.leb_le in E1, E2.
    constructor; [|constructor].
    cbn [cs_filename cs_code cs_hash].
    split; [reflexivity|]. split.
    { split; [exact E2|]. unfold windowBlock.
      pose proof (snippetLen_at_most _ E1) as [Hlo Hhi].
      unfold MIN_SNIPPET_LINES in Hlo.
      pose proof (slice_at_most block
        (randomBelow k (Z.max 1 (alen block - snippetLen (alen block) + 1)))
        (snippetLen (alen block)) ltac:(lia)).
      lia. }
    split; [unfold windowBlock; apply Forall_slice, Hblock|].
    split; [reflexivity|].
    unfold windowBlock.
    destruct (slice_window block
      (randomBelow k (Z.max 1 (alen block - snippetLen (alen block) + 1)))
      (randomBelow k (Z.max 1 (alen block - snippetLen (alen block) + 1))
       + snippetLen (alen block))) as (before & after & Hw).
    exists block, before, after. split; [|exact Hw].
    apply Hincl. left. reflexivity.
Qed.

Lemma extractSnippetsFromFile_code randomBelow author email commitHash isMine
      filename k lines :
  Forall (codeSnippetOf filename lines)
         (fst (extractSnippetsFromFile randomBelow author email commitHash
                                       isMine filename k lines)).
Proof.
  unfold extractSnippetsFromFile. cbn [fst]. unfold codeSnippetOf.
  apply snippetsFromBlocks_windows; [apply incl_refl|].
  apply (scanFile_invariant lines).
Qed.

Lemma extractSnippetsFromFile_comments randomBelow author email commitHash
      isMine filename k lines :
  Forall (commentSnippetOf filename lines)
         (snd (extractSnippetsFromFile randomBelow author email commitHash
                                       isMine filename k lines)).
Proof.
  unfold extractSnippetsFromFile. cbn [snd].
  destruct (scanFile_invariant lines) as (_ & Hcb & _).
  unfold snippetsFromCommentBlocks.
  induction Hcb as [|b rest Hb _ IH]; [constructor|].
  cbn [flat_map]. apply Forall_app. split; [|exact IH].
  destruct ((1 <=? alen (cb_comment b))
            && existsb (fun c => 20 <? len (trim c)) (cb_comment b)) eqn:E;
    [|constructor].
  apply andb_prop in E as [_ E].
  destruct Hb as (_ & Hcom & Hlen & Hctx).
  constructor; [|constructor]. unfold commentSnippetOf.
  cbn [cm_filename cm_comment cm_context cm_hash].
  repeat split; auto.
  apply Exists_exists. apply existsb_exists in E as (c & Hc & E).
  exists c. split; [exact Hc|]. apply Z.ltb_lt, E.
Qed.

Lemma extractSnippetsFromDiff_files randomBelow author email commitHash isMine :
  forall files k,
    Forall (fun s => exists lines,
              In (cs_filename s, lines) files
              /\ codeSnippetOf (cs_filename s) lines s)
           (fst (extractSnippetsFromDiff randomBelow author email commitHash
                                         isMine k files))
    /\ Forall (fun s => exists lines,
                 In (cm_filename s, lines) files
                 /\ commentSnippetOf (cm_filename s) lines s)
              (snd (extractSnippetsFromDiff randomBelow author email commitHash
                                            isMine k files)).
Proof.
  induction files as [|[filename lines] rest IH]; intros k.
  - split; constructor.
  - cbn [extractSnippetsFromDiff].
    pose proof (extractSnippetsFromFile_code randomBelow author email
                  commitHash isMine filename k lines) as Hc.
    pose proof (extractSnippetsFromFile_comments randomBelow author email
                  commitHash isMine filename k lines) as Hm.
    destruct (extractSnippetsFromFile randomBelow author email commitHash
                isMine filename k lines) as [cs cms].
    specialize (IH (k + drawsOfFile lines)%nat).
    destruct (extractSnippetsFromDiff randomBelow author email commitHash
                isMine (k + drawsOfFile lines) rest) as [cs' cms'].
    cbn [fst snd] in *. destruct IH as [IH1 IH2].
    split; apply Forall_app; split.
    + eapply Forall_impl; [|exact Hc]. intros s Hs.
      assert (E : cs_filename s = filename) by apply Hs.
      exists lines. rewrite E. split; [left; reflexivity|exact Hs].
    + eapply Forall_impl; [|exact IH1]. intros s (l & Hin & Hs).
      exists l. split; [right; exact Hin|exact Hs].
    + eapply Forall_impl; [|exact Hm]. intros s Hs.
      assert (E : cm_filename s = filename) by apply Hs.
      exists lines. rewrite E. split; [left; reflexivity|exact Hs].
    + eapply Forall_impl; [|exact IH2]. intros s (l & Hin & Hs).
      exists l. split; [right; exact Hin|exact Hs].
Qed.

(** Every code snippet of a diff is a window of a code block of one of the
    retained file sections: it carries the name of that section, has
    between [MIN_SNIPPET_LINES] and [MAX_SNIPPET_LINES] lines, each the
    text of an added line of the section that is neither boilerplate, a
    long comment nor noise, is a contiguous part of a code block of the
    section, and its hash is the fingerprint of its lines.  This holds
    whatever [Math.random] returns. *)
Theorem code_snippets_are_windows_of_blocks :
  forall randomBelow author email commitHash isMine k files,
    Forall (fun s => exists lines,
              In (cs_filename s, lines) files
              /\ codeSnippetOf (cs_filename s) lines s)
           (fst (extractSnippetsFromDiff randomBelow author email commitHash
                                         isMine k files)).
Proof.
  intros randomBelow author email commitHash isMine k files.
  apply (extractSnippetsFromDiff_files randomBelow author email commitHash
           isMine files k).
Qed.

(** Every comment snippet of a diff comes from one of the retained file
    sections: its comment lines are added lines of the section that match
    a comment pattern, are longer than 15 characters and are no
    boilerplate; one of them is longer than 20 characters; its context
    holds at most two lines, each a substantive added line of the section;
    its hash is the fingerprint of the comment lines. *)
Theorem comment_snippets_are_long_comments :
  forall randomBelow author email commitHash isMine k files,
    Forall (fun s => exists lines,
              In (cm_filename s, lines) files
              /\ commentSnippetOf (cm_filename s) lines s)
           (snd (extractSnippetsFromDiff randomBelow author email commitHash
                                         isMine k files)).
Proof.
  intros randomBelow author email commitHash isMine k files.
  apply (extractSnippetsFromDiff_files randomBelow author email commitHash
           isMine files k).
Qed.

(** ** Lines the scan passes over *)

Lemma scanLine_skipped st line :
  isSkipped line = true -> scanLine st line = st.
Proof.
  unfold isSkipped, isAddedLine. intros H.
  apply andb_prop in H as [H1 H2]. apply negb_true_iff in H1.
  destruct st as [blocks cblocks cur ccur ctx hunk].
  unfold scanLine. rewrite H1. destruct hunk; cbn [negb]; [|reflexivity].
  destruct (startsWith line "+++") eqn:E3.
  { rewrite andb_false_r.
    destruct line as [|c line]; [discriminate|].
    cbn [startsWith] in E3 |- *.
    destruct (Ascii.eqb_spec "+"%char c) as [<-|Hc]; [|discriminate].
    reflexivity. }
  cbn [orb negb] in H2. rewrite andb_true_r in *.
  destruct (startsWith line "+") eqn:E1.
  - cbn [andb orb negb] in H2. rewrite orb_false_r in H2.
    rewrite H2. reflexivity.
  - cbn [andb orb] in H2. apply negb_true_iff in H2. rewrite H2. reflexivity.
Qed.

Lemma scanLines_skipped lines : forall st,
  scanLines st (filter (fun l => negb (isSkipped l)) lines)
  = scanLines st lines.
Proof.
  unfold scanLines. induction lines as [|line rest IH]; intros st.
  - reflexivity.
  - cbn [filter fold_left]. destruct (isSkipped line) eqn:E; cbn [negb].
    + rewrite (scanLine_skipped st line E). apply IH.
    + cbn [fold_left]. apply IH.
Qed.

(** Deleting from a file section the lines that start with [+++], the
    added lines of boilerplate (imports, package lines, lone brackets,
    blank lines) and the lines that start with none of [@@], [+], [-] and
    a space changes nothing: the section gives the same code snippets and
    the same comment snippets.  Such a line does not end a block. *)
Theorem skipped_lines_change_nothing :
  forall randomBelow author email commitHash isMine filename k lines,
    extractSnippetsFromFile randomBelow author email commitHash isMine
      filename k (filter (fun l => negb (isSkipped l)) lines)
    = extractSnippetsFromFile randomBelow author email commitHash isMine
        filename k lines.
Proof.
  intros. unfold extractSnippetsFromFile, scanFile.
  rewrite scanLines_skipped. reflexivity.
Qed.

Lemma scanLine_outside_hunk st line :
  inHunk st = false -> startsWith line "@@" = false -> scanLine st line = st.
Proof.
  destruct st as [blocks cblocks cur ccur ctx hunk]. cbn [inHunk].
  intros -> E. unfold scanLine. rewrite E. reflexivity.
Qed.

Lemma scanLines_fromFirstHunk lines : forall st,
  inHunk st = false ->
  scanLines st lines = scanLines st (fromFirstHunk lines).
Proof.
  unfold scanLines. induction lines as [|line rest IH]; intros st Hst.
  - reflexivity.
  - cbn [fromFirstHunk]. destruct (startsWith line "@@") eqn:E;
      [reflexivity|].
    cbn [fold_left]. rewrite (scanLine_outside_hunk st line Hst E).
    apply IH, Hst.
Qed.

(** The lines of a file section before its first hunk header (the
    [diff --git], [index], [---] and [+++] lines) play no part: the
    section gives the snippets of its lines from the first [@@] line on,
    and none at all when it has no hunk header. *)
Theorem lines_before_first_hunk_are_ignored :
  forall randomBelow author email commitHash isMine filename k lines,
    extractSnippetsFromFile randomBelow author email commitHash isMine
      filename k lines
    = extractSnippetsFromFile randomBelow author email commitHash isMine
        filename k (fromFirstHunk lines)
    /\ (fromFirstHunk lines = [] ->
        extractSnippetsFromFile randomBelow author email commitHash isMine
          filename k lines = ([], [])).
Proof.
  intros.
  assert (E : extractSnippetsFromFile randomBelow author email commitHash
                isMine filename k lines
              = extractSnippetsFromFile randomBelow author email commitHash
                  isMine filename k (fromFirstHunk lines)).
  { unfold extractSnippetsFromFile, scanFile.
    rewrite (scanLines_fromFirstHunk lines initialScan eq_refl).
    reflexivity. }
  split; [exact E|]. intros Hnil. rewrite E, Hnil. reflexivity.
Qed.

(* ====================================================================== *)
(** * The shape of a fingerprint                                           *)
(* ====================================================================== *)

Lemma collapseFrom_true_head s :
  startsWithSpace (collapseFrom true s) = false.
Proof.
  induction s as [|c s IH]; [reflexivity|].
  cbn [collapseFrom]. destruct (isSpace c) eqn:E; [exact IH|].
  cbn [startsWithSpace]. exact E.
Qed.

Lemma collapseFrom_singleSpaced s : forall inRun,
  singleSpaced (collapseFrom inRun s) = true.
Proof.
  induction s as [|c s IH]; intros inRun; [reflexivity|].
  cbn [collapseFrom]. destruct (isSpace c) eqn:E.
  - destruct inRun; [apply IH|].
    cbn [singleSpaced]. rewrite IH.
    change (isSpace " ") with true. cbn [Ascii.eqb Bool.eqb andb].
    pose proof (collapseFrom_true_head s) as Hh.
    destruct (collapseFrom true s) as [|d r]; [reflexivity|].
    cbn [startsWithSpace] in Hh. rewrite Hh. reflexivity.
  - cbn [singleSpaced]. rewrite E, IH. reflexivity.
Qed.

Lemma substringTo_singleSpaced n : forall s,
  singleSpaced s = true -> singleSpaced (substringTo n s) = true.
Proof.
  induction n as [|n IH]; intros [|c s] Hs; try reflexivity.
  cbn [substringTo singleSpaced] in *.
  apply andb_prop in Hs as [Hc Hs]. rewrite (IH s Hs), andb_true_r.
  destruct (isSpace c); [|reflexivity].
  apply andb_prop in Hc as [Hc1 Hc2]. rewrite Hc1. cbn [andb].
  destruct n as [|n]; destruct s as [|d s]; cbn [substringTo]; auto.
Qed.

Lemma trimStart_head s : startsWithSpace (trimStart s) = false.
Proof.
  induction s as [|c s IH]; [reflexivity|].
  cbn [trimStart]. destruct (isSpace c) eqn:E; [exact IH|].
  cbn [startsWithSpace]. exact E.
Qed.

Lemma trimEnd_head s :
  startsWithSpace s = false -> startsWithSpace (trimEnd s) = false.
Proof.
  destruct s as [|c s]; [reflexivity|]. cbn [startsWithSpace trimEnd].
  intros E. destruct (trimEnd s); [rewrite E|]; cbn [startsWithSpace]; auto.
Qed.

Lemma collapseFrom_false_head s :
  startsWithSpace s = false ->
  startsWithSpace (collapseFrom false s) = false.
Proof.
  destruct s as [|c s]; [reflexivity|]. cbn [startsWithSpace collapseFrom].
  intros E. rewrite E. cbn [startsWithSpace]. exact E.
Qed.

Lemma substringTo_head n s :
  startsWithSpace s = false -> startsWithSpace (substringTo n s) = false.
Proof. destruct n, s; cbn [substringTo startsWithSpace]; auto. Qed.

(** A fingerprint has at most 200 characters, does not start with white
    space, and its only white space is single spaces: no tab, no line
    break, no two spaces in a row. *)
Theorem hashContent_normal_form :
  forall content,
    len (hashContent content) <= 200
    /\ startsWithSpace (hashContent content) = false
    /\ singleSpaced (hashContent content) = true.
Proof.
  intros content. split; [apply hashContent_length|]. unfold hashContent.
  split.
  - apply substringTo_head, collapseFrom_false_head, trimEnd_head,
      trimStart_head.
  - apply substringTo_singleSpaced, collapseFrom_singleSpaced.
Qed.

(** ** The similarity test *)

Lemma samePositions_sym a : forall b, samePositions a b = samePositions b a.
Proof.
  induction a as [|x a IH]; intros [|y b]; cbn [samePositions]; try reflexivity.
  rewrite IH, Ascii.eqb_sym. reflexivity.
Qed.

Lemma duplicates_sym a b : duplicates a b = duplicates b a.
Proof.
  unfold duplicates. rewrite <- !samePositions_matching.
  rewrite String.eqb_sym, Z.min_comm, samePositions_sym. reflexivity.
Qed.

Lemma duplicates_refl a : duplicates a a = true.
Proof. unfold duplicates. rewrite String.eqb_refl. reflexivity. Qed.

(** The similarity test does not depend on the order of its arguments,
    and every fragment is similar to itself. *)
Theorem isSimilarSnippet_symmetric :
  forall a b,
    isSimilarSnippet a b = isSimilarSnippet b a
    /\ isSimilarSnippet a a = true.
Proof.
  intros a b. rewrite !isSimilarSnippet_duplicates. split.
  - apply duplicates_sym.
  - apply duplicates_refl.
Qed.

(** ** The survivors *)

Section SurvivorFacts.

Context {T : Type} `{Hashed T}.

Lemma dedupStep_accepts (accepted : list T) (x : T) :
  dedupStep (rev (map hash accepted), accepted) x
  = if accepts accepted x
    then (rev (map hash (accepted ++ [x])), accepted ++ [x])
    else (rev (map hash accepted), accepted).
Proof.
  unfold dedupStep, accepts. rewrite has_seen.
  destruct (existsb (fun y => String.eqb (hash x) (hash y)) accepted);
    [reflexivity|].
  cbn [negb andb].
  destruct (existsb (fun e => isSimilarSnippet (contentOf x) (contentOf e))
                    accepted); [reflexivity|].
  cbn [negb]. unfold push. rewrite map_app, rev_app_distr. reflexivity.
Qed.

Lemma dedup_fold (snippets : list T) :
  fold_left dedupStep snippets ([], [])
  = (rev (map hash (deduplicateSnippets snippets)),
     deduplicateSnippets snippets).
Proof.
  unfold deduplicateSnippets.
  induction snippets as [|x l IH] using rev_ind; [reflexivity|].
  rewrite fold_left_app. cbn [fold_left]. rewrite IH. cbn [snd].
  rewrite dedupStep_accepts.
  destruct (accepts (snd (fold_left dedupStep l ([], []))) x); reflexivity.
Qed.

(** The scan, fragment by fragment, with the tests of the code. *)
Lemma deduplicateSnippets_step (snippets : list T) (x : T) :
  deduplicateSnippets (snippets ++ [x])
  = deduplicateSnippets snippets
    ++ (if accepts (deduplicateSnippets snippets) x then [x] else []).
Proof.
  unfold deduplicateSnippets at 1.
  rewrite fold_left_app. cbn [fold_left]. rewrite dedup_fold.
  rewrite dedupStep_accepts.
  destruct (accepts (deduplicateSnippets snippets) x); cbn [snd];
    [|rewrite app_nil_r]; reflexivity.
Qed.

Lemma subsequence_snoc_keep (sub l : list T) x :
  subsequence sub l -> subsequence (sub ++ [x]) (l ++ [x]).
Proof.
  induction 1; cbn; repeat constructor; assumption.
Qed.

Lemma subsequence_snoc_drop (sub l : list T) x :
  subsequence sub l -> subsequence sub (l ++ [x]).
Proof.
  induction 1; cbn; repeat constructor; assumption.
Qed.

Lemma deduplicateSnippets_subsequence (snippets : list T) :
  subsequence (deduplicateSnippets snippets) snippets.
Proof.
  induction snippets as [|x l IH] using rev_ind; [constructor|].
  rewrite deduplicateSnippets_step.
  destruct (accepts (deduplicateSnippets l) x).
  - apply subsequence_snoc_keep, IH.
  - rewrite app_nil_r. apply subsequence_snoc_drop, IH.
Qed.

Lemma deduplicateSnippets_hashes (snippets : list T) :
  NoDup (map hash (deduplicateSnippets snippets)).
Proof.
  induction snippets as [|x l IH] using rev_ind; [constructor|].
  rewrite deduplicateSnippets_step.
  destruct (accepts (deduplicateSnippets l) x) eqn:E;
    [|rewrite app_nil_r; exact IH].
  rewrite map_app. cbn [map].
  apply NoDup_rev in IH. rewrite <- (rev_involutive (_ ++ _)).
  apply NoDup_rev. rewrite rev_app_distr. cbn [rev app].
  constructor; [|exact IH].
  intros Hin. apply in_rev, in_map_iff in Hin as (y & Hy & Hin).
  unfold accepts in E. apply andb_prop in E as [E _].
  apply negb_true_iff in E.
  assert (Ht : existsb (fun y => String.eqb (hash x) (hash y))
                       (deduplicateSnippets l) = true).
  { apply existsb_exists. exists y. split; [exact Hin|].
    rewrite Hy. apply String.eqb_refl. }
  rewrite Ht in E. discriminate.
Qed.

Lemma deduplicateSnippets_again (snippets : list T) :
  deduplicateSnippets (deduplicateSnippets snippets)
  = deduplicateSnippets snippets.
Proof.
  induction snippets as [|x l IH] using rev_ind; [reflexivity|].
  rewrite deduplicateSnippets_step.
  destruct (accepts (deduplicateSnippets l) x) eqn:E.
  - rewrite deduplicateSnippets_step, IH, E. reflexivity.
  - rewrite app_nil_r. exact IH.
Qed.

Lemma accepts_duplicates (accepted : list T) (x : T) :
  Forall fingerprinted accepted -> fingerprinted x ->
  accepts accepted x
  = negb (existsb (fun y => duplicates (hash x) (hash y)) accepted).
Proof.
  intros Hall Hx. unfold accepts.
  rewrite (similar_is_duplicate accepted x Hall Hx).
  destruct (existsb (fun y => String.eqb (hash x) (hash y)) accepted) eqn:E.
  - rewrite (same_hash_is_duplicate accepted x E). reflexivity.
  - reflexivity.
Qed.

Lemma ForallOrdPairs_snoc (R : T -> T -> Prop) l x :
  ForallOrdPairs R l -> Forall (fun y => R y x) l ->
  ForallOrdPairs R (l ++ [x]).
Proof.
  induction 1 as [|y r Hy Hr IHr]; intros Hx.
  - cbn. constructor; constructor.
  - inversion Hx as [|? ? Hyx Hrx]; subst. cbn [app]. constructor.
    + apply Forall_app. split; [exact Hy|].
      constructor; [exact Hyx|constructor].
    + apply IHr, Hrx.
Qed.

Lemma deduplicateSnippets_apart (snippets : list T) :
  Forall fingerprinted snippets ->
  ForallOrdPairs (fun x y => duplicates (hash x) (hash y) = false)
                 (deduplicateSnippets snippets)
  /\ Forall (fun x => Exists (fun y => duplicates (hash x) (hash y) = true)
                             (deduplicateSnippets snippets))
            snippets.
Proof.
  induction snippets as [|x l IH] using rev_ind; intros Hall.
  - split; constructor.
  - apply Forall_app in Hall as [Hl Hx]. inversion Hx as [|? ? Hx' _]; subst.
    destruct (IH Hl) as [IH1 IH2].
    rewrite deduplicateSnippets_step.
    rewrite (accepts_duplicates _ x (deduplicateSnippets_fingerprinted l Hl)
               Hx').
    destruct (existsb (fun y => duplicates (hash x) (hash y))
                      (deduplicateSnippets l)) eqn:E; cbn [negb].
    + rewrite app_nil_r. split; [exact IH1|].
      apply Forall_app. split; [exact IH2|].
      constructor; [|constructor].
      apply Exists_exists. apply existsb_exists in E. exact E.
    + split.
      * clear IH2.
        assert (Hnone : Forall (fun y => duplicates (hash y) (hash x) = false)
                               (deduplicateSnippets l)).
        { apply Forall_forall. intros y Hy. rewrite duplicates_sym.
          destruct (duplicates (hash x) (hash y)) eqn:D; [|reflexivity].
          assert (Ht : existsb (fun y => duplicates (hash x) (hash y))
                               (deduplicateSnippets l) = true)
            by (apply existsb_exists; exists y; split; assumption).
          rewrite Ht in E. discriminate. }
        apply ForallOrdPairs_snoc; assumption.
      * apply Forall_app. split.
        -- eapply Forall_impl; [|exact IH2]. intros y Hy.
           apply Exists_app. left. exact Hy.
        -- constructor; [|constructor].
           apply Exists_app. right. constructor. apply duplicates_refl.
Qed.

End SurvivorFacts.

(** The deduplication only leaves fragments out: the survivors are the
    input with some fragments removed, in the input's order.  No two
    survivors have the same hash, and deduplicating a second time changes
    nothing.  This holds for every input, whatever the hash fields
    hold. *)
Theorem deduplicateSnippets_keeps_order_once :
  forall (T : Type) (HT : Hashed T) (snippets : list T),
    subsequence (deduplicateSnippets snippets) snippets
    /\ NoDup (map hash (deduplicateSnippets snippets))
    /\ deduplicateSnippets (deduplicateSnippets snippets)
       = deduplicateSnippets snippets.
Proof.
  intros T HT snippets. split; [apply deduplicateSnippets_subsequence|].
  split; [apply deduplicateSnippets_hashes|apply deduplicateSnippets_again].
Qed.

(** For fragments that carry the fingerprint of their content: no two
    survivors are duplicates of each other, and every fragment of the
    input has a duplicate among the survivors (itself, when it
    survives). *)
Theorem deduplicateSnippets_survivors_apart :
  forall (T : Type) (HT : Hashed T) (snippets : list T),
    Forall fingerprinted snippets ->
    ForallOrdPairs (fun x y => duplicates (hash x) (hash y) = false)
                   (deduplicateSnippets snippets)
    /\ Forall (fun x => Exists (fun y => duplicates (hash x) (hash y) = true)
                               (deduplicateSnippets snippets))
              snippets.
Proof. intros T HT snippets. apply deduplicateSnippets_apart. Qed.

Lemma nearCopies_fingerprinted :
  Forall fingerprinted [tenLetters; nineShared; eightShared].
Proof. repeat constructor. Qed.

Lemma deduplicateSnippets_survivors_apart_witness :
  Forall fingerprinted [tenLetters; nineShared; eightShared]
  /\ String.eqb (hash nineShared) (hash tenLetters) = false
  /\ matchingPositions (hash nineShared) (hash tenLetters) = 9
  /\ duplicates (hash nineShared) (hash tenLetters) = true
  /\ matchingPositions (hash eightShared) (hash tenLetters) = 8
  /\ duplicates (hash eightShared) (hash tenLetters) = false
  /\ deduplicateSnippets [tenLetters; nineShared; eightShared]
     = [tenLetters; eightShared]
  /\ ForallOrdPairs (fun x y => duplicates (hash x) (hash y) = false)
                    (deduplicateSnippets [tenLetters; nineShared; eightShared])
  /\ Forall (fun x =>
               Exists (fun y => duplicates (hash x) (hash y) = true)
                      (deduplicateSnippets
                         [tenLetters; nineShared; eightShared]))
            [tenLetters; nineShared; eightShared].
Proof.
  split; [exact nearCopies_fingerprinted|].
  split; [reflexivity|]. split; [reflexivity|]. split; [reflexivity|].
  split; [reflexivity|]. split; [reflexivity|].
  split; [vm_compute; reflexivity|].
  apply (deduplicateSnippets_survivors_apart CodeSnippet CodeSnippet_Hashed
           [tenLetters; nineShared; eightShared] nearCopies_fingerprinted).
Defined.

(* ====================================================================== *)
(** * The days of the velocity list                                        *)
(* ====================================================================== *)

Lemma fold_velocityStep fetchCommit isSelected sampled : forall m,
  fold_left (velocityStep fetchCommit isSelected) sampled m
  = fold_left bumpDay (countedCommits fetchCommit isSelected sampled) m.
Proof.
  induction sampled as [|h rest IH]; intros m; [reflexivity|].
  cbn [fold_left countedCommits flat_map]. rewrite fold_left_app, IH.
  unfold velocityStep.
  destruct (fetchCommit h) as [info|]; [|reflexivity].
  destruct (isSelected (cd_authorKey info)); reflexivity.
Qed.

Lemma mapBump_cons k' v r k n :
  mapBump ((k', v) :: r) k n
  = if String.eqb k k' then (k', (fst v + n, snd v + 1)) :: r
    else (k', v) :: mapBump r k n.
Proof. destruct v as [l c]. reflexivity. Qed.

(** The loop body on a map with a first entry. *)
Lemma bumpDay_cons k' v r info :
  bumpDay ((k', v) :: r) info
  = if String.eqb (cd_date info) k'
    then (k', (fst v + countAddedLines (cd_diff info), snd v + 1)) :: r
    else (k', v) :: bumpDay r info.
Proof.
  unfold bumpDay. cbn [mapHas].
  destruct (String.eqb (cd_date info) k') eqn:E; cbn [orb negb].
  - rewrite mapBump_cons, E. reflexivity.
  - destruct (mapHas r (cd_date info)); cbn [negb].
    + rewrite mapBump_cons, E. reflexivity.
    + unfold push. cbn [app]. rewrite mapBump_cons, E. reflexivity.
Qed.

Lemma bumpDay_nil info :
  bumpDay [] info = [(cd_date info, (0 + countAddedLines (cd_diff info), 0 + 1))].
Proof.
  unfold bumpDay. cbn [mapHas negb push app mapBump].
  rewrite String.eqb_refl. reflexivity.
Qed.

Lemma bumpDay_get m info day :
  mapGet (bumpDay m info) day
  = if String.eqb day (cd_date info)
    then Some (match mapGet m day with
               | Some (l, c) => (l + countAddedLines (cd_diff info), c + 1)
               | None => (0 + countAddedLines (cd_diff info), 0 + 1)
               end)
    else mapGet m day.
Proof.
  induction m as [|[k' [l c]] r IH].
  - rewrite bumpDay_nil. cbn [mapGet].
    destruct (String.eqb day (cd_date info)); reflexivity.
  - rewrite bumpDay_cons. cbn [fst snd].
    destruct (String.eqb_spec (cd_date info) k') as [Hk|Hk].
    + cbn [mapGet]. subst k'.
      destruct (String.eqb day (cd_date info)); reflexivity.
    + cbn [mapGet]. rewrite IH.
      destruct (String.eqb_spec day k') as [->|Hd]; [|reflexivity].
      destruct (String.eqb_spec k' (cd_date info)) as [E|_];
        [congruence|reflexivity].
Qed.

Lemma bumpDay_keys m info :
  NoDup (map fst m) -> NoDup (map fst (bumpDay m info)).
Proof.
  induction m as [|[k' v] r IH]; intros Hm.
  - rewrite bumpDay_nil. cbn. constructor; [intros []|constructor].
  - rewrite bumpDay_cons.
    destruct (String.eqb (cd_date info) k') eqn:E; [exact Hm|].
    cbn [map fst] in *. inversion Hm as [|? ? Hk Hr]; subst.
    constructor; [|apply IH, Hr].
    intros Hin. apply Hk. clear IH Hm Hk Hr.
    induction r as [|[k2 v2] r IHr]; [rewrite bumpDay_nil in Hin|].
    + cbn in Hin. destruct Hin as [Hin|[]]. subst k'.
      rewrite String.eqb_refl in E. discriminate.
    + rewrite bumpDay_cons in Hin.
      destruct (String.eqb (cd_date info) k2); [exact Hin|].
      cbn [map fst] in *. destruct Hin as [Hin|Hin]; [left; exact Hin|].
      right. apply IHr, Hin.
Qed.

Lemma commitsOn_snoc day cs c :
  commitsOn day (cs ++ [c])
  = commitsOn day cs ++ (if String.eqb (cd_date c) day then [c] else []).
Proof. unfold commitsOn. rewrite filter_app. reflexivity. Qed.

Lemma sum_app (a b : list Z) :
  fold_right Z.add 0 (a ++ b) = fold_right Z.add 0 a + fold_right Z.add 0 b.
Proof. induction a as [|x a IH]; cbn [app fold_right]; lia. Qed.

Lemma totalsOf_fold cs : totalsOf cs (fold_left bumpDay cs []).
Proof.
  induction cs as [|c cs IH] using rev_ind.
  - split; [constructor|]. intros day. reflexivity.
  - rewrite fold_left_app. cbn [fold_left]. destruct IH as [Hkeys Hget].
    split; [apply bumpDay_keys, Hkeys|].
    intros day. rewrite bumpDay_get, Hget. unfold linesOn.
    rewrite commitsOn_snoc, map_app, sum_app, alen_app.
    pose proof (alen_nonneg (commitsOn day cs)) as Hn.
    rewrite (String.eqb_sym day).
    destruct (String.eqb (cd_date c) day); cbn [map fold_right].
    + change (alen [c]) with 1.
      destruct (alen (commitsOn day cs) =? 0) eqn:E0.
      * apply Z.eqb_eq in E0.
        assert (Hnil : commitsOn day cs = []).
        { destruct (commitsOn day cs); [reflexivity|].
          rewrite alen_cons in E0. pose proof (alen_nonneg l). lia. }
        rewrite Hnil. change (alen (@nil CommitData)) with 0.
        cbn [map fold_right]. change (0 + 1 =? 0) with false. cbv iota.
        f_equal. f_equal. lia.
      * apply Z.eqb_neq in E0.
        destruct (alen (commitsOn day cs) + 1 =? 0) eqn:E1;
          [apply Z.eqb_eq in E1; lia|].
        f_equal. f_equal; lia.
    + change (alen (@nil CommitData)) with 0. rewrite !Z.add_0_r.
      reflexivity.
Qed.

Lemma mapGet_In m k v :
  NoDup (map fst m) -> In (k, v) m -> mapGet m k = Some v.
Proof.
  induction m as [|[k' v'] r IH]; intros Hm Hin; [destruct Hin|].
  cbn [map fst] in Hm. inversion Hm as [|? ? Hk Hr]; subst.
  cbn [mapGet]. destruct Hin as [Hin|Hin].
  - injection Hin as -> ->. rewrite String.eqb_refl. reflexivity.
  - destruct (String.eqb_spec k k') as [->|_]; [|apply IH; assumption].
    exfalso. apply Hk. apply (in_map fst) in Hin. exact Hin.
Qed.

Lemma In_mapGet m k v : mapGet m k = Some v -> In (k, v) m.
Proof.
  induction m as [|[k' v'] r IH]; [discriminate|]. cbn [mapGet].
  destruct (String.eqb_spec k k') as [->|_].
  - intros H. injection H as ->. left. reflexivity.
  - intros H. right. apply IH, H.
Qed.

Lemma dailyResults_dates m : map date (dailyResults m) = map fst m.
Proof.
  unfold dailyResults. rewrite map_map. apply map_ext.
  intros [d [l c]]. reflexivity.
Qed.

Lemma NoDup_map_filter {A B} (f : A -> B) (p : A -> bool) l :
  NoDup (map f l) -> NoDup (map f (filter p l)).
Proof.
  induction l as [|x l IH]; intros H; [constructor|].
  cbn [map] in H. inversion H as [|? ? Hx Hl]; subst. cbn [filter].
  destruct (p x); [|apply IH, Hl]. cbn [map]. constructor; [|apply IH, Hl].
  intros Hin. apply Hx. apply in_map_iff in Hin as (y & Hy & Hin).
  apply filter_In in Hin as [Hin _]. rewrite <- Hy. apply in_map, Hin.
Qed.

Lemma NoDup_map_slice {A B} (f : A -> B) (l : list A) s e :
  NoDup (map f l) -> NoDup (map f (slice l s e)).
Proof.
  intros H. unfold slice.
  set (k := Z.to_nat (relIndex (alen l) s)).
  set (n := Z.to_nat _).
  rewrite <- (firstn_skipn k l), map_app in H.
  apply NoDup_app_remove_l in H.
  rewrite <- (firstn_skipn n (skipn k l)), map_app in H.
  apply NoDup_app_remove_r in H. exact H.
Qed.

(** [l.slice(0, n)] is the first [n] elements, or all of them. *)
Lemma slice_first {A} (l : list A) (n : Z) :
  0 <= n -> slice l 0 n = firstn (Z.to_nat n) l.
Proof.
  intros Hn. destruct (Z_le_gt_dec n (alen l)) as [Hle|Hgt].
  - apply slice_prefix. lia.
  - unfold slice, relIndex. cbn [Z.ltb Z.compare].
    destruct (n <? 0) eqn:E; [apply Z.ltb_lt in E; lia|].
    pose proof (alen_nonneg l).
    rewrite (Z.min_l 0) by lia. rewrite Z.min_r by lia.
    cbn [Z.to_nat skipn]. rewrite Z.sub_0_r, Z.max_l by lia.
    unfold alen in *. rewrite !firstn_all2 by lia. reflexivity.
Qed.

Lemma StronglySorted_app_inv {A} (R : A -> A -> Prop) (a b : list A) :
  StronglySorted R (a ++ b) ->
  forall x y, In x a -> In y b -> R x y.
Proof.
  induction a as [|z a IH]; intros H x y Hx Hy; [destruct Hx|].
  cbn [app] in H. inversion H as [|? ? Hs Hz]; subst.
  destruct Hx as [->|Hx]; [|apply (IH Hs x y Hx Hy)].
  rewrite Forall_forall in Hz. apply Hz, in_or_app. right. exact Hy.
Qed.

Lemma counted_day_in_results cs c :
  In c cs ->
  exists d,
    In d (dailyResults (fold_left bumpDay cs []))
    /\ date d = cd_date c
    /\ linesAdded d = linesOn (cd_date c) cs.
Proof.
  intros Hc. destruct (totalsOf_fold cs) as [Hkeys Hget].
  specialize (Hget (cd_date c)).
  assert (Hin : In c (commitsOn (cd_date c) cs)).
  { apply filter_In. split; [exact Hc|apply String.eqb_refl]. }
  destruct (alen (commitsOn (cd_date c) cs) =? 0) eqn:E0.
  { apply Z.eqb_eq in E0. destruct (commitsOn (cd_date c) cs) as [|x l];
      [destruct Hin|].
    rewrite alen_cons in E0. pose proof (alen_nonneg l). lia. }
  apply In_mapGet in Hget.
  eexists. split.
  - unfold dailyResults. apply in_map_iff. eexists. split; [|exact Hget].
    reflexivity.
  - split; reflexivity.
Qed.

(** Every day of the velocity list totals the sampled commits of the
    selected authors on that day: its commit count is their number, which
    is at least one (so the average never divides by zero), and its lines
    are their added lines; commits git fails on and commits of other
    authors count nowhere.  No day is listed twice. *)
Theorem velocity_days_total_their_commits :
  forall fetchCommit isSelected commitHashes,
    let counted :=
      countedCommits fetchCommit isSelected
                     (slice commitHashes 0 SAMPLE_COMMITS) in
    let out := analyzeDailyVelocity fetchCommit isSelected commitHashes in
    NoDup (map date out)
    /\ Forall (fun d =>
                 commits d = alen (commitsOn (date d) counted)
                 /\ 1 <= commits d
                 /\ linesAdded d = linesOn (date d) counted)
              out.
Proof.
  intros fetchCommit isSelected commitHashes counted out. subst out.
  unfold analyzeDailyVelocity. rewrite fold_velocityStep. fold counted.
  destruct (totalsOf_fold counted) as [Hkeys Hget].
  set (m := fold_left bumpDay counted []) in *.
  split.
  - apply NoDup_map_slice.
    apply (Permutation_NoDup
             (l := map date (filter (fun d => 500 <? linesAdded d)
                                    (dailyResults m)))).
    + apply Permutation_map, Permutation_sym, sortByLinesDesc_perm.
    + apply NoDup_map_filter. rewrite dailyResults_dates. exact Hkeys.
  - apply Forall_slice, Forall_sortByLinesDesc, Forall_forall.
    intros d Hd. apply filter_In in Hd as [Hd _].
    unfold dailyResults in Hd.
    apply in_map_iff in Hd as ([k [l c]] & <- & Hin).
    cbn [commits date linesAdded].
    apply (mapGet_In m k (l, c) Hkeys) in Hin. rewrite Hget in Hin.
    destruct (alen (commitsOn k counted) =? 0) eqn:E0; [discriminate|].
    apply Z.eqb_neq in E0. injection Hin as Hl Hc.
    pose proof (alen_nonneg (commitsOn k counted)).
    repeat split; lia.
Qed.

(** The list keeps the busiest days: for every counted commit whose day
    totals more than 500 added lines, either that day is in the list or
    the list is full (10 days) and each of its days has at least as many
    lines. *)
Theorem velocity_keeps_the_busiest_days :
  forall fetchCommit isSelected commitHashes,
    let counted :=
      countedCommits fetchCommit isSelected
                     (slice commitHashes 0 SAMPLE_COMMITS) in
    let out := analyzeDailyVelocity fetchCommit isSelected commitHashes in
    Forall (fun c =>
              500 < linesOn (cd_date c) counted ->
              Exists (fun d => date d = cd_date c) out
              \/ (alen out = 10
                  /\ Forall (fun d => linesOn (cd_date c) counted
                                      <= linesAdded d) out))
           counted.
Proof.
  intros fetchCommit isSelected commitHashes counted out. subst out.
  unfold analyzeDailyVelocity. rewrite fold_velocityStep. fold counted.
  apply Forall_forall. intros c Hc Hbusy.
  destruct (counted_day_in_results counted c Hc) as (d & Hd & Hdate & Hlines).
  set (sorted := sortByLinesDesc _).
  assert (Hs : In d sorted).
  { apply (Permutation_in _ (Permutation_sym (sortByLinesDesc_perm _))).
    apply filter_In. split; [exact Hd|]. apply Z.ltb_lt. lia. }
  rewrite slice_first by lia. change (Z.to_nat 10) with 10%nat.
  rewrite <- (firstn_skipn 10 sorted) in Hs.
  apply in_app_or in Hs as [Hs|Hs].
  - left. apply Exists_exists. exists d. split; assumption.
  - right.
    assert (Hlen : (10 < List.length sorted)%nat).
    { destruct (Nat.lt_ge_cases 10 (List.length sorted)) as [H|H];
        [exact H|].
      rewrite skipn_all2 in Hs by exact H. destruct Hs. }
    split; [unfold alen; rewrite length_firstn; lia|].
    apply Forall_forall. intros e He. rewrite <- Hlines.
    pose proof (sortByLinesDesc_sorted
                  (filter (fun d => 500 <? linesAdded d)
                          (dailyResults (fold_left bumpDay counted []))))
      as Hsorted.
    fold sorted in Hsorted.
    rewrite <- (firstn_skipn 10 sorted) in Hsorted.
    apply (StronglySorted_app_inv _ _ _ Hsorted e d He Hs).
Qed.

(* ====================================================================== *)
(** * The questions of a quiz                                              *)
(* ====================================================================== *)

Lemma NoDup_slice {A} (l : list A) s e : NoDup l -> NoDup (slice l s e).
Proof.
  intros H. rewrite <- (map_id (slice l s e)).
  apply NoDup_map_slice. rewrite map_id. exact H.
Qed.

Lemma filter_partition_alen {A} (p : A -> bool) (l : list A) :
  alen (filter p l) + alen (filter (fun x => negb (p x)) l) = alen l.
Proof.
  induction l as [|x l IH]; [reflexivity|]. cbn [filter].
  destruct (p x); cbn [negb]; rewrite !alen_cons; lia.
Qed.

Section QuestionSets.

Variable shuffle : forall T : Type, nat -> list T -> list T.
Hypothesis shuffled : wellShuffled shuffle.

Context {T : Type}.
Variables (Q : Z) (k : nat) (mine other : list T).
Hypothesis Q_range : 0 <= Q <= 4096.

Lemma selectQuestions_total :
  alen (selectQuestions shuffle Q k mine other)
  = Z.min Q (alen mine + alen other).
Proof.
  rewrite (selectQuestions_alen shuffle shuffled Q k mine other Q_range).
  unfold finalMyCount, otherCount, myCount.
  rewrite (ceil_six_tenths_exact Q Q_range).
  pose proof (ceilSixTenths_bounds Q ltac:(lia)).
  pose proof (alen_nonneg mine). pose proof (alen_nonneg other). lia.
Qed.

Lemma selectQuestions_incl :
  incl (selectQuestions shuffle Q k mine other) (mine ++ other).
Proof.
  unfold selectQuestions. intros x Hx.
  apply (Permutation_in _ (shuffled T _ _)) in Hx.
  apply in_or_app. apply in_app_or in Hx as [Hx|Hx].
  - left. apply (mySlice_incl shuffle shuffled Q k mine other x Hx).
  - right. apply (otherSlice_incl shuffle shuffled Q k mine other x Hx).
Qed.

Lemma selectQuestions_NoDup :
  NoDup mine -> NoDup other -> (forall x, In x mine -> ~ In x other) ->
  NoDup (selectQuestions shuffle Q k mine other).
Proof.
  intros Hm Ho Hdisj. unfold selectQuestions.
  apply (Permutation_NoDup (Permutation_sym (shuffled T _ _))).
  apply NoDup_app.
  - unfold mySlice. apply NoDup_slice.
    apply (Permutation_NoDup (Permutation_sym (shuffled T _ _)) Hm).
  - unfold otherSlice. apply NoDup_slice.
    apply (Permutation_NoDup (Permutation_sym (shuffled T _ _)) Ho).
  - intros x Hx Hy. apply (Hdisj x).
    + apply (mySlice_incl shuffle shuffled Q k mine other x Hx).
    + apply (otherSlice_incl shuffle shuffled Q k mine other x Hy).
Qed.

End QuestionSets.

Lemma deduplicateSnippets_NoDup {T : Type} `{Hashed T} (snippets : list T) :
  NoDup (deduplicateSnippets snippets).
Proof. apply (NoDup_map_inv hash), deduplicateSnippets_hashes. Qed.

Lemma questions_of_pool shuffle (T : Type) `{Hashed T} (mineOf : T -> bool)
      (Q : Z) (k : nat) (snippets : list T) :
  wellShuffled shuffle -> 0 <= Q <= 4096 ->
  let pool := deduplicateSnippets snippets in
  let questions :=
    selectQuestions shuffle Q k (filter mineOf pool)
                    (filter (fun s => negb (mineOf s)) pool) in
  NoDup questions
  /\ incl questions pool
  /\ alen questions = Z.min Q (alen pool).
Proof.
  intros Hs HQ pool questions. subst questions.
  split; [|split].
  - apply selectQuestions_NoDup; try assumption.
    + apply NoDup_filter, deduplicateSnippets_NoDup.
    + apply NoDup_filter, deduplicateSnippets_NoDup.
    + intros x Hx Hy. apply filter_In in Hx as [_ Hx].
      apply filter_In in Hy as [_ Hy]. rewrite Hx in Hy. discriminate.
  - intros x Hx.
    apply (selectQuestions_incl shuffle Hs Q k _ _) in Hx.
    apply in_app_or in Hx as [Hx|Hx]; apply filter_In in Hx as [Hx _];
      exact Hx.
  - rewrite (selectQuestions_total shuffle Hs Q k _ _ HQ).
    rewrite filter_partition_alen. reflexivity.
Qed.

(** The questions [scanCode] prepares: no fragment is asked twice, every
    question is a survivor of the deduplication, and each track holds 10
    questions or, when fewer fragments survive, all of them. *)
Theorem scanCode_questions :
  forall shuffle, wellShuffled shuffle ->
  forall st codeSnippets commentSnippets velocityStats,
    let st' := scanCode shuffle st codeSnippets commentSnippets velocityStats in
    (NoDup (memoryQuestions st')
     /\ incl (memoryQuestions st') (deduplicateSnippets codeSnippets)
     /\ alen (memoryQuestions st')
        = Z.min MEMORY_QUESTIONS (alen (deduplicateSnippets codeSnippets)))
    /\ (NoDup (commentQuestions st')
        /\ incl (commentQuestions st') (deduplicateSnippets commentSnippets)
        /\ alen (commentQuestions st')
           = Z.min COMMENT_QUESTIONS
                   (alen (deduplicateSnippets commentSnippets))).
Proof.
  intros shuffle Hs st codeSnippets commentSnippets velocityStats st'.
  assert (Hm : memoryQuestions st'
               = selectQuestions shuffle MEMORY_QUESTIONS 0
                   (filter (fun s => cs_isMyCode s)
                           (deduplicateSnippets codeSnippets))
                   (filter (fun s => negb (cs_isMyCode s))
                           (deduplicateSnippets codeSnippets))).
  { subst st'. unfold scanCode.
    destruct (alen (selectQuestions shuffle MEMORY_QUESTIONS 0 _ _) <? 3);
      reflexivity. }
  assert (Hc : commentQuestions st'
               = selectQuestions shuffle COMMENT_QUESTIONS 3
                   (filter (fun s => cm_isMyCode s)
                           (deduplicateSnippets commentSnippets))
                   (filter (fun s => negb (cm_isMyCode s))
                           (deduplicateSnippets commentSnippets))).
  { subst st'. unfold scanCode.
    destruct (alen (selectQuestions shuffle MEMORY_QUESTIONS 0 _ _) <? 3);
      reflexivity. }
  rewrite Hm, Hc. split.
  - apply (questions_of_pool shuffle CodeSnippet (fun s => cs_isMyCode s)
             MEMORY_QUESTIONS 0 codeSnippets Hs).
    unfold MEMORY_QUESTIONS. lia.
  - apply (questions_of_pool shuffle CommentSnippet (fun s => cm_isMyCode s)
             COMMENT_QUESTIONS 3 commentSnippets Hs).
    unfold COMMENT_QUESTIONS. lia.
Qed.

Lemma scanCode_questions_witness :
  wellShuffled noShuffle
  /\ alen (memoryQuestions (scanCode noShuffle beforeScan threeOfMine [] []))
     = Z.min MEMORY_QUESTIONS (alen (deduplicateSnippets threeOfMine)).
Proof.
  split; [exact wellShuffled_noShuffle|].
  apply (scanCode_questions noShuffle wellShuffled_noShuffle beforeScan
           threeOfMine [] []).
Defined.

(* ====================================================================== *)
(** * The answers of a quiz                                                *)
(* ====================================================================== *)

Lemma at_nth {A} (l : list A) (i : Z) (x : A) :
  at_ l i = Some x -> nth_error l (Z.to_nat i) = Some x.
Proof. unfold at_. destruct (i <? 0); [discriminate|]. auto. Qed.

Lemma firstn_snoc_nth {A} (l : list A) : forall n x,
  nth_error l n = Some x -> firstn (S n) l = firstn n l ++ [x].
Proof.
  induction l as [|y l IH]; intros [|n] x Hx; try discriminate.
  - cbn in Hx. injection Hx as ->. reflexivity.
  - cbn [nth_error] in Hx. cbn [firstn app]. f_equal. apply IH, Hx.
Qed.

Lemma log_snoc {S} (owner : S -> bool) (questions : list S)
      (log : list Answer) (i : Z) (q : S) (a : AnswerType) :
  map isMyCode log = map owner (firstn (List.length log) questions) ->
  alen log = i -> at_ questions i = Some q ->
  map isMyCode (push log (mkAnswer a (owner q)))
  = map owner (firstn (List.length (push log (mkAnswer a (owner q))))
                      questions).
Proof.
  intros Hlog Hi Hq. apply at_nth in Hq.
  unfold push. rewrite length_app, map_app, Hlog. cbn [List.length map].
  rewrite Nat.add_1_r.
  assert (Hn : Z.to_nat i = List.length log) by (unfold alen in Hi; lia).
  rewrite Hn in Hq. rewrite (firstn_snoc_nth questions _ q Hq), map_app.
  reflexivity.
Qed.

Lemma startGame_follows st : logsFollowQuestions (startGame st).
Proof.
  unfold logsFollowQuestions, startGame. cbn.
  repeat split; intros; try discriminate; reflexivity.
Qed.

Lemma scanCode_follows shuffle st codeSnippets commentSnippets velocityStats :
  app_phase
    (scanCode shuffle st codeSnippets commentSnippets velocityStats)
  = phase_scanning
  \/ app_phase
       (scanCode shuffle st codeSnippets commentSnippets velocityStats)
     = phase_ready.
Proof.
  unfold scanCode.
  destruct (alen (selectQuestions shuffle MEMORY_QUESTIONS 0 _ _) <? 3);
    [left|right]; reflexivity.
Qed.

Lemma handleMemoryAnswer_follows st answer :
  app_phase st = phase_memory ->
  logsFollowQuestions st -> logsFollowQuestions (handleMemoryAnswer st answer).
Proof.
  intros Hp Hinv. pose proof Hinv as (Hall & Hmem & _ & _).
  destruct (Hall (or_introl Hp)) as (Hml & Hcl & Ht1 & Ht2 & Ht3 & Ht4).
  destruct (Hmem Hp) as [Hidx Hempty].
  unfold handleMemoryAnswer.
  destruct (at_ (memoryQuestions st) (memoryIndex st)) as [q|] eqn:E;
    [|exact Hinv].
  pose proof (log_snoc (fun s => cs_isMyCode s) (memoryQuestions st)
                (answers (qr_memory (app_result st))) (memoryIndex st) q
                answer Hml Hidx E) as Hsnoc.
  pose proof (at_Some _ _ _ E) as Hrange.
  unfold logsFollowQuestions.
  destruct (memoryIndex st + 1 <? alen (memoryQuestions st)) eqn:E1;
    [apply Z.ltb_lt in E1
    |apply Z.ltb_ge in E1;
     destruct (0 <? alen (commentQuestions st)) eqn:E2;
     [apply Z.ltb_lt in E2|apply Z.ltb_ge in E2]];
    cbn [app_phase app_result memoryQuestions commentQuestions memoryIndex
         commentIndex qr_memory qr_comment answers addAnswer total
         track_myCodeTotal];
    rewrite ?alen_push, ?Hempty in *;
    (split; [intros _; repeat split; assumption|]);
    repeat split; intros; try discriminate; try congruence; try lia.
  pose proof (alen_nonneg (commentQuestions st)).
  change (alen (@nil Answer)) with 0. lia.
Qed.

Lemma handleCommentAnswer_follows st answer :
  app_phase st = phase_comment ->
  logsFollowQuestions st ->
  logsFollowQuestions (handleCommentAnswer st answer).
Proof.
  intros Hp Hinv. pose proof Hinv as (Hall & _ & Hcom & _).
  destruct (Hall (or_intror (or_introl Hp)))
    as (Hml & Hcl & Ht1 & Ht2 & Ht3 & Ht4).
  destruct (Hcom Hp) as [Hfull Hidx].
  unfold handleCommentAnswer.
  destruct (at_ (commentQuestions st) (commentIndex st)) as [q|] eqn:E;
    [|exact Hinv].
  pose proof (log_snoc (fun s => cm_isMyCode s) (commentQuestions st)
                (answers (qr_comment (app_result st))) (commentIndex st) q
                answer Hcl Hidx E) as Hsnoc.
  pose proof (at_Some _ _ _ E) as Hrange.
  unfold logsFollowQuestions.
  destruct (commentIndex st + 1 <? alen (commentQuestions st)) eqn:E1;
    [apply Z.ltb_lt in E1|apply Z.ltb_ge in E1];
    cbn [app_phase app_result memoryQuestions commentQuestions memoryIndex
         commentIndex qr_memory qr_comment answers addAnswer total
         track_myCodeTotal];
    rewrite ?alen_push in *;
    (split; [intros _; repeat split; assumption|]);
    repeat split; intros; try discriminate; try congruence; try lia.
Qed.

Lemma reachable_follows shuffle st :
  reachable shuffle st -> logsFollowQuestions st.
Proof.
  intros Hr.
  induction Hr as [c cm v|st Hr IH Hp|st a Hr IH Hp|st a Hr IH Hp].
  - destruct (scanCode_follows shuffle beforeScan c cm v) as [E|E];
      unfold logsFollowQuestions; rewrite E;
      repeat split; intros; try discriminate;
      repeat match goal with H : _ \/ _ |- _ => destruct H end;
      discriminate.
  - apply startGame_follows.
  - apply handleMemoryAnswer_follows; [apply (render_phase _ _ Hp)|exact IH].
  - apply handleCommentAnswer_follows; [apply (render_phase _ _ Hp)|exact IH].
Qed.

Lemma firstn_whole {A} (l : list A) (n : nat) :
  Z.of_nat n = alen l -> firstn n l = l.
Proof. unfold alen. intros E. apply firstn_all2. lia. Qed.

Lemma filter_of_map {A B} (f : A -> bool) (g : B -> bool) l l' :
  map f l = map g l' -> alen (filter f l) = alen (filter g l').
Proof.
  revert l'. induction l as [|x l IH]; intros [|y l'] E; try discriminate.
  - reflexivity.
  - cbn [map] in E. injection E as Exy E. cbn [filter]. rewrite Exy.
    destruct (g y); rewrite ?alen_cons, (IH l' E); reflexivity.
Qed.

(** When a run shows the result screen, each track's log holds one answer
    per question, in the order of the questions, and each answer carries
    the ownership flag of its question; so the number of self-authored
    items that [calculateVibeMetrics] counts in a log is the number
    [startGame] stored for the track. *)
Theorem result_logs_answer_every_question :
  forall shuffle st,
    reachable shuffle st ->
    app_phase st = phase_result ->
    let r := app_result st in
    map isMyCode (answers (qr_memory r))
    = map cs_isMyCode (memoryQuestions st)
    /\ map isMyCode (answers (qr_comment r))
       = map cm_isMyCode (commentQuestions st)
    /\ myCodeTotal (calculateVibeMetrics (answers (qr_memory r)))
       = track_myCodeTotal (qr_memory r)
    /\ myCodeTotal (calculateVibeMetrics (answers (qr_comment r)))
       = track_myCodeTotal (qr_comment r)
    /\ total (qr_memory r) = alen (answers (qr_memory r))
    /\ total (qr_comment r) = alen (answers (qr_comment r)).
Proof.
  intros shuffle st Hr Hp r. subst r.
  destruct (reachable_follows shuffle st Hr) as (Hall & _ & _ & Hres).
  destruct (Hall (or_intror (or_intror Hp)))
    as (Hml & Hcl & Ht1 & Ht2 & Ht3 & Ht4).
  destruct (Hres Hp) as [Hm Hc].
  rewrite firstn_whole in Hml by exact Hm.
  rewrite firstn_whole in Hcl by exact Hc.
  split; [exact Hml|]. split; [exact Hcl|].
  assert (Hcount : forall log,
             myCodeTotal (calculateVibeMetrics log)
             = alen (filter (fun a => isMyCode a) log)).
  { intros log. unfold calculateVibeMetrics.
    destruct (fold_left tallyMine _ _) as [[[a b] c] d].
    destruct (fold_left tallyOther _ _) as [e f]. reflexivity. }
  rewrite !Hcount, Ht3, Ht4.
  split; [apply (filter_of_map _ _ _ _ Hml)|].
  split; [apply (filter_of_map _ _ _ _ Hcl)|].
  split; congruence.
Qed.

Lemma result_logs_answer_every_question_witness :
  reachable noShuffle allForgotten
  /\ app_phase allForgotten = phase_result
  /\ map isMyCode (answers (qr_memory (app_result allForgotten)))
     = map cs_isMyCode (memoryQuestions allForgotten).
Proof.
  split; [exact allForgotten_reachable|]. split; [reflexivity|].
  apply (result_logs_answer_every_question noShuffle allForgotten
           allForgotten_reachable eq_refl).
Defined.

(** ** Answering every question *)

Lemma at_inside {A} (l : list A) (i : Z) :
  0 <= i < alen l -> exists x, at_ l i = Some x.
Proof.
  intros Hi. unfold at_. destruct (i <? 0) eqn:E; [apply Z.ltb_lt in E; lia|].
  destruct (nth_error l (Z.to_nat i)) as [x|] eqn:En; [exists x; reflexivity|].
  apply nth_error_None in En. unfold alen in Hi. lia.
Qed.

(** The rest of the comment phase: the answers left are logged in order
    and the result screen follows. *)
Lemma comment_phase_run : forall rest st,
  render st = PhaseScreen phase_comment ->
  0 <= commentIndex st ->
  commentIndex st + alen rest = alen (commentQuestions st) ->
  1 <= alen rest ->
  let final := fold_left answerQuestion rest st in
  render final = PhaseScreen phase_result
  /\ map type (answers (qr_comment (app_result final)))
     = map type (answers (qr_comment (app_result st))) ++ rest
  /\ answers (qr_memory (app_result final))
     = answers (qr_memory (app_result st)).
Proof.
  induction rest as [|a rest IH]; intros st Hp Hi Hlen Hne;
    [change (alen (@nil AnswerType)) with 0 in Hne; lia|].
  cbn zeta. cbn [fold_left]. rewrite alen_cons in Hlen.
  pose proof (alen_nonneg rest) as Hrest.
  destruct (render_phase _ _ Hp) as [Herr Hphase].
  assert (Hstep : answerQuestion st a = handleCommentAnswer st a)
    by (unfold answerQuestion; rewrite Hp; reflexivity).
  rewrite Hstep. clear Hstep.
  destruct (at_inside (commentQuestions st) (commentIndex st) ltac:(lia))
    as (q & Hq).
  unfold handleCommentAnswer. rewrite Hq.
  destruct (commentIndex st + 1 <? alen (commentQuestions st)) eqn:E1.
  - apply Z.ltb_lt in E1.
    match goal with |- context [fold_left answerQuestion rest ?s] =>
      specialize (IH s) end.
    cbn [commentIndex commentQuestions app_result qr_comment qr_memory
         answers addAnswer] in IH.
    destruct IH as (H1 & H2 & H3).
    + unfold render. cbn [app_error app_phase]. rewrite Herr, Hphase.
      reflexivity.
    + lia.
    + lia.
    + lia.
    + split; [exact H1|]. split; [|exact H3].
      rewrite H2. unfold push. rewrite map_app, <- app_assoc. reflexivity.
  - apply Z.ltb_ge in E1.
    assert (Hnil : rest = []).
    { destruct rest; [reflexivity|]. rewrite alen_cons in *.
      pose proof (alen_nonneg rest). lia. }
    subst rest. cbn [fold_left].
    split; [unfold render; cbn [app_error app_phase]; rewrite Herr;
            reflexivity|].
    cbn [app_result qr_comment qr_memory answers addAnswer].
    split; [|reflexivity]. unfold push. rewrite map_app. reflexivity.
Qed.

(** The rest of the memory phase: the answers left are logged in order,
    and the comment phase follows at its first question, or the result
    screen when there is no comment question. *)
Lemma memory_phase_run : forall rest st,
  render st = PhaseScreen phase_memory ->
  0 <= memoryIndex st ->
  memoryIndex st + alen rest = alen (memoryQuestions st) ->
  1 <= alen rest ->
  let final := fold_left answerQuestion rest st in
  render final
  = PhaseScreen (if 0 <? alen (commentQuestions st)
                 then phase_comment else phase_result)
  /\ ((0 <? alen (commentQuestions st)) = true -> commentIndex final = 0)
  /\ commentQuestions final = commentQuestions st
  /\ map type (answers (qr_memory (app_result final)))
     = map type (answers (qr_memory (app_result st))) ++ rest
  /\ answers (qr_comment (app_result final))
     = answers (qr_comment (app_result st)).
Proof.
  induction rest as [|a rest IH]; intros st Hp Hi Hlen Hne;
    [change (alen (@nil AnswerType)) with 0 in Hne; lia|].
  cbn zeta. cbn [fold_left]. rewrite alen_cons in Hlen.
  pose proof (alen_nonneg rest) as Hrest.
  destruct (render_phase _ _ Hp) as [Herr Hphase].
  assert (Hstep : answerQuestion st a = handleMemoryAnswer st a)
    by (unfold answerQuestion; rewrite Hp; reflexivity).
  rewrite Hstep. clear Hstep.
  destruct (at_inside (memoryQuestions st) (memoryIndex st) ltac:(lia))
    as (q & Hq).
  unfold handleMemoryAnswer. rewrite Hq.
  destruct (memoryIndex st + 1 <? alen (memoryQuestions st)) eqn:E1.
  - apply Z.ltb_lt in E1.
    match goal with |- context [fold_left answerQuestion rest ?s] =>
      specialize (IH s) end.
    cbn [memoryIndex memoryQuestions commentQuestions app_result qr_comment
         qr_memory answers addAnswer] in IH.
    destruct IH as (H1 & H2 & H3 & H4 & H5).
    + unfold render. cbn [app_error app_phase]. rewrite Herr, Hphase.
      reflexivity.
    + lia.
    + lia.
    + lia.
    + split; [exact H1|]. split; [exact H2|]. split; [exact H3|].
      split; [|exact H5].
      rewrite H4. unfold push. rewrite map_app, <- app_assoc. reflexivity.
  - apply Z.ltb_ge in E1.
    assert (Hnil : rest = []).
    { destruct rest; [reflexivity|]. rewrite alen_cons in *.
      pose proof (alen_nonneg rest). lia. }
    subst rest. cbn [fold_left].
    destruct (0 <? alen (commentQuestions st)) eqn:E2;
      (split; [unfold render; cbn [app_error app_phase]; rewrite Herr;
               reflexivity|]);
      cbn [app_result qr_comment qr_memory answers addAnswer commentIndex
           commentQuestions];
      (split; [intros; (reflexivity || discriminate)|]);
      (split; [reflexivity|]);
      (split; [|reflexivity]); unfold push; rewrite map_app; reflexivity.
Qed.

(** A quiz with at least one code question ends: from the ready screen,
    starting the game and giving as many answers as there are questions
    leads to the result screen, with the first answers logged, in order,
    in the code track and the others in the comment track. *)
Theorem quiz_ends_after_every_question :
  forall st (given : list AnswerType),
    render st = PhaseScreen phase_ready ->
    1 <= alen (memoryQuestions st) ->
    alen given = alen (memoryQuestions st) + alen (commentQuestions st) ->
    let final := fold_left answerQuestion given (startGame st) in
    let n := List.length (memoryQuestions st) in
    render final = PhaseScreen phase_result
    /\ map type (answers (qr_memory (app_result final))) = firstn n given
    /\ map type (answers (qr_comment (app_result final))) = skipn n given.
Proof.
  intros st given Hp Hn Hlen final n. subst final.
  destruct (render_phase _ _ Hp) as [Herr _].
  pose proof (alen_nonneg (commentQuestions st)) as Hc.
  assert (Hgl : (n <= List.length given)%nat) by (unfold alen in *; lia).
  assert (Hsplit : fold_left answerQuestion given (startGame st)
                   = fold_left answerQuestion (skipn n given)
                       (fold_left answerQuestion (firstn n given)
                                  (startGame st))).
  { rewrite <- fold_left_app, firstn_skipn. reflexivity. }
  rewrite Hsplit. clear Hsplit.
  assert (Hfirst : alen (firstn n given) = alen (memoryQuestions st)).
  { unfold alen. rewrite length_firstn. unfold alen in *. lia. }
  assert (Hskip : alen (skipn n given) = alen (commentQuestions st)).
  { unfold alen. rewrite length_skipn. unfold alen in *. lia. }
  destruct (memory_phase_run (firstn n given) (startGame st))
    as (H1 & H2 & H3 & H4 & H5).
  { unfold render, startGame. cbn [app_error app_phase]. rewrite Herr.
    reflexivity. }
  { cbn. lia. }
  { cbn [startGame memoryIndex memoryQuestions]. lia. }
  { lia. }
  set (mid := fold_left answerQuestion (firstn n given) (startGame st)) in *.
  cbn [startGame commentQuestions app_result qr_memory qr_comment answers
       map app] in H1, H2, H3, H4, H5.
  destruct (0 <? alen (commentQuestions st)) eqn:E.
  - apply Z.ltb_lt in E.
    destruct (comment_phase_run (skipn n given) mid H1)
      as (K1 & K2 & K3).
    { rewrite H2; [lia|reflexivity]. }
    { rewrite H2 by reflexivity. rewrite H3. lia. }
    { lia. }
    split; [exact K1|]. rewrite K2, K3, H5, H4. split; reflexivity.
  - apply Z.ltb_ge in E.
    assert (Hnil : skipn n given = []).
    { destruct (skipn n given); [reflexivity|]. rewrite alen_cons in Hskip.
      pose proof (alen_nonneg l). lia. }
    rewrite Hnil. cbn [fold_left].
    split; [exact H1|]. rewrite H4, H5. split; reflexivity.
Qed.

Lemma quiz_ends_after_every_question_witness :
  let st := scanCode noShuffle beforeScan threeOfMine [] [] in
  render st = PhaseScreen phase_ready
  /\ render (fold_left answerQuestion [foreign; remember; familiar]
                       (startGame st))
     = PhaseScreen phase_result.
Proof.
  assert (H0 : render (scanCode noShuffle beforeScan threeOfMine [] [])
               = PhaseScreen phase_ready) by (vm_compute; reflexivity).
  split; [exact H0|].
  apply (quiz_ends_after_every_question
           (scanCode noShuffle beforeScan threeOfMine [] [])
           [foreign; remember; familiar] H0);
    vm_compute; (reflexivity || discriminate).
Defined.

(* ====================================================================== *)
(** * The metrics and the result screen                                    *)
(* ====================================================================== *)

Lemma filter_alen_perm {A} (p : A -> bool) (l l' : list A) :
  Permutation l l' -> alen (filter p l) = alen (filter p l').
Proof.
  intros H. induction H as [|x l l' H IH|x y l|l l' l'' H1 IH1 H2 IH2].
  - reflexivity.
  - cbn [filter]. destruct (p x); rewrite ?alen_cons, IH; reflexivity.
  - cbn [filter]. destruct (p x), (p y); rewrite ?alen_cons; reflexivity.
  - congruence.
Qed.

Lemma filter_filter_alen_perm {A} (p q : A -> bool) (l l' : list A) :
  Permutation l l' ->
  alen (filter p (filter q l)) = alen (filter p (filter q l')).
Proof.
  intros H. induction H as [|x l l' H IH|x y l|l l' l'' H1 IH1 H2 IH2].
  - reflexivity.
  - cbn [filter]. destruct (q x); cbn [filter]; [|exact IH].
    destruct (p x); rewrite ?alen_cons, IH; reflexivity.
  - cbn [filter]. destruct (q x), (q y); cbn [filter];
      destruct (p x), (p y); rewrite ?alen_cons; reflexivity.
  - congruence.
Qed.

(** The counters of [calculateVibeMetrics] add up: the four counters of
    one's own code make [myCodeTotal], the two of the code of others make
    [otherCodeTotal], and the two totals make the length of the log. *)
Theorem metrics_counters_add_up :
  forall log,
    let m := calculateVibeMetrics log in
    myCodeRecognized m + myCodeFamiliar m + myCodeUncertain m
    + myCodeMisidentified m = myCodeTotal m
    /\ otherCodeCorrect m + otherCodeFalseMemory m = otherCodeTotal m
    /\ myCodeTotal m + otherCodeTotal m = alen log.
Proof.
  intros log m. subst m. rewrite calculateVibeMetrics_counts.
  cbn [myCodeRecognized myCodeFamiliar myCodeUncertain myCodeMisidentified
       myCodeTotal otherCodeCorrect otherCodeFalseMemory otherCodeTotal].
  split; [apply countOf_total|]. split; [|apply self_other_partition].
  unfold correctlyRejectedCount, falseMemoryCount.
  pose proof (countOf_total (otherAnswers log)). lia.
Qed.

(** The metrics do not depend on the order of the answers. *)
Theorem metrics_ignore_answer_order :
  forall log log',
    Permutation log log' ->
    calculateVibeMetrics log = calculateVibeMetrics log'.
Proof.
  intros log log' H. rewrite !calculateVibeMetrics_counts.
  unfold correctlyRejectedCount, falseMemoryCount, countOf, selfAnswers,
    otherAnswers.
  rewrite (filter_alen_perm (fun a => isMyCode a) log log' H).
  rewrite (filter_alen_perm (fun a => negb (isMyCode a)) log log' H).
  rewrite !(filter_filter_alen_perm _ (fun a => isMyCode a) log log' H).
  rewrite !(filter_filter_alen_perm _ (fun a => negb (isMyCode a)) log log' H).
  reflexivity.
Qed.

Lemma metrics_ignore_answer_order_witness :
  Permutation exampleLog (rev exampleLog)
  /\ calculateVibeMetrics exampleLog = calculateVibeMetrics (rev exampleLog).
Proof.
  split; [apply Permutation_rev|].
  apply (metrics_ignore_answer_order exampleLog (rev exampleLog)
           (Permutation_rev exampleLog)).
Defined.

Lemma exactVibe_zero (forgot fam m c o : Z) :
  0 <= forgot -> 0 <= fam -> forgot + fam <= m -> m <= 14 ->
  0 <= c <= o -> o <= 14 ->
  exactVibe forgot fam (Z.max 1 m) c (Z.max 1 o) = 0
  <-> forgot = 0 /\ fam = 0 /\ c = 0.
Proof.
  intros Hf Hfam Hm Hm14 Hc Ho. unfold exactVibe.
  set (m' := Z.max 1 m). set (o' := Z.max 1 o).
  assert (Hm' : 1 <= m' <= 14) by (subst m'; lia).
  assert (Ho' : 1 <= o' <= 14) by (subst o'; lia).
  assert (Hden : 0 < 2 * (m' * o')) by nia.
  split.
  - intros H.
    assert (Hlt : 2 * ((50 * forgot + 30 * fam) * o' + 20 * c * m')
                  + m' * o' < 2 * (m' * o')).
    { apply Z.div_small_iff in H; [|lia]. nia. }
    assert (forgot = 0) by nia. subst forgot.
    assert (fam = 0) by nia. subst fam.
    assert (c = 0) by nia. auto.
  - intros (-> & -> & ->). apply Z.div_small. nia.
Qed.

(** On the logs a track can hold (up to 14 answers) the track score is 0
    exactly when every self-authored item was answered remember and no
    item of someone else was answered remember or familiar. *)
Theorem zero_score_means_perfect_recall :
  forall log,
    alen log <= 14 ->
    (vibeScore (calculateVibeMetrics log) = 0
     <-> myCodeRecognized (calculateVibeMetrics log)
         = myCodeTotal (calculateVibeMetrics log)
         /\ otherCodeFalseMemory (calculateVibeMetrics log) = 0).
Proof.
  intros log Hlen. rewrite (vibeScore_exact log Hlen).
  rewrite calculateVibeMetrics_counts.
  cbn [myCodeRecognized myCodeTotal otherCodeFalseMemory].
  unfold trackScoreExact.
  pose proof (self_other_partition log) as Hp.
  pose proof (countOf_total (selfAnswers log)) as Hs.
  pose proof (countOf_total (otherAnswers log)) as Ho.
  pose proof (countOf_nonneg remember (selfAnswers log)).
  pose proof (countOf_nonneg familiar (selfAnswers log)).
  pose proof (countOf_nonneg uncertain (selfAnswers log)).
  pose proof (countOf_nonneg foreign (selfAnswers log)).
  pose proof (countOf_nonneg remember (otherAnswers log)).
  pose proof (countOf_nonneg familiar (otherAnswers log)).
  pose proof (countOf_nonneg uncertain (otherAnswers log)).
  pose proof (countOf_nonneg foreign (otherAnswers log)).
  pose proof (alen_nonneg (selfAnswers log)).
  pose proof (alen_nonneg (otherAnswers log)).
  unfold falseMemoryCount in *.
  pose proof (exactVibe_zero
                (countOf uncertain (selfAnswers log)
                 + countOf foreign (selfAnswers log))
                (countOf familiar (selfAnswers log))
                (alen (selfAnswers log))
                (countOf remember (otherAnswers log)
                 + countOf familiar (otherAnswers log))
                (alen (otherAnswers log))
                ltac:(lia) ltac:(lia) ltac:(lia) ltac:(lia) ltac:(lia)
                ltac:(lia)) as Hz.
  assert (Hnn : 0 <= exactVibe
                  (countOf uncertain (selfAnswers log)
                   + countOf foreign (selfAnswers log))
                  (countOf familiar (selfAnswers log))
                  (Z.max 1 (alen (selfAnswers log)))
                  (countOf remember (otherAnswers log)
                   + countOf familiar (otherAnswers log))
                  (Z.max 1 (alen (otherAnswers log)))).
  { unfold exactVibe. apply Z.div_pos; nia. }
  split.
  - intros Hzero.
    assert (Hv : exactVibe
                   (countOf uncertain (selfAnswers log)
                    + countOf foreign (selfAnswers log))
                   (countOf familiar (selfAnswers log))
                   (Z.max 1 (alen (selfAnswers log)))
                   (countOf remember (otherAnswers log)
                    + countOf familiar (otherAnswers log))
                   (Z.max 1 (alen (otherAnswers log))) = 0) by lia.
    apply Hz in Hv. lia.
  - intros [Hall Hnone].
    assert (Hv : exactVibe
                   (countOf uncertain (selfAnswers log)
                    + countOf foreign (selfAnswers log))
                   (countOf familiar (selfAnswers log))
                   (Z.max 1 (alen (selfAnswers log)))
                   (countOf remember (otherAnswers log)
                    + countOf familiar (otherAnswers log))
                   (Z.max 1 (alen (otherAnswers log))) = 0)
      by (apply Hz; lia).
    rewrite Hv. reflexivity.
Qed.

Lemma zero_score_means_perfect_recall_witness :
  alen [mkAnswer remember true; mkAnswer foreign false] <= 14
  /\ vibeScore (calculateVibeMetrics
                  [mkAnswer remember true; mkAnswer foreign false]) = 0.
Proof.
  assert (H : alen [mkAnswer remember true; mkAnswer foreign false] <= 14)
    by (vm_compute; discriminate).
  split; [exact H|].
  apply (zero_score_means_perfect_recall
           [mkAnswer remember true; mkAnswer foreign false] H).
  vm_compute. split; reflexivity.
Defined.

(** ** Titles and remarks *)

(** A higher total never earns an earlier title of [getVibeRating], and
    the last title is kept for totals of 100 and more. *)
Theorem getVibeRating_is_monotone :
  forall score score',
    score <= score' ->
    ratingRank (getVibeRating score) <= ratingRank (getVibeRating score')
    /\ (getVibeRating score = AIPuppet <-> 100 <= score).
Proof.
  intros s t Hst. unfold getVibeRating. split.
  - repeat match goal with
           | |- context [?a <=? ?b] =>
               let E := fresh "E" in
               destruct (Z.leb_spec a b) as [E|E]
           | |- context [?a <? ?b] =>
               let E := fresh "E" in
               destruct (Z.ltb_spec a b) as [E|E]
           end; cbn [ratingRank]; lia.
  - repeat match goal with
           | |- context [?a <=? ?b] =>
               let E := fresh "E" in
               destruct (Z.leb_spec a b) as [E|E]
           | |- context [?a <? ?b] =>
               let E := fresh "E" in
               destruct (Z.ltb_spec a b) as [E|E]
           end; split; intros H; try discriminate; try lia; reflexivity.
Qed.

Lemma getVibeRating_is_monotone_witness :
  40 <= 41
  /\ ratingRank (getVibeRating 40) <= ratingRank (getVibeRating 41).
Proof.
  assert (H : 40 <= 41) by lia.
  split; [exact H|]. apply (getVibeRating_is_monotone 40 41 H).
Defined.

(** The last remark of [getMemoryComment] and of [getCommentComment], the
    one for scores of 80 and more, is never printed: the score of a log
    with at most 20 answers of each ownership stays below 80. *)
Theorem last_remark_is_never_shown :
  forall log,
    alen (selfAnswers log) <= 20 ->
    alen (otherAnswers log) <= 20 ->
    getMemoryComment (vibeScore (calculateVibeMetrics log)) <> RemarkFrom80
    /\ getCommentComment (vibeScore (calculateVibeMetrics log))
       <> RemarkFrom80.
Proof.
  intros log Hs Ho. pose proof (vibeScore_range log Hs Ho) as Hr.
  unfold getMemoryComment, getCommentComment.
  destruct (Z.ltb_spec (vibeScore (calculateVibeMetrics log)) 20);
    [split; discriminate|].
  destruct (Z.ltb_spec (vibeScore (calculateVibeMetrics log)) 50);
    [split; discriminate|].
  destruct (Z.ltb_spec (vibeScore (calculateVibeMetrics log)) 80);
    [split; discriminate|lia].
Qed.

Lemma last_remark_is_never_shown_witness :
  alen (selfAnswers exampleLog) <= 20
  /\ alen (otherAnswers exampleLog) <= 20
  /\ getMemoryComment (vibeScore (calculateVibeMetrics exampleLog))
     <> RemarkFrom80.
Proof.
  assert (H1 : alen (selfAnswers exampleLog) <= 20)
    by (vm_compute; discriminate).
  assert (H2 : alen (otherAnswers exampleLog) <= 20)
    by (vm_compute; discriminate).
  split; [exact H1|]. split; [exact H2|].
  apply (last_remark_is_never_shown exampleLog H1 H2).
Defined.

(** ** The breakdown *)

(** By evaluation, for every pair of track scores from 0 to 100. *)
Lemma parts_near_total_checked :
  forallb (fun m => forallb (fun c => partsNearTotal m c) (zrange 100))
          (zrange 100) = true.
Proof. vm_compute. reflexivity. Qed.

(** The breakdown of the result screen prints the two weighted track
    scores rounded one by one; with the bonus they add up to the total or
    miss it by one, never by more. *)
Theorem breakdown_is_within_one_of_total :
  forall memoryVibeScore commentVibeScore velocityLength,
    0 <= memoryVibeScore <= 100 ->
    0 <= commentVibeScore <= 100 ->
    0 <= velocityLength ->
    Z.abs (shownMemoryPart memoryVibeScore
           + shownCommentPart commentVibeScore
           + velocityBonus velocityLength
           - compositeScore memoryVibeScore commentVibeScore velocityLength)
    <= 1.
Proof.
  intros m c n Hm Hc Hn. pose proof parts_near_total_checked as H.
  rewrite forallb_forall in H.
  specialize (H m (zrange_In 100 m ltac:(cbn; lia))).
  rewrite forallb_forall in H.
  specialize (H c (zrange_In 100 c ltac:(cbn; lia))).
  unfold partsNearTotal in H. rewrite forallb_forall in H.
  assert (Hb : In (velocityBonus n) [0; 3; 6; 9; 12; 15]).
  { unfold velocityBonus.
    assert (Hcases : n = 0 \/ n = 1 \/ n = 2 \/ n = 3 \/ n = 4 \/ 5 <= n)
      by lia.
    destruct Hcases as [->|[->|[->|[->|[->|H5]]]]]; cbn; auto 10.
    rewrite Z.min_r by lia. cbn. auto 10. }
  specialize (H _ Hb). apply Z.leb_le in H. exact H.
Qed.

Lemma breakdown_is_within_one_of_total_witness :
  0 <= 1 <= 100 /\ 0 <= 2 <= 100 /\ 0 <= 0
  /\ shownMemoryPart 1 + shownCommentPart 2 = 2
  /\ compositeScore 1 2 0 = 1
  /\ Z.abs (shownMemoryPart 1 + shownCommentPart 2 + velocityBonus 0
            - compositeScore 1 2 0) <= 1.
Proof.
  assert (H1 : 0 <= 1 <= 100) by lia.
  assert (H2 : 0 <= 2 <= 100) by lia.
  assert (H0 : 0 <= 0) by lia.
  split; [exact H1|]. split; [exact H2|]. split; [exact H0|].
  split; [vm_compute; reflexivity|]. split; [vm_compute; reflexivity|].
  apply (breakdown_is_within_one_of_total 1 2 0 H1 H2 H0).
Defined.

(* ====================================================================== *)
(** * Which files are code                                                 *)
(* ====================================================================== *)

Lemma Lang_anything s : Lang anything s.
Proof.
  unfold anything. induction s as [|c s IH]; [constructor|].
  apply (lang_star_app _ (String c EmptyString) s); [|exact IH].
  constructor. reflexivity.
Qed.

Lemma Lang_lit s : Lang (lit s) s.
Proof.
  induction s as [|c s IH]; [constructor|].
  destruct s as [|d s].
  - cbn. constructor. apply Ascii.eqb_refl.
  - change (lit (String c (String d s)))
      with (Cat (chr c) (lit (String d s))).
    apply (lang_cat (chr c) _ (String c EmptyString) (String d s)); [|exact IH].
    constructor. apply Ascii.eqb_refl.
Qed.

Lemma matches_containing frag before after :
  matches (containing (lit frag)) (before ++ frag ++ after) = true.
Proof.
  apply matches_Lang. unfold containing.
  apply lang_cat; [apply Lang_anything|].
  apply lang_cat; [apply Lang_lit|apply Lang_anything].
Qed.

Lemma matches_ending frag before :
  matches (ending (lit frag)) (before ++ frag) = true.
Proof.
  apply matches_Lang. unfold ending.
  apply lang_cat; [apply Lang_anything|apply Lang_lit].
Qed.

Lemma isCodeFile_ignored filename :
  existsb (fun pattern => matches pattern filename) IGNORED_PATTERNS = true ->
  isCodeFile filename = false.
Proof. unfold isCodeFile. intros ->. reflexivity. Qed.

(** A path that holds one of the fragments [.min.], [.bundle.],
    [.generated.], [node_modules], [vendor/], [dist/], [build/],
    [target/], [__pycache__] anywhere, or that ends with [.d.ts] or
    [.pyc], is no code file, whatever its extension. *)
Theorem ignored_paths_are_no_code_files :
  forall before after,
    Forall (fun fragment => isCodeFile (before ++ fragment ++ after) = false)
           [ ".min."; ".bundle."; ".generated."; "node_modules"; "vendor/";
             "dist/"; "build/"; "target/"; "__pycache__" ]%string
    /\ isCodeFile (before ++ ".d.ts") = false
    /\ isCodeFile (before ++ ".pyc") = false.
Proof.
  intros before after.
  assert (Hin : forall frag,
             In (containing (lit frag)) IGNORED_PATTERNS ->
             isCodeFile (before ++ frag ++ after) = false).
  { intros frag Hfrag. apply isCodeFile_ignored, existsb_exists.
    exists (containing (lit frag)). split; [exact Hfrag|].
    apply matches_containing. }
  assert (Hend : forall frag,
             In (ending (lit frag)) IGNORED_PATTERNS ->
             isCodeFile (before ++ frag) = false).
  { intros frag Hfrag. apply isCodeFile_ignored, existsb_exists.
    exists (ending (lit frag)). split; [exact Hfrag|].
    apply matches_ending. }
  split; [|split; apply Hend; unfold IGNORED_PATTERNS; auto 20 using in_eq, in_cons].
  repeat constructor; apply Hin; unfold IGNORED_PATTERNS;
    auto 20 using in_eq, in_cons.
Qed.

(** ** The extension *)

Lemma lastIndexOf_range s c : -1 <= lastIndexOf s c < len s.
Proof.
  unfold len. induction s as [|d s IH]; cbn [lastIndexOf String.length];
    [lia|].
  destruct (0 <=? lastIndexOf s c) eqn:E; [apply Z.leb_le in E; lia|].
  destruct (Ascii.eqb d c); lia.
Qed.

Lemma lastIndexOf_none s c : lastIndexOf s c = -1 <-> lacks c s = true.
Proof.
  induction s as [|d s IH]; cbn [lastIndexOf lacks]; [tauto|].
  pose proof (lastIndexOf_range s c) as Hr.
  destruct (0 <=? lastIndexOf s c) eqn:E.
  - apply Z.leb_le in E. split; [lia|]. intros H.
    apply andb_prop in H as [_ H]. apply IH in H. lia.
  - apply Z.leb_gt in E. assert (Hs : lastIndexOf s c = -1) by lia.
    apply IH in Hs. rewrite Hs, andb_true_r.
    destruct (Ascii.eqb d c); cbn [negb]; split; (lia || discriminate || auto).
Qed.

(** The text from the last [c] on: it starts with [c] and holds no other
    one. *)
Lemma substringFrom_lastIndexOf s c :
  0 <= lastIndexOf s c ->
  exists stem rest,
    s = (stem ++ String c rest)%string
    /\ substringFrom s (lastIndexOf s c) = String c rest
    /\ lacks c rest = true.
Proof.
  induction s as [|d s IH]; cbn [lastIndexOf]; [lia|].
  pose proof (lastIndexOf_range s c) as Hr.
  destruct (0 <=? lastIndexOf s c) eqn:E.
  - apply Z.leb_le in E. intros _.
    destruct (IH E) as (stem & rest & Hs & Hsub & Hl).
    exists (String d stem), rest. split; [cbn; rewrite <- Hs; reflexivity|].
    split; [|exact Hl].
    unfold substringFrom in *. rewrite Z.max_l in * by lia.
    replace (Z.to_nat (lastIndexOf s c + 1))
      with (S (Z.to_nat (lastIndexOf s c))) by lia.
    cbn [dropChars]. exact Hsub.
  - apply Z.leb_gt in E. destruct (Ascii.eqb_spec d c) as [->|Hne]; [|lia].
    intros _. exists EmptyString, s. split; [reflexivity|].
    split; [reflexivity|]. apply lastIndexOf_none. lia.
Qed.

Lemma lowerChar_dot c : lowerChar c = "."%char -> c = "."%char.
Proof.
  unfold lowerChar.
  destruct c as [b0 b1 b2 b3 b4 b5 b6 b7].
  destruct b0, b1, b2, b3, b4, b5, b6, b7; cbn; intros H;
    (reflexivity || discriminate).
Qed.

Lemma extensions_have_a_dot :
  forallb (fun ext => startsWith ext ".") CODE_EXTENSIONS = true.
Proof. reflexivity. Qed.

(** A path [isCodeFile] accepts ends in an extension: it is a stem
    followed by a dot and a text with no further dot, and this ending, put
    in lower case, is one of [CODE_EXTENSIONS].  In particular a path
    without a dot is never accepted. *)
Theorem code_files_have_a_listed_extension :
  forall filename,
    isCodeFile filename = true ->
    exists stem rest,
      filename = (stem ++ String "." rest)%string
      /\ lacks "." rest = true
      /\ In (toLowerCase (String "." rest)) CODE_EXTENSIONS.
Proof.
  intros filename H. unfold isCodeFile in H.
  destruct (existsb (fun pattern => matches pattern filename)
                    IGNORED_PATTERNS); [discriminate|].
  apply existsb_exists in H as (ext & Hext & E).
  apply String.eqb_eq in E. subst ext.
  pose proof (lastIndexOf_range filename ".") as Hr.
  destruct (Z_le_gt_dec 0 (lastIndexOf filename ".")) as [Hdot|Hnone].
  - destruct (substringFrom_lastIndexOf filename "." Hdot)
      as (stem & rest & Hs & Hsub & Hl).
    exists stem, rest. rewrite Hsub in Hext. auto.
  - exfalso.
    assert (Hi : lastIndexOf filename "." = -1) by lia.
    rewrite Hi in Hext. unfold substringFrom in Hext.
    cbn [Z.max Z.compare Z.to_nat dropChars] in Hext.
    apply lastIndexOf_none in Hi.
    pose proof extensions_have_a_dot as Hall.
    rewrite forallb_forall in Hall. specialize (Hall _ Hext).
    destruct filename as [|c filename]; [discriminate|].
    cbn [toLowerCase startsWith] in Hall.
    rewrite andb_true_r in Hall. apply Ascii.eqb_eq in Hall.
    symmetry in Hall. apply lowerChar_dot in Hall. subst c.
    discriminate.
Qed.

Lemma code_files_have_a_listed_extension_witness :
  isCodeFile "src/Index.TSX" = true
  /\ exists stem rest,
       "src/Index.TSX"%string = (stem ++ String "." rest)%string
       /\ lacks "." rest = true
       /\ In (toLowerCase (String "." rest)) CODE_EXTENSIONS.
Proof.
  assert (H : isCodeFile "src/Index.TSX" = true) by (vm_compute; reflexivity).
  split; [exact H|].
  apply (code_files_have_a_listed_extension "src/Index.TSX" H).
Defined.

(* ====================================================================== *)
(** * The sections of a diff and their file names                          *)
(* ====================================================================== *)

Lemma concat_cons (p : string) (ps : list string) :
  String.concat EmptyString (p :: ps)
  = (p ++ String.concat EmptyString ps)%string.
Proof.
  destruct ps as [|q ps]; cbn [String.concat].
  - induction p as [|c p IH]; [reflexivity|]. cbn [append]. rewrite <- IH.
    reflexivity.
  - reflexivity.
Qed.

Lemma cutBefore_nonempty mark s : cutBefore mark s <> [].
Proof.
  destruct s as [|c s]; cbn [cutBefore]; [discriminate|].
  destruct (startsWith (String c s) mark); [discriminate|].
  destruct (cutBefore mark s); discriminate.
Qed.

Lemma hd_prependTo c pieces :
  hd EmptyString (prependTo c pieces) = String c (hd EmptyString pieces).
Proof. destruct pieces; reflexivity. Qed.

Lemma tl_prependTo c (pieces : list string) : tl (prependTo c pieces) = tl pieces.
Proof. destruct pieces; reflexivity. Qed.

Lemma pieces_hd_tl (pieces : list string) :
  pieces <> [] -> pieces = hd EmptyString pieces :: tl pieces.
Proof. destruct pieces; [congruence|reflexivity]. Qed.

Lemma concat_prependTo c pieces :
  String.concat EmptyString (prependTo c pieces)
  = String c (String.concat EmptyString pieces).
Proof.
  destruct pieces as [|p ps]; [reflexivity|]. cbn [prependTo].
  rewrite !concat_cons. reflexivity.
Qed.

Lemma concat_cutBefore mark s :
  String.concat EmptyString (cutBefore mark s) = s.
Proof.
  induction s as [|c s IH]; [reflexivity|]. cbn [cutBefore].
  destruct (startsWith (String c s) mark).
  - rewrite concat_cons. cbn [append]. rewrite concat_prependTo, IH.
    reflexivity.
  - rewrite concat_prependTo, IH. reflexivity.
Qed.

Lemma startsWith_app h x mark :
  startsWith h mark = true -> startsWith (h ++ x) mark = true.
Proof.
  revert h. induction mark as [|m mark IH]; intros h H; [reflexivity|].
  destruct h as [|c h]; [discriminate|]. cbn [startsWith append] in *.
  apply andb_prop in H as [Hc H]. rewrite Hc, (IH h H). reflexivity.
Qed.

(** The first piece of [cutBefore] is the text before the first
    occurrence of the mark. *)
Lemma cutBefore_head_lacks mark s :
  lacksText mark (hd EmptyString (cutBefore mark s)) = true.
Proof.
  induction s as [|c s IH]; [reflexivity|]. cbn [cutBefore].
  destruct (startsWith (String c s) mark) eqn:E; [reflexivity|].
  rewrite hd_prependTo. cbn [lacksText]. rewrite IH, andb_true_r.
  apply negb_true_iff.
  destruct (startsWith (String c (hd EmptyString (cutBefore mark s))) mark)
    eqn:E'; [|reflexivity].
  apply (startsWith_app _ (String.concat EmptyString (tl (cutBefore mark s))))
    in E'.
  cbn [append] in E'. rewrite <- concat_cons in E'.
  rewrite <- (pieces_hd_tl _ (cutBefore_nonempty mark s)) in E'.
  rewrite concat_cutBefore in E'. congruence.
Qed.

Lemma cutBefore_tail_lacks mark s :
  Forall (fun p => lacksText mark (substringFrom1 p) = true)
         (tl (cutBefore mark s)).
Proof.
  induction s as [|c s IH]; [constructor|]. cbn [cutBefore].
  destruct (startsWith (String c s) mark).
  - cbn [tl].
    rewrite (pieces_hd_tl (prependTo c (cutBefore mark s)))
      by (destruct (cutBefore mark s); discriminate).
    rewrite hd_prependTo, tl_prependTo. constructor; [|exact IH].
    cbn [substringFrom1]. apply cutBefore_head_lacks.
  - rewrite tl_prependTo. exact IH.
Qed.

Lemma cutBefore_head_other c r :
  c <> "d"%char ->
  hd EmptyString (cutBefore "diff --git" (String c r))
  = String c (hd EmptyString (cutBefore "diff --git" r)).
Proof.
  intros Hc. cbn [cutBefore startsWith].
  destruct (Ascii.eqb_spec "d"%char c) as [E|_]; [congruence|].
  cbn [andb]. apply hd_prependTo.
Qed.

(** The mark [diff --git] does not overlap itself, so the piece that
    starts at an occurrence holds the whole mark. *)
Lemma cutBefore_head_mark r :
  startsWith r "iff --git" = true ->
  startsWith (hd EmptyString (cutBefore "diff --git" r)) "iff --git" = true.
Proof.
  intros H.
  do 9 (destruct r as [|? r]; [discriminate|];
        cbn [startsWith] in H; apply andb_prop in H as [Hc H];
        apply Ascii.eqb_eq in Hc; subst).
  rewrite !cutBefore_head_other by discriminate.
  reflexivity.
Qed.

Lemma cutBefore_tail_marks s :
  Forall (fun p => startsWith p "diff --git" = true)
         (tl (cutBefore "diff --git" s)).
Proof.
  induction s as [|c s IH]; [constructor|].
  cbn [cutBefore].
  destruct (startsWith (String c s) "diff --git") eqn:E.
  - cbn [tl].
    rewrite (pieces_hd_tl (prependTo c (cutBefore "diff --git" s)))
      by (destruct (cutBefore "diff --git" s); discriminate).
    rewrite hd_prependTo, tl_prependTo. constructor; [|exact IH].
    cbn [startsWith] in E |- *. apply andb_prop in E as [Ec E].
    rewrite Ec. cbn [andb]. apply cutBefore_head_mark, E.
  - rewrite tl_prependTo. exact IH.
Qed.

(** The sections of a diff: put together again they give the text of the
    diff, so nothing is lost; every section but the first starts with
    [diff --git]; and no section holds [diff --git] past its first
    character, so a section never holds two file headers. *)
Theorem splitFiles_cuts_at_every_header :
  forall diff,
    String.concat EmptyString (splitFiles diff) = diff
    /\ Forall (fun p => startsWith p "diff --git" = true)
              (tl (splitFiles diff))
    /\ Forall (fun p => lacksText "diff --git" (substringFrom1 p) = true)
              (splitFiles diff).
Proof.
  intros [|c r]; [repeat split; repeat constructor|].
  unfold splitFiles. split; [|split].
  - rewrite concat_prependTo, concat_cutBefore. reflexivity.
  - rewrite tl_prependTo. apply cutBefore_tail_marks.
  - rewrite (pieces_hd_tl (prependTo c (cutBefore "diff --git" r)))
      by (destruct (cutBefore "diff --git" r); discriminate).
    rewrite hd_prependTo, tl_prependTo. constructor.
    + cbn [substringFrom1]. apply cutBefore_head_lacks.
    + apply cutBefore_tail_lacks.
Qed.

(** ** The file name of a section *)

Lemma startsWith_decompose p : forall s,
  startsWith s p = true -> s = (p ++ dropChars (String.length p) s)%string.
Proof.
  induction p as [|c p IH]; intros s H; [reflexivity|].
  destruct s as [|d s]; [discriminate|]. cbn [startsWith] in H.
  apply andb_prop in H as [Hc H]. apply Ascii.eqb_eq in Hc. subst d.
  cbn [append String.length dropChars]. f_equal. apply IH, H.
Qed.

Lemma startsWith_self p s : startsWith (p ++ s) p = true.
Proof.
  induction p as [|c p IH]; [reflexivity|]. cbn [append startsWith].
  rewrite Ascii.eqb_refl, IH. reflexivity.
Qed.

Lemma dropChars_app p s : dropChars (String.length p) (p ++ s) = s.
Proof. induction p as [|c p IH]; [reflexivity|]. exact IH. Qed.

Lemma oneLine_app a b :
  oneLine (a ++ b) = oneLine a && oneLine b.
Proof.
  induction a as [|c a IH]; [reflexivity|]. cbn [append oneLine].
  rewrite IH, andb_assoc. reflexivity.
Qed.

Lemma lineOf_oneLine s : oneLine (lineOf s) = true.
Proof.
  induction s as [|c s IH]; [reflexivity|]. cbn [lineOf].
  destruct (isLineTerminator c) eqn:E; [reflexivity|].
  cbn [oneLine]. rewrite E, IH. reflexivity.
Qed.

Lemma lineOf_decompose s :
  exists post, s = (lineOf s ++ post)%string /\ endsLine post = true.
Proof.
  induction s as [|c s (post & Hs & Hp)].
  - exists EmptyString. split; reflexivity.
  - cbn [lineOf]. destruct (isLineTerminator c) eqn:E.
    + exists (String c s). split; [reflexivity|exact E].
    + exists post. split; [cbn [append]; rewrite <- Hs; reflexivity|exact Hp].
Qed.

Lemma lineOf_app a b :
  oneLine a = true -> lineOf (a ++ b) = (a ++ lineOf b)%string.
Proof.
  induction a as [|c a IH]; [reflexivity|]. cbn [oneLine append lineOf].
  intros H. apply andb_prop in H as [Hc Ha]. apply negb_true_iff in Hc.
  rewrite Hc, (IH Ha). reflexivity.
Qed.

Lemma lineOf_end rest : endsLine rest = true -> lineOf rest = EmptyString.
Proof.
  destruct rest as [|c r]; [reflexivity|]. cbn [endsLine lineOf].
  intros ->. reflexivity.
Qed.

Lemma append_nil_r (s : string) : (s ++ EmptyString)%string = s.
Proof. induction s as [|c s IH]; [reflexivity|]. cbn. rewrite IH. reflexivity. Qed.

Lemma append_assoc (a b c : string) :
  ((a ++ b) ++ c)%string = (a ++ (b ++ c))%string.
Proof. induction a as [|x a IH]; [reflexivity|]. cbn. rewrite IH. reflexivity. Qed.

(** What the group holds when the pattern matches on a line. *)
Lemma captureAfterLastB_sound line : forall seen name,
  captureAfterLastB seen line = Some name ->
  exists x,
    line = (x ++ " b/" ++ name)%string
    /\ name <> EmptyString
    /\ (seen = true \/ x <> EmptyString).
Proof.
  induction line as [|c r IH]; intros seen name H; [discriminate|].
  cbn [captureAfterLastB] in H.
  destruct (captureAfterLastB true r) as [n|] eqn:E.
  - injection H as ->. destruct (IH true name E) as (x & Hr & Hn & _).
    exists (String c x). split; [rewrite Hr; reflexivity|].
    split; [exact Hn|right; discriminate].
  - destruct (seen && startsWith (String c r) " b/"
              && negb (String.eqb (dropChars 3 (String c r)) EmptyString))
      eqn:Ec; [|discriminate].
    injection H as <-.
    apply andb_prop in Ec as [Ec Hne]. apply andb_prop in Ec as [Hs Hb].
    exists EmptyString. split; [|split; [|left; exact Hs]].
    + apply (startsWith_decompose " b/" _ Hb).
    + apply negb_true_iff, String.eqb_neq in Hne. exact Hne.
Qed.

Lemma captureAfterLastB_cons seen c r :
  captureAfterLastB seen (String c r)
  = match captureAfterLastB true r with
    | Some name => Some name
    | None =>
        if seen && startsWith (String c r) " b/"
           && negb (String.eqb (dropChars 3 (String c r)) EmptyString)
        then Some (dropChars 3 (String c r))
        else None
    end.
Proof. reflexivity. Qed.

Lemma captureAfterLastB_at_mark z :
  z <> EmptyString ->
  captureAfterLastB true (" b/" ++ z)
  = match captureAfterLastB true ("b/" ++ z) with
    | Some name => Some name
    | None => Some z
    end.
Proof.
  intros Hz. change (" b/" ++ z)%string with (String " " ("b/" ++ z)).
  rewrite captureAfterLastB_cons.
  destruct (captureAfterLastB true ("b/" ++ z)); [reflexivity|].
  change (startsWith (String " " ("b/" ++ z)) " b/") with true.
  change (dropChars 3 (String " " ("b/" ++ z))) with z.
  cbn [andb]. apply String.eqb_neq in Hz. rewrite Hz. reflexivity.
Qed.

Lemma captureAfterLastB_complete x : forall seen z,
  seen = true \/ x <> EmptyString -> z <> EmptyString ->
  isSome (captureAfterLastB seen (x ++ " b/" ++ z)) = true.
Proof.
  induction x as [|c x IH]; intros seen z Hseen Hz.
  - destruct Hseen as [->|Hx]; [|congruence].
    change (EmptyString ++ " b/" ++ z)%string with (" b/" ++ z)%string.
    rewrite (captureAfterLastB_at_mark z Hz).
    destruct (captureAfterLastB true ("b/" ++ z)); reflexivity.
  - change (String c x ++ " b/" ++ z)%string
      with (String c (x ++ " b/" ++ z)).
    rewrite captureAfterLastB_cons.
    specialize (IH true z (or_introl eq_refl) Hz).
    destruct (captureAfterLastB true (x ++ " b/" ++ z)); [reflexivity|].
    discriminate.
Qed.

Lemma captureAfterLastB_none s :
  lacksText " b/" s = true -> forall seen, captureAfterLastB seen s = None.
Proof.
  induction s as [|c r IH]; intros H seen; [reflexivity|].
  cbn [lacksText] in H. apply andb_prop in H as [Hb Hr].
  apply negb_true_iff in Hb.
  cbn [captureAfterLastB]. rewrite (IH Hr true), Hb, andb_false_r.
  reflexivity.
Qed.

(** The greedy choice: the group is the text after the last [ b/]. *)
Lemma captureAfterLastB_last x : forall seen y,
  seen = true \/ x <> EmptyString -> y <> EmptyString ->
  lacksText " b/" y = true ->
  captureAfterLastB seen (x ++ " b/" ++ y) = Some y.
Proof.
  induction x as [|c x IH]; intros seen y Hseen Hy Hl.
  - destruct Hseen as [->|Hx]; [|congruence].
    change (EmptyString ++ " b/" ++ y)%string with (" b/" ++ y)%string.
    rewrite (captureAfterLastB_at_mark y Hy).
    rewrite captureAfterLastB_none; [reflexivity|].
    change (lacksText " b/" ("b/" ++ y)) with (lacksText " b/" y).
    exact Hl.
  - change (String c x ++ " b/" ++ y)%string
      with (String c (x ++ " b/" ++ y)).
    rewrite captureAfterLastB_cons.
    rewrite (IH true y (or_introl eq_refl) Hy Hl). reflexivity.
Qed.

Lemma matchHeaderAt_sound s name :
  matchHeaderAt s = Some name ->
  exists x post,
    s = ("diff --git a/" ++ x ++ " b/" ++ name ++ post)%string
    /\ x <> EmptyString /\ oneLine x = true
    /\ name <> EmptyString /\ oneLine name = true
    /\ endsLine post = true.
Proof.
  unfold matchHeaderAt. intros H.
  destruct (startsWith s "diff --git a/") eqn:E; [|discriminate].
  apply (startsWith_decompose "diff --git a/") in E.
  change (String.length "diff --git a/") with 13%nat in E.
  apply captureAfterLastB_sound in H as (x & Hline & Hn & Hx).
  destruct Hx as [Hx|Hx]; [discriminate|].
  destruct (lineOf_decompose (dropChars 13 s)) as (post & Hs & Hp).
  pose proof (lineOf_oneLine (dropChars 13 s)) as Hone.
  rewrite Hline in Hone, Hs. rewrite !oneLine_app in Hone.
  apply andb_prop in Hone as [H1 H2]. apply andb_prop in H2 as [_ H2].
  exists x, post. split.
  - rewrite E at 1. rewrite Hs. rewrite !append_assoc. reflexivity.
  - auto.
Qed.

Lemma fileNameOf_sound s : forall name,
  fileNameOf s = Some name ->
  exists before x post,
    s = (before ++ "diff --git a/" ++ x ++ " b/" ++ name ++ post)%string
    /\ x <> EmptyString /\ oneLine x = true
    /\ name <> EmptyString /\ oneLine name = true
    /\ endsLine post = true.
Proof.
  induction s as [|c s IH]; intros name H; [discriminate|].
  cbn [fileNameOf] in H.
  destruct (matchHeaderAt (String c s)) as [n|] eqn:E.
  - injection H as ->.
    destruct (matchHeaderAt_sound _ _ E) as (x & post & Hs & Hrest).
    exists EmptyString, x, post. auto.
  - destruct (IH name H) as (before & x & post & Hs & Hrest).
    exists (String c before), x, post.
    split; [rewrite Hs; reflexivity|exact Hrest].
Qed.

Lemma matchHeaderAt_header x y post :
  x <> EmptyString -> oneLine x = true ->
  matchHeaderAt ("diff --git a/" ++ x ++ " b/" ++ y ++ post)
  = captureAfterLastB false (x ++ " b/" ++ lineOf (y ++ post)).
Proof.
  intros Hx Hone. unfold matchHeaderAt.
  rewrite startsWith_self.
  change 13%nat with (String.length "diff --git a/").
  rewrite dropChars_app, (lineOf_app x _ Hone).
  reflexivity.
Qed.

Lemma Lang_dots w :
  Lang (plus dot) w <-> w <> EmptyString /\ oneLine w = true.
Proof.
  assert (Hstar : forall v, Lang (Star dot) v <-> oneLine v = true).
  { induction v as [|c v IH].
    - split; [reflexivity|constructor].
    - split.
      + intros H. apply Lang_Star_cons in H as (s & t & -> & Hs & Ht).
        inversion Hs; subst. cbn [append oneLine].
        match goal with E : negb _ = true |- _ => rewrite E end.
        apply IH, Ht.
      + cbn [oneLine]. intros H. apply andb_prop in H as [Hc Hv].
        apply (lang_star_app dot (String c EmptyString) v);
          [constructor; exact Hc|apply IH, Hv]. }
  unfold plus. split.
  - intros H. apply Lang_Cat in H as (s & t & -> & Hs & Ht).
    inversion Hs; subst. cbn [append oneLine]. split; [discriminate|].
    match goal with E : negb _ = true |- _ => rewrite E end.
    apply Hstar, Ht.
  - intros [Hne Hone]. destruct w as [|c w]; [congruence|].
    cbn [oneLine] in Hone. apply andb_prop in Hone as [Hc Hw].
    apply (lang_cat dot (Star dot) (String c EmptyString) w);
      [constructor; exact Hc|apply Hstar, Hw].
Qed.

Lemma Lang_lit_inv p : forall w, Lang (lit p) w -> w = p.
Proof.
  induction p as [|c p IH]; intros w H; [apply Lang_Eps, H|].
  destruct p as [|d p].
  - cbn in H. inversion H; subst.
    match goal with E : Ascii.eqb _ _ = true |- _ =>
      apply Ascii.eqb_eq in E; subst end.
    reflexivity.
  - change (lit (String c (String d p)))
      with (Cat (chr c) (lit (String d p))) in H.
    apply Lang_Cat in H as (s & t & -> & Hs & Ht).
    inversion Hs; subst.
    match goal with E : Ascii.eqb _ _ = true |- _ =>
      apply Ascii.eqb_eq in E; subst end.
    rewrite (IH t Ht). reflexivity.
Qed.

Lemma fileNameOf_at_header x y post :
  x <> EmptyString -> oneLine x = true ->
  fileNameOf ("diff --git a/" ++ x ++ " b/" ++ y ++ post)
  = match captureAfterLastB false (x ++ " b/" ++ lineOf (y ++ post)) with
    | Some name => Some name
    | None => fileNameOf ("iff --git a/" ++ x ++ " b/" ++ y ++ post)
    end.
Proof.
  intros Hx Hone. rewrite <- (matchHeaderAt_header x y post Hx Hone).
  reflexivity.
Qed.

Lemma fileNameOf_found before : forall x y post,
  x <> EmptyString -> oneLine x = true ->
  y <> EmptyString -> oneLine y = true ->
  isSome (fileNameOf (before ++ "diff --git a/" ++ x ++ " b/" ++ y ++ post))
  = true.
Proof.
  induction before as [|c before IH]; intros x y post Hx Hxl Hy Hyl.
  - change (EmptyString ++ "diff --git a/" ++ x ++ " b/" ++ y ++ post)%string
      with ("diff --git a/" ++ x ++ " b/" ++ y ++ post)%string.
    rewrite (fileNameOf_at_header x y post Hx Hxl).
    rewrite (lineOf_app y post Hyl).
    pose proof (captureAfterLastB_complete x false (y ++ lineOf post)
                  (or_intror Hx)) as Hc.
    destruct (captureAfterLastB false (x ++ " b/" ++ y ++ lineOf post));
      [reflexivity|].
    assert (Hnone : isSome (@None string) = true)
      by (apply Hc; destruct y; [congruence|discriminate]).
    discriminate.
  - change (String c before ++ "diff --git a/" ++ x ++ " b/" ++ y ++ post)%string
      with (String c (before ++ "diff --git a/" ++ x ++ " b/" ++ y ++ post)).
    cbn [fileNameOf].
    destruct (matchHeaderAt _); [reflexivity|].
    apply IH; assumption.
Qed.

(** A section has a file name exactly when the pattern
    [/diff --git a\/.+ b\/(.+)/] matches somewhere in it. *)
Theorem fileNameOf_decides_the_header_pattern :
  forall fileDiff,
    isSome (fileNameOf fileDiff)
    = matches (containing headerPattern) fileDiff.
Proof.
  intros s. apply eq_iff_eq_true. rewrite matches_Lang. split.
  - destruct (fileNameOf s) as [name|] eqn:E; [|discriminate]. intros _.
    destruct (fileNameOf_sound s name E)
      as (before & x & post & -> & Hx & Hxl & Hn & Hnl & _).
    unfold containing, headerPattern.
    apply lang_cat; [apply Lang_anything|].
    rewrite <- !append_assoc. apply lang_cat; [|apply Lang_anything].
    rewrite !append_assoc.
    apply lang_cat; [apply Lang_lit|].
    apply lang_cat; [apply Lang_dots; auto|].
    apply lang_cat; [apply (Lang_lit " b/")|apply Lang_dots; auto].
  - intros H. unfold containing, headerPattern in H.
    apply Lang_Cat in H as (before & r1 & -> & _ & H).
    apply Lang_Cat in H as (h & post & -> & H & _).
    apply Lang_Cat in H as (p1 & r2 & -> & Hp1 & H).
    apply Lang_Cat in H as (x & r3 & -> & Hx & H).
    apply Lang_Cat in H as (p2 & y & -> & Hp2 & Hy).
    apply Lang_lit_inv in Hp1, Hp2. subst p1 p2.
    apply Lang_dots in Hx as [Hx Hxl]. apply Lang_dots in Hy as [Hy Hyl].
    rewrite !append_assoc.
    apply fileNameOf_found; assumption.
Qed.

(** The file name of a section is the text between the last [ b/] of the
    header line and the end of that line: for a section that starts with
    [diff --git a/x b/y] and goes on with a line break (or ends there),
    where [x] and [y] are not empty and hold no line break and [y] holds
    no further [ b/], the name is [y], whatever [x] holds. *)
Theorem fileNameOf_reads_the_header :
  forall x y rest,
    x <> EmptyString -> oneLine x = true ->
    y <> EmptyString -> oneLine y = true ->
    lacksText " b/" y = true ->
    endsLine rest = true ->
    fileNameOf ("diff --git a/" ++ x ++ " b/" ++ y ++ rest) = Some y.
Proof.
  intros x y rest Hx Hxl Hy Hyl Hlast Hrest.
  rewrite (fileNameOf_at_header x y rest Hx Hxl).
  rewrite (lineOf_app y rest Hyl), (lineOf_end rest Hrest), append_nil_r.
  rewrite (captureAfterLastB_last x false y (or_intror Hx) Hy Hlast).
  reflexivity.
Qed.

Lemma fileNameOf_reads_the_header_witness :
  fileNameOf ("diff --git a/" ++ "src/old name.ts" ++ " b/" ++ "src/new name.ts"
              ++ String (ascii_of_nat 10) "index 83db48f..bf2a1c4 100644")
  = Some "src/new name.ts"%string.
Proof.
  apply (fileNameOf_reads_the_header "src/old name.ts" "src/new name.ts"
           (String (ascii_of_nat 10) "index 83db48f..bf2a1c4 100644"));
    (reflexivity || discriminate).
Defined.

(** ** From the text of a diff to its snippets *)

Lemma retainedFiles_are_code diff filename lines :
  In (filename, lines) (retainedFiles diff) ->
  isCodeFile filename = true
  /\ exists fileDiff,
       In fileDiff (splitFiles diff)
       /\ fileNameOf fileDiff = Some filename
       /\ lines = splitLines fileDiff.
Proof.
  unfold retainedFiles. intros H.
  apply in_flat_map in H as (fileDiff & Hin & H).
  destruct (fileNameOf fileDiff) as [name|] eqn:E; [|destruct H].
  destruct (isCodeFile name) eqn:Ec; [|destruct H].
  destruct H as [H|[]]. injection H as E1 E2. subst name lines.
  split; [exact Ec|]. exists fileDiff. auto.
Qed.

(** Every snippet of a diff names a file [isCodeFile] accepts, read from
    the header of one of the sections of the diff; a section with no
    header, or with the header of an ignored or unlisted file, gives no
    snippet. *)
Theorem snippets_come_from_code_files :
  forall randomBelow author email commitHash isMine diff,
    let found :=
      extractSnippetsFromText randomBelow author email commitHash isMine
                              diff in
    Forall (fun s =>
              isCodeFile (cs_filename s) = true
              /\ Exists (fun fileDiff =>
                           fileNameOf fileDiff = Some (cs_filename s))
                        (splitFiles diff))
           (fst found)
    /\ Forall (fun s =>
                 isCodeFile (cm_filename s) = true
                 /\ Exists (fun fileDiff =>
                              fileNameOf fileDiff = Some (cm_filename s))
                           (splitFiles diff))
              (snd found).
Proof.
  intros randomBelow author email commitHash isMine diff found.
  subst found. unfold extractSnippetsFromText.
  destruct (extractSnippetsFromDiff_files randomBelow author email commitHash
              isMine (retainedFiles diff) 0) as [Hc Hm].
  split.
  - eapply Forall_impl; [|exact Hc]. intros s (lines & Hin & _).
    apply retainedFiles_are_code in Hin as (Hcode & fileDiff & Hf & Hn & _).
    split; [exact Hcode|]. apply Exists_exists. exists fileDiff. auto.
  - eapply Forall_impl; [|exact Hm]. intros s (lines & Hin & _).
    apply retainedFiles_are_code in Hin as (Hcode & fileDiff & Hf & Hn & _).
    split; [exact Hcode|]. apply Exists_exists. exists fileDiff. auto.
Qed.

(** ** Plain names *)

Lemma countChar_app c a b :
  countChar c (a ++ b) = (countChar c a + countChar c b)%nat.
Proof.
  induction a as [|d a IH]; [reflexivity|]. cbn [append countChar].
  rewrite IH. lia.
Qed.

Lemma countChar_lacks c s : lacks c s = true <-> countChar c s = O.
Proof.
  induction s as [|d s IH]; [cbn; tauto|]. cbn [lacks countChar].
  destruct (Ascii.eqb d c); cbn [negb andb]; [split; [discriminate|lia]|].
  exact IH.
Qed.

Lemma plainName_count c s :
  isAlphanumeric c = false -> plainName s = true -> countChar c s = O.
Proof.
  intros Hc. induction s as [|d s IH]; [reflexivity|].
  cbn [plainName countChar]. intros H. apply andb_prop in H as [Hd Hs].
  destruct (Ascii.eqb_spec d c) as [->|_]; [congruence|]. apply IH, Hs.
Qed.

Lemma lowerChar_alphanumeric c :
  isLower (lowerChar c) || isUpper (lowerChar c) = true ->
  isAlphanumeric c = true.
Proof.
  destruct c as [b0 b1 b2 b3 b4 b5 b6 b7].
  destruct b0, b1, b2, b3, b4, b5, b6, b7; vm_compute; intros H;
    (reflexivity || discriminate).
Qed.

Lemma lowerChar_letters s :
  forallb (fun c => isLower c || isUpper c) (list_ascii_of_string (toLowerCase s))
  = true ->
  plainName s = true.
Proof.
  induction s as [|c s IH]; [reflexivity|].
  cbn [toLowerCase list_ascii_of_string forallb plainName].
  intros H. apply andb_prop in H as [Hc Hs].
  rewrite (lowerChar_alphanumeric c Hc), (IH Hs). reflexivity.
Qed.

(** Every listed extension is a dot followed by letters. *)
Lemma extensions_are_letters :
  forallb (fun ext =>
             match ext with
             | String c rest =>
                 Ascii.eqb c "."
                 && forallb (fun c => isLower c || isUpper c)
                            (list_ascii_of_string rest)
             | EmptyString => false
             end)
          CODE_EXTENSIONS = true.
Proof. vm_compute. reflexivity. Qed.

Lemma listed_extension_shape ext :
  In (toLowerCase ext) CODE_EXTENSIONS ->
  exists rest, ext = String "." rest /\ plainName rest = true.
Proof.
  intros Hin. pose proof extensions_are_letters as Hall.
  rewrite forallb_forall in Hall. specialize (Hall _ Hin).
  destruct ext as [|c rest]; [discriminate|]. cbn [toLowerCase] in Hall.
  apply andb_prop in Hall as [Hc Hrest]. apply Ascii.eqb_eq in Hc.
  apply lowerChar_dot in Hc. subst c.
  exists rest. split; [reflexivity|apply lowerChar_letters, Hrest].
Qed.

Lemma lastDot_suffix rest :
  lacks "." rest = true ->
  forall stem,
    0 <= lastIndexOf (stem ++ String "." rest) "."
    /\ substringFrom (stem ++ String "." rest)
                     (lastIndexOf (stem ++ String "." rest) ".")
       = String "." rest.
Proof.
  intros Hl. induction stem as [|c stem [IH1 IH2]].
  - cbn [append lastIndexOf]. apply lastIndexOf_none in Hl. rewrite Hl.
    cbn. split; [lia|reflexivity].
  - cbn [append lastIndexOf].
    destruct (0 <=? lastIndexOf (stem ++ String "." rest) ".") eqn:E;
      [|apply Z.leb_gt in E; lia].
    split; [lia|].
    unfold substringFrom in *. rewrite Z.max_l in * by lia.
    replace (Z.to_nat (lastIndexOf (stem ++ String "." rest) "." + 1))
      with (S (Z.to_nat (lastIndexOf (stem ++ String "." rest) "."))) by lia.
    cbn [dropChars]. exact IH2.
Qed.

Lemma containing_inv p w :
  matches (containing (lit p)) w = true ->
  exists a b, w = (a ++ p ++ b)%string.
Proof.
  intros H. apply matches_Lang in H. unfold containing in H.
  apply Lang_Cat in H as (a & r & -> & _ & H).
  apply Lang_Cat in H as (q & b & -> & Hq & _).
  apply Lang_lit_inv in Hq. subst q. exists a, b. reflexivity.
Qed.

Lemma ending_inv p w :
  matches (ending (lit p)) w = true -> exists a, w = (a ++ p)%string.
Proof.
  intros H. apply matches_Lang in H. unfold ending in H.
  apply Lang_Cat in H as (a & q & -> & _ & Hq).
  apply Lang_lit_inv in Hq. subst q. exists a. reflexivity.
Qed.

(** A pattern whose text holds more of some character than the path does
    cannot match. *)
Lemma containing_counts c p w :
  (countChar c w < countChar c p)%nat ->
  matches (containing (lit p)) w = false.
Proof.
  intros Hlt. destruct (matches (containing (lit p)) w) eqn:E; [|reflexivity].
  apply containing_inv in E as (a & b & ->).
  rewrite !countChar_app in Hlt. lia.
Qed.

Lemma ending_counts c p w :
  (countChar c w < countChar c p)%nat ->
  matches (ending (lit p)) w = false.
Proof.
  intros Hlt. destruct (matches (ending (lit p)) w) eqn:E; [|reflexivity].
  apply ending_inv in E as (a & ->).
  rewrite !countChar_app in Hlt. lia.
Qed.

(** A file in the top directory whose stem holds letters and digits only
    is a code file as soon as its extension, in whatever case, is a
    listed one: no ignored pattern applies, and the extension is looked
    up in lower case. *)
Theorem plain_names_with_a_listed_extension_are_code_files :
  forall stem ext,
    plainName stem = true ->
    In (toLowerCase ext) CODE_EXTENSIONS ->
    isCodeFile (stem ++ ext) = true.
Proof.
  intros stem ext Hstem Hext.
  destruct (listed_extension_shape ext Hext) as (rest & -> & Hrest).
  set (f := (stem ++ String "." rest)%string).
  assert (Hdot : countChar "." f = 1%nat).
  { subst f. rewrite countChar_app. cbn [countChar].
    rewrite (plainName_count "." stem eq_refl Hstem),
      (plainName_count "." rest eq_refl Hrest). reflexivity. }
  assert (Hslash : countChar "/" f = 0%nat).
  { subst f. rewrite countChar_app. cbn [countChar].
    rewrite (plainName_count "/" stem eq_refl Hstem),
      (plainName_count "/" rest eq_refl Hrest). reflexivity. }
  assert (Hunder : countChar "_" f = 0%nat).
  { subst f. rewrite countChar_app. cbn [countChar].
    rewrite (plainName_count "_" stem eq_refl Hstem),
      (plainName_count "_" rest eq_refl Hrest). reflexivity. }
  assert (Hlacks : lacks "." rest = true)
    by (apply countChar_lacks, (plainName_count "." rest eq_refl Hrest)).
  destruct (lastDot_suffix rest Hlacks stem) as [_ Hsuffix]. fold f in Hsuffix.
  assert (Hpyc : matches (ending (lit ".pyc")) f = false).
  { destruct (matches (ending (lit ".pyc")) f) eqn:E; [|reflexivity].
    apply ending_inv in E as (a & E).
    destruct (lastDot_suffix "pyc" eq_refl a) as [_ Ha].
    rewrite <- E, Hsuffix in Ha. injection Ha as ->.
    exfalso. revert Hext. vm_compute. intuition discriminate. }
  unfold isCodeFile.
  assert (Hnone : existsb (fun pattern => matches pattern f) IGNORED_PATTERNS
                  = false).
  { unfold IGNORED_PATTERNS. cbn [existsb].
    rewrite (containing_counts "." ".min." f) by (rewrite Hdot; cbn; lia).
    rewrite (containing_counts "." ".bundle." f) by (rewrite Hdot; cbn; lia).
    rewrite (containing_counts "." ".generated." f)
      by (rewrite Hdot; cbn; lia).
    rewrite (containing_counts "_" "node_modules" f)
      by (rewrite Hunder; cbn; lia).
    rewrite (containing_counts "/" "vendor/" f) by (rewrite Hslash; cbn; lia).
    rewrite (containing_counts "/" "dist/" f) by (rewrite Hslash; cbn; lia).
    rewrite (containing_counts "/" "build/" f) by (rewrite Hslash; cbn; lia).
    rewrite (containing_counts "/" "target/" f) by (rewrite Hslash; cbn; lia).
    rewrite (ending_counts "." ".d.ts" f) by (rewrite Hdot; cbn; lia).
    rewrite (containing_counts "_" "__pycache__" f)
      by (rewrite Hunder; cbn; lia).
    rewrite Hpyc. reflexivity. }
  rewrite Hnone, Hsuffix. apply existsb_exists.
  exists (toLowerCase (String "." rest)). split; [exact Hext|].
  apply String.eqb_refl.
Qed.

Lemma plain_names_with_a_listed_extension_are_code_files_witness :
  isCodeFile ("Main" ++ ".JAVA") = true.
Proof.
  apply (plain_names_with_a_listed_extension_are_code_files "Main" ".JAVA").
  - reflexivity.
  - vm_compute. auto 30.
Defined.

(* ====================================================================== *)
(** * The fields of a commit                                               *)
(* ====================================================================== *)

Lemma splitOn_nonempty sep s : splitOn sep s <> [].
Proof.
  destruct s as [|c s]; cbn [splitOn]; [discriminate|].
  destruct (Ascii.eqb c sep); [discriminate|].
  destruct (splitOn sep s); discriminate.
Qed.

(** The first field ends at the first separator. *)
Lemma splitOn_field sep s rest :
  lacks sep s = true ->
  splitOn sep (s ++ String sep rest) = s :: splitOn sep rest.
Proof.
  induction s as [|c s IH]; cbn [lacks append splitOn].
  - intros _. rewrite Ascii.eqb_refl. reflexivity.
  - intros H. apply andb_prop in H as [Hc Hs]. apply negb_true_iff in Hc.
    rewrite Hc, (IH Hs). reflexivity.
Qed.

(** Joining the fields gives the text back. *)
Lemma concat_splitOn sep s :
  String.concat (String sep EmptyString) (splitOn sep s) = s.
Proof.
  induction s as [|c s IH]; [reflexivity|]. cbn [splitOn].
  pose proof (splitOn_nonempty sep s) as Hn.
  destruct (splitOn sep s) as [|l ls]; [congruence|].
  destruct (Ascii.eqb_spec c sep) as [->|Hne].
  - change (String.concat (String sep EmptyString) (EmptyString :: l :: ls))
      with (String sep (String.concat (String sep EmptyString) (l :: ls))).
    rewrite IH. reflexivity.
  - destruct ls as [|l' ls].
    + cbn [String.concat] in *. rewrite IH. reflexivity.
    + change (String.concat (String sep EmptyString) (String c l :: l' :: ls))
        with (String c (String.concat (String sep EmptyString)
                                      (l :: l' :: ls))).
      rewrite IH. reflexivity.
Qed.

Lemma orElse_same s : orElse (Some s) EmptyString = s.
Proof.
  unfold orElse. destruct (String.eqb_spec s EmptyString) as [->|_];
    reflexivity.
Qed.

Lemma sliceFrom_three {A} (a b c : A) (rest : list A) :
  sliceFrom (a :: b :: c :: rest) 3 = rest.
Proof.
  unfold sliceFrom, slice, relIndex. rewrite !alen_cons.
  pose proof (alen_nonneg rest) as Hn.
  destruct (3 <? 0) eqn:E3; [discriminate|].
  destruct (alen rest + 1 + 1 + 1 <? 0) eqn:En; [apply Z.ltb_lt in En; lia|].
  rewrite !Z.min_l by lia.
  change (Z.to_nat 3) with 3%nat. cbn [skipn].
  apply firstn_all2. unfold alen in *. lia.
Qed.

(** The four fields of a commit come back as git wrote them: for an
    author name, an address and a time stamp without [|] (the time stamp
    not empty), the output [author|email|timestamp|message] is read as
    these four fields, also when the message itself holds the separator or
    is empty; an empty author or address stays empty. *)
Theorem getCommitInfo_reads_its_fields :
  forall author email timestamp message,
    lacks "|" author = true ->
    lacks "|" email = true ->
    lacks "|" timestamp = true ->
    timestamp <> EmptyString ->
    getCommitInfo (author ++ String "|" (email ++ String "|"
                     (timestamp ++ String "|" message)))
    = mkCommitInfo author email timestamp message.
Proof.
  intros author email timestamp message Ha He Ht Hne.
  unfold getCommitInfo.
  rewrite (splitOn_field "|" author _ Ha), (splitOn_field "|" email _ He),
    (splitOn_field "|" timestamp _ Ht).
  rewrite sliceFrom_three. change "|"%string with (String "|" EmptyString).
  rewrite concat_splitOn, orElse_same.
  change (at_ (author :: email :: timestamp :: splitOn "|" message) 0)
    with (Some author).
  change (at_ (author :: email :: timestamp :: splitOn "|" message) 1)
    with (Some email).
  change (at_ (author :: email :: timestamp :: splitOn "|" message) 2)
    with (Some timestamp).
  rewrite !orElse_same. unfold orElse.
  destruct (String.eqb_spec timestamp EmptyString) as [E|_]; [contradiction|].
  reflexivity.
Qed.

Lemma getCommitInfo_reads_its_fields_witness :
  getCommitInfo "Ada L|ada@x.org|1714560000|fix a|b in parser"
  = mkCommitInfo "Ada L" "ada@x.org" "1714560000" "fix a|b in parser".
Proof.
  apply (getCommitInfo_reads_its_fields "Ada L" "ada@x.org" "1714560000"
           "fix a|b in parser");
    (reflexivity || discriminate).
Defined.

(** Whatever git prints, the author and the address [getCommitInfo]
    returns hold no [|], and the time stamp it passes to [parseInt] is
    never empty: an output with fewer than three fields gets the time
    stamp [0]. *)
Theorem getCommitInfo_fields_are_clean :
  forall output,
    lacks "|" (ci_author (getCommitInfo output)) = true
    /\ lacks "|" (ci_email (getCommitInfo output)) = true
    /\ lacks "|" (ci_timestamp (getCommitInfo output)) = true
    /\ ci_timestamp (getCommitInfo output) <> EmptyString.
Proof.
  intros output.
  assert (Hall : Forall (fun p => lacks "|" p = true) (splitOn "|" output)).
  { induction output as [|c s IH]; [repeat constructor|]. cbn [splitOn].
    destruct (Ascii.eqb c "|") eqn:E; [constructor; [reflexivity|exact IH]|].
    destruct (splitOn "|" s) as [|l ls];
      [repeat constructor; cbn [lacks]; rewrite E; reflexivity|].
    inversion IH as [|? ? Hl Hls]; subst. constructor; [|exact Hls].
    cbn [lacks]. rewrite E, Hl. reflexivity. }
  assert (Hat : forall i d,
             lacks "|" d = true ->
             lacks "|" (orElse (at_ (splitOn "|" output) i) d) = true).
  { intros i d Hd. unfold orElse, at_.
    destruct (i <? 0); [exact Hd|].
    destruct (nth_error (splitOn "|" output) (Z.to_nat i)) as [p|] eqn:E;
      [|exact Hd].
    destruct (String.eqb p EmptyString); [exact Hd|].
    rewrite Forall_forall in Hall. apply Hall, (nth_error_In _ _ E). }
  unfold getCommitInfo. cbn [ci_author ci_email ci_timestamp].
  split; [apply Hat; reflexivity|]. split; [apply Hat; reflexivity|].
  split; [apply Hat; reflexivity|].
  unfold orElse. destruct (at_ (splitOn "|" output) 2) as [p|];
    [|discriminate].
  destruct (String.eqb_spec p EmptyString); [discriminate|assumption].
Qed.

(* ====================================================================== *)
(** * The authors of a log                                                 *)
(* ====================================================================== *)

Lemma authorBump_keys m k : map fst (authorBump m k) = map fst m.
Proof.
  induction m as [|[k' a] r IH]; [reflexivity|]. cbn [authorBump].
  destruct (String.eqb k k'); cbn [map fst]; [reflexivity|].
  rewrite IH. reflexivity.
Qed.

Lemma authorHas_get m k : authorHas m k = false <-> authorGet m k = None.
Proof.
  induction m as [|[k' a] r IH]; [cbn; tauto|]. cbn [authorHas authorGet].
  destruct (String.eqb k k'); cbn [orb]; [split; discriminate|exact IH].
Qed.

Lemma authorGet_keys m k : authorGet m k = None -> ~ In k (map fst m).
Proof.
  induction m as [|[k' a] r IH]; [intros _ []|]. cbn [authorGet map fst].
  destruct (String.eqb_spec k k') as [->|Hne]; [discriminate|].
  intros Hg [Hk|Hk]; [congruence|]. exact (IH Hg Hk).
Qed.

Lemma authorGet_bump m k k0 :
  authorGet (authorBump m k) k0
  = if String.eqb k0 k
    then match authorGet m k0 with
         | Some a => Some (mkAuthor (au_name a) (au_email a) (au_commits a + 1))
         | None => None
         end
    else authorGet m k0.
Proof.
  induction m as [|[k' a] r IH].
  - cbn. destruct (String.eqb k0 k); reflexivity.
  - cbn [authorBump].
    destruct (String.eqb k k') eqn:Ek; cbn [authorGet].
    + apply String.eqb_eq in Ek. subst k'.
      destruct (String.eqb k0 k); reflexivity.
    + rewrite IH. destruct (String.eqb k0 k') eqn:Ek0; [|reflexivity].
      apply String.eqb_eq in Ek0. subst k'.
      rewrite String.eqb_sym, Ek. reflexivity.
Qed.

Lemma authorGet_push m k a k0 :
  authorGet m k = None ->
  authorGet (push m (k, a)) k0
  = if String.eqb k0 k then Some a else authorGet m k0.
Proof.
  unfold push. induction m as [|[k' a'] r IH]; intros Hnone.
  - reflexivity.
  - cbn [authorGet app] in *.
    destruct (String.eqb k k') eqn:Ek; [discriminate|].
    destruct (String.eqb k0 k') eqn:Ek0; [|apply IH, Hnone].
    apply String.eqb_eq in Ek0. subst k'.
    rewrite String.eqb_sym, Ek. reflexivity.
Qed.

Lemma authorBump_Forall (P : string * Author -> Prop) m k :
  (forall k' a, P (k', a) ->
     P (k', mkAuthor (au_name a) (au_email a) (au_commits a + 1))) ->
  Forall P m -> Forall P (authorBump m k).
Proof.
  intros Hp Hm. induction Hm as [|[k' a] r Ha Hr IH]; [constructor|].
  cbn [authorBump]. destruct (String.eqb k k'); constructor; auto.
Qed.

Lemma linesOfAuthor_snoc k lines line :
  linesOfAuthor k (lines ++ [line])
  = linesOfAuthor k lines
    ++ (if negb (isBlank line) && String.eqb (keyOfLine line) k
        then [line] else []).
Proof. unfold linesOfAuthor. rewrite filter_app. reflexivity. Qed.

Lemma countsOf_fold lines : countsOf lines (fold_left authorStep lines []).
Proof.
  induction lines as [|line lines IH] using rev_ind.
  - split; [constructor|]. split; [constructor|]. intros k. reflexivity.
  - rewrite fold_left_app. cbn [fold_left].
    destruct IH as (Hkeys & Hshape & Hget).
    set (m := fold_left authorStep lines []) in *.
    unfold authorStep. unfold countsOf.
    destruct (isBlank line) eqn:Eb.
    { split; [exact Hkeys|]. split; [exact Hshape|].
      intros k. rewrite linesOfAuthor_snoc, Eb. cbn [negb andb].
      rewrite app_nil_r. apply Hget. }
    fold (keyOfLine line).
    destruct (authorHas m (keyOfLine line)) eqn:Eh.
    + split; [rewrite authorBump_keys; exact Hkeys|].
      split; [apply authorBump_Forall; [intros k' a Ha; exact Ha|exact Hshape]|].
      intros k. rewrite linesOfAuthor_snoc, Eb. cbn [negb andb].
      rewrite authorGet_bump. specialize (Hget k).
      rewrite (String.eqb_sym k).
      destruct (String.eqb_spec (keyOfLine line) k) as [E|_].
      * destruct (authorGet m k) as [a|] eqn:Eg.
        -- cbn [au_commits]. rewrite alen_app. change (alen [line]) with 1.
           lia.
        -- apply authorHas_get in Eg. congruence.
      * rewrite app_nil_r. exact Hget.
    + apply authorHas_get in Eh.
      split.
      { unfold push. rewrite map_app. cbn [map fst].
        apply NoDup_rev in Hkeys.
        rewrite <- (rev_involutive (map fst m ++ _)).
        apply NoDup_rev. rewrite rev_app_distr. cbn [rev app].
        constructor; [|exact Hkeys].
        intros Hin. apply in_rev in Hin.
        apply (authorGet_keys m _ Eh Hin). }
      split; [apply Forall_push; [exact Hshape|reflexivity]|].
      intros k. rewrite linesOfAuthor_snoc, Eb. cbn [negb andb].
      rewrite (authorGet_push m _ _ k Eh). specialize (Hget k).
      rewrite (String.eqb_sym k).
      destruct (String.eqb_spec (keyOfLine line) k) as [E|_].
      * subst k. rewrite Eh in Hget. rewrite Hget. cbn [au_commits app].
        change (alen [line]) with 1. lia.
      * rewrite app_nil_r. exact Hget.
Qed.

Lemma authorGet_In m k a :
  NoDup (map fst m) -> In (k, a) m -> authorGet m k = Some a.
Proof.
  induction m as [|[k' a'] r IH]; intros Hm Hin; [destruct Hin|].
  cbn [map fst] in Hm. inversion Hm as [|? ? Hk Hr]; subst.
  cbn [authorGet]. destruct Hin as [Hin|Hin].
  - injection Hin as -> ->. rewrite String.eqb_refl. reflexivity.
  - destruct (String.eqb_spec k k') as [->|_]; [|apply IH; assumption].
    exfalso. apply Hk. apply (in_map fst) in Hin. exact Hin.
Qed.

Lemma In_authorGet m k a : authorGet m k = Some a -> In (k, a) m.
Proof.
  induction m as [|[k' a'] r IH]; [discriminate|]. cbn [authorGet].
  destruct (String.eqb_spec k k') as [->|_].
  - intros H. injection H as ->. left. reflexivity.
  - intros H. right. apply IH, H.
Qed.

Lemma insertByCommits_perm a l : Permutation (insertByCommits a l) (a :: l).
Proof.
  induction l as [|e r IH]; cbn [insertByCommits].
  - apply Permutation_refl.
  - destruct (au_commits a <? au_commits e).
    + apply perm_trans with (e :: a :: r);
        [apply perm_skip, IH|apply perm_swap].
    + apply Permutation_refl.
Qed.

Lemma sortByCommitsDesc_perm l : Permutation (sortByCommitsDesc l) l.
Proof.
  induction l as [|a l IH]; cbn.
  - apply Permutation_refl.
  - apply perm_trans with (a :: sortByCommitsDesc l);
      [apply insertByCommits_perm|apply perm_skip, IH].
Qed.

Lemma insertByCommits_sorted a l :
  StronglySorted moreCommits l ->
  StronglySorted moreCommits (insertByCommits a l).
Proof.
  intros H. induction H as [|e r Hr IH He]; cbn [insertByCommits].
  - constructor; constructor.
  - destruct (au_commits a <? au_commits e) eqn:E.
    + apply Z.ltb_lt in E. constructor; [exact IH|].
      apply (Permutation_Forall (Permutation_sym (insertByCommits_perm a r))).
      constructor; [unfold moreCommits; lia|exact He].
    + apply Z.ltb_ge in E. constructor; [constructor; assumption|].
      constructor; [exact E|].
      apply (Forall_impl _ (P := moreCommits e)); [|exact He].
      unfold moreCommits. intros x Hx. lia.
Qed.

Lemma sortByCommitsDesc_sorted l :
  StronglySorted moreCommits (sortByCommitsDesc l).
Proof.
  induction l as [|a l IH]; cbn.
  - constructor.
  - apply insertByCommits_sorted, IH.
Qed.

Lemma entries_keys (m : AuthorMap) :
  Forall (fun e => fst e = authorKey (au_name (snd e)) (au_email (snd e))) m ->
  map (fun a => authorKey (au_name a) (au_email a)) (map snd m) = map fst m.
Proof.
  intros H. induction H as [|[k a] r Hk Hr IH]; [reflexivity|].
  cbn [map fst snd] in *. rewrite IH, <- Hk. reflexivity.
Qed.

(** The author list counts every line of the log once: each entry holds
    the number of non-blank lines that read as its name and address,
    which is at least one; no two entries have the same name and address;
    every non-blank line has its entry; and the list is in descending
    order of commits. *)
Theorem getAuthors_counts_every_line :
  forall output,
    let lines := splitLines output in
    let keyOf := fun a => authorKey (au_name a) (au_email a) in
    let authors := getAuthors output in
    NoDup (map keyOf authors)
    /\ Forall (fun a => au_commits a = alen (linesOfAuthor (keyOf a) lines)
                        /\ 1 <= au_commits a)
              authors
    /\ Forall (fun line =>
                 isBlank line = false ->
                 Exists (fun a => keyOf a = keyOfLine line) authors)
              lines
    /\ StronglySorted moreCommits authors.
Proof.
  intros output lines keyOf authors. subst authors. unfold getAuthors.
  fold lines. destruct (countsOf_fold lines) as (Hkeys & Hshape & Hget).
  set (m := fold_left authorStep lines []) in *.
  pose proof (sortByCommitsDesc_perm (map snd m)) as Hperm.
  split; [|split; [|split]].
  - apply (Permutation_NoDup (l := map keyOf (map snd m))).
    + apply Permutation_map, Permutation_sym, Hperm.
    + subst keyOf. cbv beta. rewrite (entries_keys m Hshape). exact Hkeys.
  - apply (Permutation_Forall (Permutation_sym Hperm)).
    apply Forall_forall. intros a Ha.
    apply in_map_iff in Ha as ([k a'] & Ea & Hin). cbn [snd] in Ea. subst a'.
    rewrite Forall_forall in Hshape. pose proof (Hshape _ Hin) as Hk.
    cbn [fst snd] in Hk. subst keyOf. cbv beta. rewrite <- Hk.
    specialize (Hget k). rewrite (authorGet_In m k a Hkeys Hin) in Hget.
    exact Hget.
  - apply Forall_forall. intros line Hline Hnb.
    specialize (Hget (keyOfLine line)).
    destruct (authorGet m (keyOfLine line)) as [a|] eqn:Eg.
    + apply In_authorGet in Eg. apply Exists_exists. exists a. split.
      * apply (Permutation_in _ (Permutation_sym Hperm)).
        apply in_map_iff. exists (keyOfLine line, a). auto.
      * rewrite Forall_forall in Hshape. specialize (Hshape _ Eg).
        cbn [fst snd] in Hshape. subst keyOf. cbv beta. congruence.
    + exfalso.
      assert (Hin : In line (linesOfAuthor (keyOfLine line) lines)).
      { apply filter_In. split; [exact Hline|].
        rewrite Hnb, String.eqb_refl. reflexivity. }
      rewrite Hget in Hin. destruct Hin.
  - apply sortByCommitsDesc_sorted.
Qed.
